(** * brief: signed tokens with a built-in expiry

    A shallow embedding of [brief.go] (package [brief]) together with the
    parts of the Go standard library it calls: [crypto/sha256],
    [crypto/hmac], [crypto/subtle], [encoding/base64], [encoding/binary],
    [strings.Split], and the calendar, formatting and parsing functions of
    package [time].

    Conventions of the embedding.
    - A Go [[]byte] and a Go [string] are both sequences of bytes and are
      both embedded as [list byte]; the conversions [[]byte(s)] and
      [string(b)] are the identity.  A slice that may be [nil] where the
      code tests for it ([Mint.secret]) is an [option (list byte)].
    - Machine integers are [Z] with the wrap-around written out.
    - The clock, the random source and the local time zone are explicit
      arguments.
    - A Go function returning [(T, error)] returns a pair whose second
      component is an [option error]; a function that can panic returns
      an [outcome].
    - Calls on a [Mint] happen one after another, and a panic ends the
      program: goroutines racing on the [sync.Once] and a caller that
      recovers from a panic are outside the embedding, as is the
      monotonic clock reading of a [time.Time]. *)

From Stdlib Require Import Strings.String Strings.Byte.
From Stdlib Require Import ZArith List Bool Lia.
From Stdlib Require DecimalFacts DecimalPos DecimalN.
Import ListNotations.
Local Open Scope Z_scope.

Set Implicit Arguments.
Set Warnings "-register-all".

(** ** Bytes *)

Definition bytes := list byte.

(** String literals denote the byte sequence of their characters. *)
Definition bs (s : string) : bytes := list_byte_of_string s.
Arguments bs s%_string.

(** [uint(b)]: the numeric value of a byte. *)
Definition Z_of_byte (b : byte) : Z := Z.of_N (Byte.to_N b).

(** [byte(x)]: conversion of an integer to a byte keeps its low 8 bits. *)
Definition byte_of_Z (x : Z) : byte :=
  match Byte.of_N (Z.to_N (Z.land x 0xFF)) with
  | Some b => b
  | None => x00
  end.

Definition byte_eqb (a b : byte) : bool := Byte.eqb a b.

(** ** crypto/sha256 *)

Module SHA256.

Definition mask32 : Z := 0xFFFFFFFF.

(** Arithmetic on [uint32]. *)
Definition add32 (a b : Z) : Z := Z.land (a + b) mask32.
Definition rotr (n x : Z) : Z :=
  Z.land (Z.lor (Z.shiftr x n) (Z.shiftl x (32 - n))) mask32.
Definition shr (n x : Z) : Z := Z.shiftr x n.
Definition not32 (x : Z) : Z := Z.lxor x mask32.

Definition Ch (e f g : Z) : Z := Z.lxor (Z.land e f) (Z.land (not32 e) g).
Definition Maj (a b c : Z) : Z :=
  Z.lxor (Z.lxor (Z.land a b) (Z.land a c)) (Z.land b c).
Definition Sigma0 (a : Z) : Z := Z.lxor (Z.lxor (rotr 2 a) (rotr 13 a)) (rotr 22 a).
Definition Sigma1 (e : Z) : Z := Z.lxor (Z.lxor (rotr 6 e) (rotr 11 e)) (rotr 25 e).
Definition sigma0 (x : Z) : Z := Z.lxor (Z.lxor (rotr 7 x) (rotr 18 x)) (shr 3 x).
Definition sigma1 (x : Z) : Z := Z.lxor (Z.lxor (rotr 17 x) (rotr 19 x)) (shr 10 x).

(** The first 64 primes. *)
Definition primes : list Z :=
  [ 2; 3; 5; 7; 11; 13; 17; 19; 23; 29; 31; 37; 41; 43; 47; 53; 59; 61; 67; 71;
    73; 79; 83; 89; 97; 101; 103; 107; 109; 113; 127; 131; 137; 139; 149; 151;
    157; 163; 167; 173; 179; 181; 191; 193; 197; 199; 211; 223; 227; 229; 233;
    239; 241; 251; 257; 263; 269; 271; 277; 281; 283; 293; 307; 311 ].

(** The integer cube root of [x], found bit by bit below bit [n]. *)
Fixpoint root3 (n : nat) (x r : Z) : Z :=
  match n with
  | O => r
  | S n' =>
      let c := r + 2 ^ Z.of_nat n' in
      if c * c * c <=? x then root3 n' x c else root3 n' x r
  end.

(** The round constants: the first 32 bits of the fractional parts of the
    cube roots of the first 64 primes. *)
Definition K : list Z :=
  Eval vm_compute in
    map (fun p => Z.land (root3 36 (p * 2 ^ 96) 0) mask32) primes.

(** The eight working variables / the chaining value. *)
Record digest := Digest {
  h0 : Z; h1 : Z; h2 : Z; h3 : Z; h4 : Z; h5 : Z; h6 : Z; h7 : Z
}.

(** The initial hash value: the first 32 bits of the fractional parts of
    the square roots of the first 8 primes. *)
Definition frac_sqrt (p : Z) : Z := Z.land (Z.sqrt (p * 2 ^ 64)) mask32.

Definition init : digest :=
  Eval vm_compute in
    Digest (frac_sqrt 2) (frac_sqrt 3) (frac_sqrt 5) (frac_sqrt 7)
           (frac_sqrt 11) (frac_sqrt 13) (frac_sqrt 17) (frac_sqrt 19).

(** Big-endian encodings. *)
Definition be32 (x : Z) : bytes :=
  [ byte_of_Z (Z.shiftr x 24); byte_of_Z (Z.shiftr x 16);
    byte_of_Z (Z.shiftr x 8); byte_of_Z x ].

Definition be64 (x : Z) : bytes :=
  [ byte_of_Z (Z.shiftr x 56); byte_of_Z (Z.shiftr x 48);
    byte_of_Z (Z.shiftr x 40); byte_of_Z (Z.shiftr x 32);
    byte_of_Z (Z.shiftr x 24); byte_of_Z (Z.shiftr x 16);
    byte_of_Z (Z.shiftr x 8); byte_of_Z x ].

Definition word_of (a b c d : byte) : Z :=
  Z.lor (Z.lor (Z.lor (Z.shiftl (Z_of_byte a) 24) (Z.shiftl (Z_of_byte b) 16))
               (Z.shiftl (Z_of_byte c) 8)) (Z_of_byte d).

(** The words of a byte sequence, four bytes at a time (a trailing
    fragment of fewer than four bytes is dropped: blocks are whole). *)
Fixpoint words (p : bytes) : list Z :=
  match p with
  | a :: b :: c :: d :: rest => word_of a b c d :: words rest
  | _ => []
  end.

(** Message schedule: [rev_w] holds the words computed so far, latest
    first; [n] more words are appended. *)
Fixpoint schedule (n : nat) (rev_w : list Z) : list Z :=
  match n with
  | O => rev rev_w
  | S n' =>
      let w2 := nth 1 rev_w 0 in
      let w7 := nth 6 rev_w 0 in
      let w15 := nth 14 rev_w 0 in
      let w16 := nth 15 rev_w 0 in
      let w := add32 (add32 (add32 (sigma1 w2) w7) (sigma0 w15)) w16 in
      schedule n' (w :: rev_w)
  end.

Definition round (s : digest) (kw : Z * Z) : digest :=
  let (k, w) := kw in
  let t1 := add32 (add32 (add32 (add32 (h7 s) (Sigma1 (h4 s)))
                                (Ch (h4 s) (h5 s) (h6 s))) k) w in
  let t2 := add32 (Sigma0 (h0 s)) (Maj (h0 s) (h1 s) (h2 s)) in
  Digest (add32 t1 t2) (h0 s) (h1 s) (h2 s) (add32 (h3 s) t1) (h4 s) (h5 s) (h6 s).

(** One 64-byte block. *)
Definition block (s : digest) (p : bytes) : digest :=
  let w := schedule 48 (rev (words p)) in
  let r := fold_left round (combine K w) s in
  Digest (add32 (h0 s) (h0 r)) (add32 (h1 s) (h1 r)) (add32 (h2 s) (h2 r))
         (add32 (h3 s) (h3 r)) (add32 (h4 s) (h4 r)) (add32 (h5 s) (h5 r))
         (add32 (h6 s) (h6 r)) (add32 (h7 s) (h7 r)).

(** Padding: a one bit, zeros up to 56 mod 64, and the length in bits as a
    big-endian 64-bit integer. *)
Definition padding (len : Z) : bytes :=
  let r := len mod 64 in
  let zeros := if r <? 56 then 55 - r else 119 - r in
  x80 :: repeat x00 (Z.to_nat zeros) ++ be64 (Z.land (len * 8) 0xFFFFFFFFFFFFFFFF).

Fixpoint blocks (n : nat) (s : digest) (p : bytes) : digest :=
  match n with
  | O => s
  | S n' => blocks n' (block s (firstn 64 p)) (skipn 64 p)
  end.

Definition sum256_digest (msg : bytes) : digest :=
  let p := msg ++ padding (Z.of_nat (length msg)) in
  blocks (Nat.div (length p) 64) init p.

Definition digest_bytes (d : digest) : bytes :=
  be32 (h0 d) ++ be32 (h1 d) ++ be32 (h2 d) ++ be32 (h3 d) ++
  be32 (h4 d) ++ be32 (h5 d) ++ be32 (h6 d) ++ be32 (h7 d).

(** [sha256.Sum256]. *)
Definition Sum256 (msg : bytes) : bytes := digest_bytes (sum256_digest msg).

Definition Size : nat := 32.
Definition BlockSize : nat := 64.

End SHA256.

(** ** crypto/hmac *)

Module HMAC.

Definition xor_byte (c : Z) (b : byte) : byte :=
  byte_of_Z (Z.lxor (Z_of_byte b) c).

(** The key as a block: a key longer than the block size is hashed first,
    then the key is padded with zeros to the block size. *)
Definition block_key (key : bytes) : bytes :=
  let k := if Nat.ltb SHA256.BlockSize (length key) then SHA256.Sum256 key else key in
  k ++ repeat x00 (SHA256.BlockSize - length k).

(** HMAC-SHA-256 of [msg] under [key]. *)
Definition hmac_sha256 (key msg : bytes) : bytes :=
  let k := block_key key in
  let ipad := map (xor_byte 0x36) k in
  let opad := map (xor_byte 0x5c) k in
  SHA256.Sum256 (opad ++ SHA256.Sum256 (ipad ++ msg)).

End HMAC.

(** ** crypto/subtle and hmac.Equal *)

Module Subtle.

(** [subtle.ConstantTimeCompare]: 1 when the slices have equal length and
    equal contents, else 0.  The loop ors together the exclusive-or of
    every pair of bytes. *)
Fixpoint xor_fold (x y : bytes) (v : Z) : Z :=
  match x, y with
  | a :: x', b :: y' => xor_fold x' y' (Z.lor v (Z.lxor (Z_of_byte a) (Z_of_byte b)))
  | _, _ => v
  end.

(** [subtle.ConstantTimeByteEq]. *)
Definition ConstantTimeByteEq (x y : Z) : Z :=
  Z.shiftr (Z.land (Z.lxor x y - 1) 0xFFFFFFFF) 31.

Definition ConstantTimeCompare (x y : bytes) : Z :=
  if negb (Nat.eqb (length x) (length y)) then 0
  else ConstantTimeByteEq (xor_fold x y 0) 0.

End Subtle.

Module HMACEqual.

(** [hmac.Equal]. *)
Definition Equal (mac1 mac2 : bytes) : bool :=
  Subtle.ConstantTimeCompare mac1 mac2 =? 1.

End HMACEqual.

(** ** encoding/binary *)

Module Binary.

(** [binary.BigEndian.PutUint64] into a fresh 8-byte buffer. *)
Definition PutUint64 (v : Z) : bytes := SHA256.be64 v.

(** [uint64(x)] for an [int64] [x]. *)
Definition uint64 (x : Z) : Z := x mod 2 ^ 64.

End Binary.

(** ** encoding/base64: [base64.RawURLEncoding] *)

Module Base64.

Definition encodeURL : bytes :=
  Eval cbv in bs "ABCDEFGHIJKLMNOPQRSTUVWXYZabcdefghijklmnopqrstuvwxyz0123456789-_".

(** [enc.encode[i]]. *)
Definition encode (i : Z) : byte := nth (Z.to_nat i) encodeURL x00.

Fixpoint index_from (c : byte) (l : bytes) (i : Z) : Z :=
  match l with
  | [] => 0xFF
  | x :: r => if byte_eqb x c then i else index_from c r (i + 1)
  end.

(** [enc.decodeMap[c]]: the position of [c] in the alphabet, 0xFF for a
    byte outside it. *)
Definition decodeMap (c : byte) : Z := index_from c encodeURL 0.

(** [Encoding.EncodeToString] without padding. *)
Fixpoint EncodeToString (src : bytes) : bytes :=
  match src with
  | a :: b :: c :: rest =>
      let val := Z.lor (Z.lor (Z.shiftl (Z_of_byte a) 16) (Z.shiftl (Z_of_byte b) 8))
                       (Z_of_byte c) in
      encode (Z.land (Z.shiftr val 18) 0x3F) ::
      encode (Z.land (Z.shiftr val 12) 0x3F) ::
      encode (Z.land (Z.shiftr val 6) 0x3F) ::
      encode (Z.land val 0x3F) :: EncodeToString rest
  | [a; b] =>
      let val := Z.lor (Z.shiftl (Z_of_byte a) 16) (Z.shiftl (Z_of_byte b) 8) in
      [ encode (Z.land (Z.shiftr val 18) 0x3F);
        encode (Z.land (Z.shiftr val 12) 0x3F);
        encode (Z.land (Z.shiftr val 6) 0x3F) ]
  | [a] =>
      let val := Z.shiftl (Z_of_byte a) 16 in
      [ encode (Z.land (Z.shiftr val 18) 0x3F);
        encode (Z.land (Z.shiftr val 12) 0x3F) ]
  | [] => []
  end.

(** The end of [decodeQuantum]: the [dlen] six-bit values collected in
    [dbuf] give [dlen - 1] bytes (the decoder is not strict: unused low
    bits of a short final quantum are not inspected). *)
Definition quantum (dbuf : list Z) : bytes :=
  let val := Z.lor (Z.lor (Z.lor (Z.shiftl (nth 0 dbuf 0) 18)
                                 (Z.shiftl (nth 1 dbuf 0) 12))
                          (Z.shiftl (nth 2 dbuf 0) 6)) (nth 3 dbuf 0) in
  firstn (length dbuf - 1)
         [ byte_of_Z (Z.shiftr val 16); byte_of_Z (Z.shiftr val 8); byte_of_Z val ].

Definition is_newline (c : byte) : bool := byte_eqb c x0a || byte_eqb c x0d.

(** [Encoding.Decode]: the loop over quanta, with the six-bit values of the
    quantum being read in [dbuf].  At the end of the input an empty quantum
    is fine, a single value is corrupt, and two or three values are a short
    final quantum.  A byte outside the alphabet is skipped when it is a
    line feed or carriage return and is corrupt input otherwise (there is
    no padding character).  [None] stands for [CorruptInputError]. *)
Fixpoint decode (src : bytes) (dbuf : list Z) : option bytes :=
  match src with
  | [] =>
      match dbuf with
      | [] => Some []
      | [_] => None
      | _ => Some (quantum dbuf)
      end
  | c :: rest =>
      let out := decodeMap c in
      if negb (out =? 0xFF) then
        let dbuf' := dbuf ++ [out] in
        if Nat.eqb (length dbuf') 4 then
          option_map (app (quantum dbuf')) (decode rest [])
        else decode rest dbuf'
      else if is_newline c then decode rest dbuf
      else None
  end.

(** [Encoding.DecodeString]. *)
Definition DecodeString (s : bytes) : option bytes := decode s [].

End Base64.

(** ** strings.Split *)

Module Strings.

(** [strings.Split(s, sep)] for a one-byte separator: the pieces of [s]
    between occurrences of [sep]; [n] occurrences give [n + 1] pieces. *)
Fixpoint Split (s : bytes) (sep : byte) : list bytes :=
  match s with
  | [] => [[]]
  | c :: rest =>
      if byte_eqb c sep then [] :: Split rest sep
      else match Split rest sep with
           | p :: ps => (c :: p) :: ps
           | [] => [[c]]
           end
  end.

End Strings.

(** ** strconv / fmt: decimal rendering of an integer *)

Module Strconv.

Fixpoint uint_bytes (u : Decimal.uint) : bytes :=
  match u with
  | Decimal.Nil => []
  | Decimal.D0 r => "0"%byte :: uint_bytes r
  | Decimal.D1 r => "1"%byte :: uint_bytes r
  | Decimal.D2 r => "2"%byte :: uint_bytes r
  | Decimal.D3 r => "3"%byte :: uint_bytes r
  | Decimal.D4 r => "4"%byte :: uint_bytes r
  | Decimal.D5 r => "5"%byte :: uint_bytes r
  | Decimal.D6 r => "6"%byte :: uint_bytes r
  | Decimal.D7 r => "7"%byte :: uint_bytes r
  | Decimal.D8 r => "8"%byte :: uint_bytes r
  | Decimal.D9 r => "9"%byte :: uint_bytes r
  end.

(** The decimal digits of a natural number, most significant first; zero
    is the single digit 0. *)
Definition utoa (u : Z) : bytes := uint_bytes (N.to_uint (Z.to_N u)).

(** [strconv.Itoa], the [%d] verb. *)
Definition Itoa (x : Z) : bytes :=
  if x <? 0 then "-"%byte :: utoa (- x) else utoa x.

End Strconv.

(** ** time *)

Module Time.

(** *** Locations

    A [Location] is the offset in force before its first transition and
    the list of its transitions, each the Unix time at which it happens
    and the offset (seconds east of UTC) in force from then on, in
    increasing order of time.  (Go keeps the zones in a separate table
    and may extend the list by a rule; here the transitions are listed.) *)
Record Location := mkLocation {
  zone0 : Z;
  tx : list (Z * Z)
}.

Definition UTC : Location := mkLocation 0 [].

(** [time.FixedZone]. *)
Definition FixedZone (offset : Z) : Location := mkLocation offset [].

Definition alpha : Z := - 2 ^ 63.
Definition omega : Z := 2 ^ 63 - 1.

Fixpoint lookup_tx (tx : list (Z * Z)) (sec : Z) (offset start : Z) : Z * Z * Z :=
  match tx with
  | [] => (offset, start, omega)
  | (w, o) :: rest =>
      if sec <? w then (offset, start, w) else lookup_tx rest sec o w
  end.

(** [Location.lookup]: the offset in force at Unix time [sec] and the
    interval [start, end) in which it is in force. *)
Definition lookup (l : Location) (sec : Z) : Z * Z * Z :=
  lookup_tx (tx l) sec (zone0 l) alpha.

(** *** Instants *)

(** A [time.Time]: seconds and nanoseconds since the Unix epoch, and the
    location used to present it.  (The monotonic clock reading is not
    modelled.) *)
Record Time := mkTime {
  unix : Z;
  nsec : Z;
  loc : Location
}.

(** [Time.Unix]. *)
Definition Unix (t : Time) : Z := unix t.

(** [Time.After]. *)
Definition After (t u : Time) : bool :=
  (unix t >? unix u) || ((unix t =? unix u) && (nsec t >? nsec u)).

(** [Time.Add]; a [Duration] is a count of nanoseconds.  Go's [/] and [%]
    truncate towards zero. *)
Definition Add (t : Time) (d : Z) : Time :=
  let dsec := Z.quot d 1000000000 in
  let ns := nsec t + Z.rem d 1000000000 in
  if ns >=? 1000000000 then mkTime (unix t + (dsec + 1)) (ns - 1000000000) (loc t)
  else if ns <? 0 then mkTime (unix t + (dsec - 1)) (ns + 1000000000) (loc t)
  else mkTime (unix t + dsec) ns (loc t).

(** [Time.Truncate(time.Second)] for an instant with
    [0 <= nsec < 1e9]. *)
Definition TruncateSecond (t : Time) : Time := mkTime (unix t) 0 (loc t).

(** *** The calendar

    Absolute time counts seconds from 1 January of year 1, 00:00:00 UTC,
    in the proleptic Gregorian calendar.  (Go shifts this origin to a year
    far in the past that is also 1 modulo 400, so that unsigned arithmetic
    suffices; with [Z] and floor division the cycles are the same.) *)

Definition secondsPerMinute : Z := 60.
Definition secondsPerHour : Z := 3600.
Definition secondsPerDay : Z := 86400.
Definition daysPer400Years : Z := 146097.
Definition daysPer100Years : Z := 36524.
Definition daysPer4Years : Z := 1461.

(** Seconds from year 1 to the Unix epoch:
    (1969*365 + 1969/4 - 1969/100 + 1969/400) days. *)
Definition unixToInternal : Z := 62135596800.

Definition isLeap (year : Z) : bool :=
  (Z.rem year 4 =? 0) && (negb (Z.rem year 100 =? 0) || (Z.rem year 400 =? 0)).

Definition daysBefore (m : Z) : Z :=
  nth (Z.to_nat m) [0; 31; 59; 90; 120; 151; 181; 212; 243; 273; 304; 334; 365] 0.

(** [daysIn(m, year)]. *)
Definition daysIn (m year : Z) : Z :=
  if (m =? 2) && isLeap year then 29 else daysBefore m - daysBefore (m - 1).

(** [daysSinceEpoch(year)]: days from 1 January of year 1 to 1 January of
    [year]. *)
Definition daysSinceEpoch (year : Z) : Z :=
  let y := year - 1 in
  let n := y / 400 in
  let y := y - 400 * n in
  let d := daysPer400Years * n in
  let n := y / 100 in
  let y := y - 100 * n in
  let d := d + daysPer100Years * n in
  let n := y / 4 in
  let y := y - 4 * n in
  let d := d + daysPer4Years * n in
  d + 365 * y.

(** [norm(hi, lo, base)]. *)
Definition norm (hi lo base : Z) : Z * Z := (hi + lo / base, lo mod base).

(** The offset [Date] settles on for a wall-clock reading, given as the
    Unix time [unix] the reading would have in UTC. *)
Definition dateOffset (l : Location) (unix : Z) : Z :=
  let '(offset, start, end_) := lookup l unix in
  if negb (offset =? 0) then
    let utc := unix - offset in
    if (utc <? start) || (utc >=? end_) then
      let '(offset', _, _) := lookup l utc in offset'
    else offset
  else offset.

(** [time.Date]. *)
Definition Date (year month day hour min sec nsec : Z) (l : Location) : Time :=
  let '(year, m) := norm year (month - 1) 12 in
  let month := m + 1 in
  let '(sec, nsec) := norm sec nsec 1000000000 in
  let '(min, sec) := norm min sec 60 in
  let '(hour, min) := norm hour min 60 in
  let '(day, hour) := norm day hour 24 in
  let d := daysSinceEpoch year in
  let d := d + daysBefore (month - 1) in
  let d := if isLeap year && (month >=? 3) then d + 1 else d in
  let d := d + (day - 1) in
  let abs := d * secondsPerDay in
  let abs := abs + (hour * secondsPerHour + min * secondsPerMinute + sec) in
  let unix := abs - unixToInternal in
  mkTime (unix - dateOffset l unix) nsec l.

(** [Time.locabs]: the absolute time of the wall-clock reading of [t] in
    its own location. *)
Definition locabs (t : Time) : Z :=
  let '(offset, _, _) := lookup (loc t) (unix t) in
  unix t + offset + unixToInternal.

(** [absDate(abs, false)]: the year of an absolute time and the day
    within that year, counted from 0. *)
Definition absYearDay (abs : Z) : Z * Z :=
  let d := abs / secondsPerDay in
  (* Account for 400 year cycles. *)
  let n := d / daysPer400Years in
  let y := 400 * n in
  let d := d - daysPer400Years * n in
  (* Cut off 100-year cycles.  The last cycle has one extra leap year, so
     on the last day of that year, day / daysPer100Years will be 4 instead
     of 3.  Cut it back down to 3 by subtracting n>>2. *)
  let n := d / daysPer100Years in
  let n := n - Z.shiftr n 2 in
  let y := y + 100 * n in
  let d := d - daysPer100Years * n in
  (* Cut off 4-year cycles. *)
  let n := d / daysPer4Years in
  let y := y + 4 * n in
  let d := d - daysPer4Years * n in
  (* Cut off years within a 4-year cycle. *)
  let n := d / 365 in
  let n := n - Z.shiftr n 2 in
  let y := y + n in
  let d := d - 365 * n in
  (y + 1, d).

(** The rest of [absDate(abs, true)]: month and day of the month from the
    day within the year, for a leap year or not. *)
Definition monthDay (leap : bool) (yday : Z) : Z * Z :=
  if leap && (yday =? 31 + 29 - 1) then (2, 29)
  else
    let day := if leap && (yday >? 31 + 29 - 1) then yday - 1 else yday in
    (* Estimate month on assumption that every month has 31 days.  The
       estimate may be too low by at most one month, so adjust. *)
    let month := day / 31 in
    let end_ := daysBefore (month + 1) in
    let '(month, begin) :=
      if day >=? end_ then (month + 1, end_) else (month, daysBefore month) in
    (month + 1, day - begin + 1).

(** [absDate(abs, true)]: year, month and day of an absolute time. *)
Definition absDate (abs : Z) : Z * Z * Z :=
  let '(year, yday) := absYearDay abs in
  let '(month, day) := monthDay (isLeap year) yday in
  (year, month, day).

(** [absClock(abs)]: hour, minute and second within the day. *)
Definition absClock (abs : Z) : Z * Z * Z :=
  let sec := abs mod secondsPerDay in
  let hour := sec / secondsPerHour in
  let sec := sec - hour * secondsPerHour in
  let min := sec / secondsPerMinute in
  let sec := sec - min * secondsPerMinute in
  (hour, min, sec).

(** *** Formatting and parsing with a layout

    A layout is taken as the list of its standard chunks; the layouts used
    here have no literal text between them. *)

Inductive std :=
| stdLongYear     (* "2006" *)
| stdZeroMonth    (* "01" *)
| stdZeroDay      (* "02" *)
| stdHour         (* "15" *)
| stdZeroMinute   (* "04" *)
| stdZeroSecond.  (* "05" *)

(** [appendInt(b, x, width)]: the decimal form of [x], zero-padded to
    [width] digits, after a minus sign when [x] is negative. *)
Definition appendInt (x : Z) (width : nat) : bytes :=
  let ds := Strconv.utoa (Z.abs x) in
  (if x <? 0 then ["-"%byte] else []) ++ repeat "0"%byte (width - length ds) ++ ds.

Definition formatChunk (t : Time) (c : std) : bytes :=
  let abs := locabs t in
  let '(year, month, day) := absDate abs in
  let '(hour, min, sec) := absClock abs in
  match c with
  | stdLongYear => appendInt year 4
  | stdZeroMonth => appendInt month 2
  | stdZeroDay => appendInt day 2
  | stdHour => appendInt hour 2
  | stdZeroMinute => appendInt min 2
  | stdZeroSecond => appendInt sec 2
  end.

(** [Time.Format(layout)]. *)
Definition Format (t : Time) (layout : list std) : bytes :=
  flat_map (formatChunk t) layout.

Definition isDigitByte (c : byte) : bool :=
  (Z_of_byte "0"%byte <=? Z_of_byte c) && (Z_of_byte c <=? Z_of_byte "9"%byte).

(** [isDigit(s, i)]. *)
Definition isDigit (s : bytes) (i : nat) : bool :=
  match nth_error s i with
  | Some c => isDigitByte c
  | None => false
  end.

Definition digitVal (c : byte) : Z := Z_of_byte c - Z_of_byte "0"%byte.

(** [leadingInt(s)]: the value of the leading digits and the rest of the
    string; [None] on overflow. *)
Fixpoint leadingInt (s : bytes) (x : Z) : option (Z * bytes) :=
  match s with
  | [] => Some (x, [])
  | c :: rest =>
      if isDigitByte c then
        if x >? 2 ^ 63 / 10 then None
        else
          let x := x * 10 + digitVal c in
          if x >? 2 ^ 63 then None else leadingInt rest x
      else Some (x, s)
  end.

(** [atoi(s)]. *)
Definition atoi (s : bytes) : option Z :=
  let '(neg, s) :=
    match s with
    | c :: rest =>
        if byte_eqb c "-"%byte || byte_eqb c "+"%byte
        then (byte_eqb c "-"%byte, rest) else (false, s)
    | [] => (false, s)
    end in
  match leadingInt s 0 with
  | Some (q, []) => Some (if neg then - q else q)
  | _ => None
  end.

(** [getnum(s, fixed)]: a number of one or two digits, of exactly two
    when [fixed]. *)
Definition getnum (s : bytes) (fixed : bool) : option (Z * bytes) :=
  match s with
  | a :: rest =>
      if negb (isDigitByte a) then None
      else if negb (isDigit s 1) then
        if fixed then None else Some (digitVal a, rest)
      else
        match rest with
        | b :: rest' => Some (digitVal a * 10 + digitVal b, rest')
        | [] => None
        end
  | [] => None
  end.

Definition commaOrPeriod (c : byte) : bool :=
  byte_eqb c "."%byte || byte_eqb c ","%byte.

(** [parseNanoseconds(value, nbytes)]: the separator and the digits after
    it, at most nine of which count. *)
Definition parseNanoseconds (value : bytes) (nbytes : nat) : option Z :=
  match value with
  | c :: _ =>
      if negb (commaOrPeriod c) then None
      else
        let nbytes := if Nat.ltb 10 nbytes then 10%nat else nbytes in
        match atoi (firstn (nbytes - 1) (skipn 1 value)) with
        | None => None
        | Some ns =>
            if ns <? 0 then None
            else Some (ns * 10 ^ Z.of_nat (10 - nbytes))
        end
  | [] => None
  end.

(** The number of leading bytes of [s] that are digits. *)
Fixpoint digitRun (s : bytes) : nat :=
  match s with
  | c :: rest => if isDigitByte c then S (digitRun rest) else O
  | [] => O
  end.

(** The fields a parse collects. *)
Record fields := mkFields {
  f_year : Z; f_month : Z; f_day : Z;
  f_hour : Z; f_min : Z; f_sec : Z; f_nsec : Z
}.

(** One chunk of the parsing loop: the fields with the chunk's value, and
    the rest of the input; [None] for a syntax error or a value out of
    range. *)
Definition parseChunk (c : std) (f : fields) (value : bytes) : option (fields * bytes) :=
  match c with
  | stdLongYear =>
      if Nat.ltb (length value) 4 || negb (isDigit value 0) then None
      else
        match atoi (firstn 4 value) with
        | Some year =>
            Some (mkFields year (f_month f) (f_day f) (f_hour f) (f_min f) (f_sec f) (f_nsec f),
                  skipn 4 value)
        | None => None
        end
  | stdZeroMonth =>
      match getnum value true with
      | Some (month, value) =>
          if (month <=? 0) || (12 <? month) then None
          else Some (mkFields (f_year f) month (f_day f) (f_hour f) (f_min f) (f_sec f) (f_nsec f),
                     value)
      | None => None
      end
  | stdZeroDay =>
      (* any two-digit day is taken here; it is checked against the month
         once the parse is complete *)
      match getnum value true with
      | Some (day, value) =>
          Some (mkFields (f_year f) (f_month f) day (f_hour f) (f_min f) (f_sec f) (f_nsec f),
                value)
      | None => None
      end
  | stdHour =>
      match getnum value false with
      | Some (hour, value) =>
          if (hour <? 0) || (24 <=? hour) then None
          else Some (mkFields (f_year f) (f_month f) (f_day f) hour (f_min f) (f_sec f) (f_nsec f),
                     value)
      | None => None
      end
  | stdZeroMinute =>
      match getnum value true with
      | Some (min, value) =>
          if (min <? 0) || (60 <=? min) then None
          else Some (mkFields (f_year f) (f_month f) (f_day f) (f_hour f) min (f_sec f) (f_nsec f),
                     value)
      | None => None
      end
  | stdZeroSecond =>
      match getnum value true with
      | Some (sec, value) =>
          if (sec <? 0) || (60 <=? sec) then None
          else
            (* a fractional second in the input that the layout does not
               ask for is accepted all the same *)
            if Nat.leb 2 (length value) && isDigit value 1 &&
               match value with c :: _ => commaOrPeriod c | [] => false end
            then
              let n := S (digitRun (skipn 1 value)) in
              match parseNanoseconds value n with
              | Some ns =>
                  Some (mkFields (f_year f) (f_month f) (f_day f) (f_hour f) (f_min f) sec ns,
                        skipn n value)
              | None => None
              end
            else
              Some (mkFields (f_year f) (f_month f) (f_day f) (f_hour f) (f_min f) sec (f_nsec f),
                    value)
      | None => None
      end
  end.

Fixpoint parseChunks (layout : list std) (f : fields) (value : bytes)
  : option (fields * bytes) :=
  match layout with
  | [] => Some (f, value)
  | c :: rest =>
      match parseChunk c f value with
      | Some (f', value') => parseChunks rest f' value'
      | None => None
      end
  end.

(** [time.ParseInLocation(layout, value, loc)]; [None] stands for a
    [*ParseError].  Fields the layout does not set keep the defaults
    (month and day 1).  After the chunks no text may remain, and the day
    must exist in its month. *)
Definition ParseInLocation (layout : list std) (value : bytes) (l : Location)
  : option Time :=
  match parseChunks layout (mkFields 0 1 1 0 0 0 0) value with
  | Some (f, []) =>
      if (f_day f <? 1) || (f_day f >? daysIn (f_month f) (f_year f)) then None
      else Some (Date (f_year f) (f_month f) (f_day f)
                      (f_hour f) (f_min f) (f_sec f) (f_nsec f) l)
  | _ => None
  end.

End Time.

(** ** errors and fmt.Errorf *)

Module Errors.

(** The package's sentinel errors (created with [errors.New]), and the two
    errors [io.ReadFull] reports when the random source runs dry. *)
Inductive sentinel :=
| ErrFormat | ErrParse | ErrFieldData | ErrFieldSignature | ErrFieldExpiry
| ErrDecoding | ErrVerifySignature | ErrVerifyExpiry
| EOF | ErrUnexpectedEOF.

(** An error value: a sentinel, or the result of [fmt.Errorf] with its
    text and the errors its [%w] verbs wrap. *)
Inductive error :=
| Sentinel (s : sentinel)
| Errorf (msg : bytes) (wraps : list error).

Definition sentinel_eqb (a b : sentinel) : bool :=
  match a, b with
  | ErrFormat, ErrFormat | ErrParse, ErrParse | ErrFieldData, ErrFieldData
  | ErrFieldSignature, ErrFieldSignature | ErrFieldExpiry, ErrFieldExpiry
  | ErrDecoding, ErrDecoding | ErrVerifySignature, ErrVerifySignature
  | ErrVerifyExpiry, ErrVerifyExpiry | EOF, EOF
  | ErrUnexpectedEOF, ErrUnexpectedEOF => true
  | _, _ => false
  end.

(** [err.Error()]. *)
Definition Error (e : error) : bytes :=
  match e with
  | Sentinel ErrFormat => bs "format invalid"
  | Sentinel ErrParse => bs "parsing"
  | Sentinel ErrFieldData => bs "data"
  | Sentinel ErrFieldSignature => bs "signature"
  | Sentinel ErrFieldExpiry => bs "expiry"
  | Sentinel ErrDecoding => bs "decoding"
  | Sentinel ErrVerifySignature => bs "invalid signature"
  | Sentinel ErrVerifyExpiry => bs "expired"
  | Sentinel EOF => bs "EOF"
  | Sentinel ErrUnexpectedEOF => bs "unexpected EOF"
  | Errorf msg _ => msg
  end.

(** [errors.Is(err, target)] for a sentinel target. *)
Fixpoint Is (err : error) (target : sentinel) : bool :=
  match err with
  | Sentinel s => sentinel_eqb s target
  | Errorf _ wraps =>
      (fix any (l : list error) : bool :=
         match l with
         | [] => false
         | e :: l' => Is e target || any l'
         end) wraps
  end.

End Errors.

(** ** crypto/rand and the hash object of crypto/hmac *)

Module World.

(** What the package reads from and writes to outside itself: the bytes
    the random source still has to give, and a record of the keys handed
    to [hmac.New], oldest first, kept to state which secret a call used. *)
Record world := mkWorld {
  entropy : bytes;
  macKeys : list bytes
}.

(** [rand.Read(b)] for a buffer of [n] bytes: [io.ReadFull] on the random
    source.  It fills the buffer or fails, with [io.EOF] when no byte could
    be read and [io.ErrUnexpectedEOF] when only some could. *)
Definition rand_Read (n : nat) (w : world) : (bytes + Errors.error) * world :=
  if Nat.leb n (length (entropy w)) then
    (inl (firstn n (entropy w)), mkWorld (skipn n (entropy w)) (macKeys w))
  else
    (inr (Errors.Sentinel
            (match entropy w with [] => Errors.EOF | _ => Errors.ErrUnexpectedEOF end)),
     mkWorld [] (macKeys w)).

(** The [hash.Hash] returned by [hmac.New(sha256.New, key)]. *)
Record hmacHash := mkHash {
  hkey : bytes;
  written : bytes
}.

(** [hmac.New(sha256.New, key)]; a nil key is the empty key. *)
Definition hmac_New (key : option bytes) (w : world) : hmacHash * world :=
  let k := match key with Some k => k | None => [] end in
  (mkHash k [], mkWorld (entropy w) (macKeys w ++ [k])).

(** [hash.Write(p)]: it never returns an error. *)
Definition hash_Write (h : hmacHash) (p : bytes) : hmacHash * option Errors.error :=
  (mkHash (hkey h) (written h ++ p), None).

(** [hash.Sum(nil)]. *)
Definition hash_Sum (h : hmacHash) : bytes :=
  HMAC.hmac_sha256 (hkey h) (written h).

End World.

(** ** package brief *)

Module Brief.

Import Errors World.

(** [timeLayout = "20060102150405"]. *)
Definition timeLayout : list Time.std :=
  [ Time.stdLongYear; Time.stdZeroMonth; Time.stdZeroDay;
    Time.stdHour; Time.stdZeroMinute; Time.stdZeroSecond ].

(** [sep = "."]. *)
Definition sep : byte := "."%byte.

(** [Encode]. *)
Definition Encode (data : bytes) : bytes := Base64.EncodeToString data.

Record Token := mkToken {
  Data : bytes;
  Expiry : Time.Time;
  Signature : bytes
}.

(** [Token{}]: no data, the zero [time.Time] (1 January of year 1, UTC),
    no signature. *)
Definition zeroToken : Token :=
  mkToken [] (Time.mkTime (- Time.unixToInternal) 0 Time.UTC) [].

(** [Token.String]. *)
Definition String (t : Token) : bytes :=
  Encode (Data t) ++ [sep] ++ Time.Format (Expiry t) timeLayout ++ [sep]
  ++ Encode (Signature t).

(** [FromString], with [time.Local] as [Local]. *)
Definition FromString (Local : Time.Location) (s : bytes) : Token * option error :=
  let t := zeroToken in
  let parts := Strings.Split s sep in
  if negb (Nat.eqb (length parts) 3) then
    (t, Some (Errorf (Error (Sentinel ErrParse) ++ bs " (" ++ Error (Sentinel ErrFormat)
                      ++ bs "): " ++ Strconv.Itoa (Z.of_nat (length parts))
                      ++ bs " parts, expect 3")
                     [Sentinel ErrParse; Sentinel ErrFormat]))
  else
    let part0 := nth 0 parts [] in
    let part1 := nth 1 parts [] in
    let part2 := nth 2 parts [] in
    (* Decode Data field. *)
    match Base64.DecodeString part0 with
    | None =>
        (t, Some (Errorf (Error (Sentinel ErrParse) ++ bs " (" ++ Error (Sentinel ErrDecoding)
                          ++ bs "): " ++ Error (Sentinel ErrFieldData)
                          ++ bs " (" ++ part0 ++ bs ")")
                         [Sentinel ErrParse; Sentinel ErrDecoding; Sentinel ErrFieldData]))
    | Some data =>
        let t := mkToken data (Expiry t) (Signature t) in
        (* Decode Expiry field. *)
        match Time.ParseInLocation timeLayout part1 Local with
        | None =>
            (t, Some (Errorf (Error (Sentinel ErrParse) ++ bs ": "
                              ++ Error (Sentinel ErrFieldExpiry)
                              ++ bs " (" ++ part1 ++ bs ")")
                             [Sentinel ErrParse; Sentinel ErrFieldExpiry]))
        | Some expiry =>
            let t := mkToken (Data t) expiry (Signature t) in
            (* Decode Signature. *)
            match Base64.DecodeString part2 with
            | None =>
                (t, Some (Errorf (Error (Sentinel ErrParse) ++ bs " ("
                                  ++ Error (Sentinel ErrDecoding) ++ bs "): "
                                  ++ Error (Sentinel ErrFieldSignature)
                                  ++ bs " (" ++ part2 ++ bs ")")
                                 [Sentinel ErrParse; Sentinel ErrDecoding;
                                  Sentinel ErrFieldSignature]))
            | Some sig => (mkToken (Data t) (Expiry t) sig, None)
            end
        end
    end.

(** A [Mint]: the secret ([None] for a nil slice) and whether the
    [sync.Once] has run. *)
Record Mint := mkMint {
  secret : option bytes;
  once : bool
}.

(** The zero value [Mint{}]. *)
Definition zeroMint : Mint := mkMint None false.

(** [NewMint]. *)
Definition NewMint (secret : option bytes) : Mint := mkMint secret false.

(** A call on a [Mint] returns a value with the mint and the world as it
    leaves them, or panics. *)
Inductive outcome (A : Type) :=
| Returns (a : A) (m : Mint) (w : world)
| Panics (v : error).
Arguments Panics {A} v.

Definition M (A : Type) : Type := Mint -> world -> outcome A.

Definition ret {A} (a : A) : M A := fun m w => Returns a m w.

Definition bind {A B} (c : M A) (k : A -> M B) : M B :=
  fun m w =>
    match c m w with
    | Returns a m' w' => k a m' w'
    | Panics v => Panics v
    end.

Notation "x <- c ;; k" := (bind c (fun x => k))
  (at level 61, c at next level, right associativity).
Notation "c ;;; k" := (bind c (fun _ => k))
  (at level 61, right associativity).

Definition panic {A} (v : error) : M A := fun _ _ => Panics v.
Definition getSecret : M (option bytes) := fun m w => Returns (secret m) m w.
Definition setSecret (s : option bytes) : M unit :=
  fun m w => Returns tt (mkMint s (once m)) w.
Definition randRead (n : nat) : M (bytes + error) :=
  fun m w => let (r, w') := rand_Read n w in Returns r m w'.
Definition hmacNew (key : option bytes) : M hmacHash :=
  fun m w => let (h, w') := hmac_New key w in Returns h m w'.

(** [m.once.Do(f)]: [f] runs if the once has not run, and the once has
    run when [f] returns. *)
Definition onceDo (f : M unit) : M unit :=
  fun m w =>
    if once m then Returns tt m w
    else match f m w with
         | Returns _ m' w' => Returns tt (mkMint (secret m') true) w'
         | Panics v => Panics v
         end.

(** The function given to [once.Do] in [createSignature]. *)
Definition initSecret : M unit :=
  s <- getSecret ;;
  match s with
  | None =>
      r <- randRead 256 ;;
      match r with
      | inl b => setSecret (Some b)
      | inr err => panic (Errorf (bs "rand.Read(Mint.secret): " ++ Error err) [err])
      end
  | Some _ => ret tt
  end.

(** [Mint.createSignature]. *)
Definition createSignature (data : bytes) (expires : Time.Time)
  : M (option bytes * option error) :=
  onceDo initSecret ;;;
  (* Use a binary form of the unix timestamp. *)
  let timeBuf := Binary.PutUint64 (Binary.uint64 (Time.Unix expires)) in
  s <- getSecret ;;
  hash <- hmacNew s ;;
  let (hash, err) := hash_Write hash data in
  match err with
  | Some err => ret (None, Some (Errorf (bs "hash.Write(data): " ++ Error err) [err]))
  | None =>
      let (hash, err) := hash_Write hash timeBuf in
      match err with
      | Some err => ret (None, Some (Errorf (bs "hash.Write(expiry): " ++ Error err) [err]))
      | None => ret (Some (hash_Sum hash), None)
      end
  end.

Definition bytes_of (b : option bytes) : bytes :=
  match b with Some b => b | None => [] end.

(** [Mint.Sign]. *)
Definition Sign (data : bytes) (expires : Time.Time) : M (Token * option error) :=
  let t := mkToken data expires [] in
  r <- createSignature data expires ;;
  match r with
  | (_, Some err) =>
      ret (t, Some (Errorf (bs "Mint.Sign, could not create signature: " ++ Error err) [err]))
  | (sig, None) => ret (mkToken (Data t) (Expiry t) (bytes_of sig), None)
  end.

(** [Mint.Generate]; [make([]byte, dataLen)] panics for a negative
    length. *)
Definition Generate (dataLen : Z) (expires : Time.Time) : M (Token * option error) :=
  if dataLen <? 0 then
    panic (Errorf (bs "runtime error: makeslice: len out of range") [])
  else
    r <- randRead (Z.to_nat dataLen) ;;
    match r with
    | inr err =>
        ret (zeroToken,
             Some (Errorf (bs "Mint.Generate, rand.Read(data): " ++ Error err) [err]))
    | inl data => Sign data expires
    end.

(** [Mint.Verify], with the reading of [time.Now()] as [now]. *)
Definition Verify (now : Time.Time) (b : Token) : M (Token * option error) :=
  (* Check expiration, if this is bad no signature check needed. *)
  if Time.After now (Expiry b) then ret (b, Some (Sentinel ErrVerifyExpiry))
  else
    (* Check signature matches. *)
    r <- createSignature (Data b) (Expiry b) ;;
    match r with
    | (_, Some err) =>
        ret (b, Some (Errorf (bs "Mint.Verify, could not create signature: " ++ Error err)
                             [err]))
    | (sig, None) =>
        let sigOK := HMACEqual.Equal (Signature b) (bytes_of sig) in
        if negb sigOK then ret (b, Some (Sentinel ErrVerifySignature))
        else ret (b, None)
    end.

(** [Mint.VerifyString]. *)
Definition VerifyString (Local : Time.Location) (now : Time.Time) (s : bytes)
  : M (Token * option error) :=
  match FromString Local s with
  | (b, Some err) => ret (b, Some err)
  | (b, None) => Verify now b
  end.

(** *** Sequences of calls on one [Mint] *)

Inductive call :=
| CallSign (data : bytes) (expires : Time.Time)
| CallGenerate (dataLen : Z) (expires : Time.Time)
| CallVerify (now : Time.Time) (b : Token)
| CallVerifyString (Local : Time.Location) (now : Time.Time) (s : bytes).

Definition perform (c : call) : M (Token * option error) :=
  match c with
  | CallSign data expires => Sign data expires
  | CallGenerate dataLen expires => Generate dataLen expires
  | CallVerify now b => Verify now b
  | CallVerifyString Local now s => VerifyString Local now s
  end.

(** The calls of [cs] in order, each on the mint and the world the one
    before left; a panic ends the program. *)
Fixpoint run (cs : list call) : M (list (Token * option error)) :=
  match cs with
  | [] => ret []
  | c :: rest =>
      r <- perform c ;;
      rs <- run rest ;;
      ret (r :: rs)
  end.

End Brief.

(** * The notions the properties are stated with *)

Module Spec.

Import Errors World Brief.

(** The big-endian base-256 digits of a 64-bit value. *)
Definition big_endian_64 (x : Z) : bytes :=
  map (fun i => byte_of_Z (x / 256 ^ i)) [7; 6; 5; 4; 3; 2; 1; 0].

(** The message authentication code of a payload and an expiry under a
    secret: HMAC-SHA-256 of the payload followed by the expiry's Unix
    seconds as a big-endian 64-bit integer. *)
Definition MAC (secret data : bytes) (expires : Time.Time) : bytes :=
  HMAC.hmac_sha256 secret
    (data ++ big_endian_64 (Time.Unix expires mod 2 ^ 64)).

(** The secret a mint holds, as a byte sequence. *)
Definition secretOf (m : Mint) : bytes := bytes_of (secret m).

(** The mint has a secret, or the random source can give the 256 bytes of
    one. *)
Definition secretAvailable (m : Mint) (w : world) : Prop :=
  once m = true \/ secret m <> None \/ (256 <= length (entropy w))%nat.

(** The mint and the world once [once.Do] has run. *)
Definition mintAfter (m : Mint) (w : world) : Mint :=
  if once m then m
  else match secret m with
       | Some k => mkMint (Some k) true
       | None => mkMint (Some (firstn 256 (entropy w))) true
       end.

Definition worldAfter (m : Mint) (w : world) : world :=
  if once m then w
  else match secret m with
       | Some _ => w
       | None => mkWorld (skipn 256 (entropy w)) (macKeys w)
       end.

(** The world after one more key was handed to [hmac.New]. *)
Definition logKey (k : bytes) (w : world) : world :=
  mkWorld (entropy w) (macKeys w ++ [k]).

(** A token with another expiry. *)
Definition withExpiry (b : Token) (e : Time.Time) : Token :=
  mkToken (Data b) e (Signature b).

(** The signature a call returned, if it returned one without error. *)
Definition signatureOf (o : outcome (Token * option error)) : option bytes :=
  match o with
  | Returns (t, None) _ _ => Some (Signature t)
  | _ => None
  end.

(** *** The codec *)

(** The bytes of the URL-safe base64 alphabet. *)
Definition isAlphabet (c : byte) : bool := existsb (byte_eqb c) Base64.encodeURL.

(** The ASCII digit of a decimal digit value. *)
Definition digit (d : Z) : byte := byte_of_Z (Z_of_byte "0"%byte + d).

(** The two, and the four, low decimal digits of a number. *)
Definition digits2 (x : Z) : bytes := [digit (x / 10 mod 10); digit (x mod 10)].
Definition digits4 (x : Z) : bytes :=
  [digit (x / 1000 mod 10); digit (x / 100 mod 10); digit (x / 10 mod 10);
   digit (x mod 10)].

(** The offset of a location at an instant. *)
Definition offsetAt (l : Time.Location) (sec : Z) : Z := fst (fst (Time.lookup l sec)).

(** The wall-clock reading of an instant in a location: year, month, day
    and hour, minute, second. *)
Definition wallClock (l : Time.Location) (t : Time.Time) : (Z * Z * Z) * (Z * Z * Z) :=
  let abs := Time.unix t + offsetAt l (Time.unix t) + Time.unixToInternal in
  (Time.absDate abs, Time.absClock abs).

Definition yearIn (l : Time.Location) (t : Time.Time) : Z :=
  fst (fst (fst (wallClock l t))).

(** The 14 digits YYYYMMDDHHMMSS of an instant's wall-clock reading in a
    location. *)
Definition timestamp (l : Time.Location) (t : Time.Time) : bytes :=
  let '((Y, M, D), (h, mi, s)) := wallClock l t in
  digits4 Y ++ digits2 M ++ digits2 D ++ digits2 h ++ digits2 mi ++ digits2 s.

(** The wall-clock reading of the instant in the location is one that
    [time.Date] maps back to the instant: the offset [Date] settles on is
    the offset in force at the instant.  (It is not for a reading that
    occurs twice, when clocks are set back.) *)
Definition unambiguous (l : Time.Location) (t : Time.Time) : Prop :=
  Time.dateOffset l (Time.unix t + offsetAt l (Time.unix t))
  = offsetAt l (Time.unix t).

(** A fractional second as the parser takes it after the seconds: none,
    or a comma or period followed by one or more digits. *)
Definition fractionOK (frac : bytes) : Prop :=
  frac = []
  \/ exists c ds, frac = c :: ds /\ Time.commaOrPeriod c = true /\ ds <> []
                 /\ Forall (fun x => Time.isDigitByte x = true) ds.

(** Fourteen digits YYYYMMDDHHMMSS that form a real date and time of day,
    followed by [frac]. *)
Definition dateTimeDigits (p frac : bytes) : Prop :=
  exists Y M D h mi s,
    p = digits4 Y ++ digits2 M ++ digits2 D ++ digits2 h ++ digits2 mi
        ++ digits2 s ++ frac
    /\ 0 <= Y <= 9999 /\ 1 <= M <= 12 /\ 1 <= D <= Time.daysIn M Y
    /\ 0 <= h <= 23 /\ 0 <= mi <= 59 /\ 0 <= s <= 59.

(** What the parser accepts for the layout of the package. *)
Definition timestampOK (p : bytes) : Prop :=
  exists frac, dateTimeDigits p frac /\ fractionOK frac.

(** The same for a piece of a string split at its periods: fourteen
    digits forming a real date and time, alone or followed by a comma and
    one or more digits. *)
Definition expiryFieldOK (p : bytes) : Prop :=
  exists frac,
    dateTimeDigits p frac
    /\ (frac = []
        \/ exists ds, frac = ","%byte :: ds /\ ds <> []
                      /\ Forall (fun x => Time.isDigitByte x = true) ds).

(** What the decoder accepts: bytes of the URL-safe alphabet and line
    breaks (which it skips), the bytes of the alphabet not being one more
    than a multiple of four. *)
Definition base64OK (p : bytes) : Prop :=
  Forall (fun c => isAlphabet c = true \/ Base64.is_newline c = true) p
  /\ (length (filter isAlphabet p) mod 4 <> 1)%nat.

(** All of the first [n] integers from [i] on satisfy [P]. *)
Fixpoint all_from (n : nat) (i : Z) (P : Z -> bool) : bool :=
  match n with
  | O => true
  | S n' => P i && all_from n' (i + 1) P
  end.

Definition bytes_eqb (a b : bytes) : bool :=
  if list_eq_dec Byte.byte_eq_dec a b then true else false.

(** Lower-case hexadecimal, to state known digests. *)
Definition hex_digit (x : Z) : byte :=
  nth (Z.to_nat x) (bs "0123456789abcdef") x00.

Definition hex (p : bytes) : bytes :=
  flat_map (fun b => [ hex_digit (Z.shiftr (Z_of_byte b) 4);
                       hex_digit (Z.land (Z_of_byte b) 15) ]) p.

(** *** Concrete values *)

(** A mint with the secret "k", a world whose random source has nothing
    to give, and a token for the data "abc" expiring at
    2023-11-14 22:13:20 UTC, signed with that secret. *)
Definition exampleMint : Mint := NewMint (Some (bs "k")).
Definition exampleWorld : world := mkWorld [] [].
Definition exampleExpiry : Time.Time := Time.mkTime 1700000000 0 Time.UTC.
Definition exampleToken : Token :=
  mkToken (bs "abc") exampleExpiry (MAC (bs "k") (bs "abc") exampleExpiry).

(** The mint and the world after the example mint has computed a MAC. *)
Definition exampleMintUsed : Mint := mkMint (Some (bs "k")) true.
Definition exampleWorldUsed : world := mkWorld [] [bs "k"].

(** A moment before the example expiry, and one after it. *)
Definition exampleEarlier : Time.Time := Time.mkTime 1699999999 0 Time.UTC.
Definition exampleLater : Time.Time := Time.mkTime 1700000000 1 Time.UTC.

(** A zone one hour east of UTC, and the example token with its expiry
    presented in that zone. *)
Definition oneHourEast : Time.Location := Time.FixedZone 3600.
Definition exampleTokenEast : Token :=
  mkToken (bs "abc") (Time.mkTime 1700000000 0 oneHourEast) (bs "sig").

(** A zone two hours east of UTC until 2023-10-29 01:00:00 UTC and one
    hour east from then on (clocks set back from 03:00 to 02:00), and a
    token expiring ten minutes before that, at 02:50 local time. *)
Definition clocksSetBack : Time.Location :=
  Time.mkLocation 7200 [(1698541200, 3600)].
Definition exampleTokenSetBack : Token :=
  mkToken (bs "abc") (Time.mkTime 1698540600 0 clocksSetBack) (bs "sig").

(** A token expiring at the start of the year 10000, in UTC. *)
Definition exampleTokenFarFuture : Token :=
  mkToken (bs "abc") (Time.mkTime 253402300800 0 Time.UTC) (bs "sig").

(** A world whose random source gives 300 bytes. *)
Definition exampleEntropy : world := mkWorld (repeat "A"%byte 300) [].

(** *** The calls that mint a token, and the message of the MAC *)

(** The calls that produce a token: [Sign] and [Generate]. *)
Definition mints (c : call) : bool :=
  match c with
  | CallSign _ _ | CallGenerate _ _ => true
  | _ => false
  end.



(** The bytes [createSignature] writes to the hash: the data, then the
    eight bytes of the expiry's Unix seconds. *)
Definition macInput (data : bytes) (expires : Time.Time) : bytes :=
  data ++ Binary.PutUint64 (Binary.uint64 (Time.Unix expires)).

(** An [int64]. *)
Definition int64 (x : Z) : Prop := - 2 ^ 63 <= x < 2 ^ 63.

(** The expiry a serialization gives back where the local zone is
    [Local]: the wall-clock reading of the expiry in its own location,
    read as a time of [Local]. *)
Definition reparsed (Local : Time.Location) (e : Time.Time) : Time.Time :=
  let reading := Time.unix e + offsetAt (Time.loc e) (Time.unix e) in
  Time.mkTime (reading - Time.dateOffset Local reading) 0 Local.

(** An instant between the example expiry truncated to its second and the
    example expiry with 5 nanoseconds, and a token expiring then, in the
    zone one hour east. *)
Definition exampleTokenSubSecond : Token :=
  mkToken (bs "abc") (Time.mkTime 1700000000 5 oneHourEast) (bs "sig").
Definition exampleWithinSecond : Time.Time := Time.mkTime 1700000000 3 Time.UTC.

(** The token the example mint signs for the example data, with the
    expiry presented one hour east. *)
Definition exampleExpiryEast : Time.Time := Time.mkTime 1700000000 0 oneHourEast.
Definition exampleSignedEast : Token :=
  mkToken (bs "abc") exampleExpiryEast (MAC (bs "k") (bs "abc") exampleExpiryEast).

End Spec.

(** * Properties *)

Unset Implicit Arguments.

(** The hash functions are run on concrete inputs only. *)
Arguments SHA256.Sum256 : simpl never.
Arguments HMAC.hmac_sha256 : simpl never.
Arguments SHA256.be64 : simpl never.
Arguments byte_of_Z : simpl never.

(** ** Known answers

    The digest of "abc" (FIPS 180-4), the second and the sixth test case
    of RFC 4231 for HMAC-SHA-256, and the encoding of "abc". *)

Section KnownAnswers.

Import Spec.

Lemma Sum256_abc :
  hex (SHA256.Sum256 (bs "abc"))
  = bs "ba7816bf8f01cfea414140de5dae2223b00361a396177a9cb410ff61f20015ad".
Proof. vm_compute. reflexivity. Qed.

Lemma hmac_sha256_rfc4231_2 :
  hex (HMAC.hmac_sha256 (bs "Jefe") (bs "what do ya want for nothing?"))
  = bs "5bdcc146bf60754e6a042426089575c75a003f089d2739839dec58b964ec3843".
Proof. vm_compute. reflexivity. Qed.

Lemma hmac_sha256_rfc4231_6 :
  hex (HMAC.hmac_sha256
         (repeat xaa 131)
         (bs "Test Using Larger Than Block-Size Key - Hash Key First"))
  = bs "60e431591ee0b67f0d8a26aacbf5b77f8e0bc6213728c5140546040f0ee37f54".
Proof. vm_compute. reflexivity. Qed.

Lemma Encode_abc : Brief.Encode (bs "abc") = bs "YWJj".
Proof. vm_compute. reflexivity. Qed.

End KnownAnswers.

(** ** Bytes and bit arithmetic *)

Section ByteFacts.

Lemma Z_of_byte_range (b : byte) : 0 <= Z_of_byte b < 256.
Proof.
  unfold Z_of_byte. pose proof (Byte.to_N_bounded b). lia.
Qed.

Lemma land_255_mod (x : Z) : Z.land x 0xFF = x mod 256.
Proof.
  change 0xFF with (Z.ones 8). rewrite Z.land_ones by lia. reflexivity.
Qed.

Lemma byte_of_Z_of_byte (b : byte) : byte_of_Z (Z_of_byte b) = b.
Proof.
  unfold byte_of_Z. rewrite land_255_mod.
  rewrite Z.mod_small by apply Z_of_byte_range.
  unfold Z_of_byte. rewrite N2Z.id, Byte.of_to_N. reflexivity.
Qed.

Lemma Z_of_byte_inj (a b : byte) : Z_of_byte a = Z_of_byte b -> a = b.
Proof.
  intros H. rewrite <- (byte_of_Z_of_byte a), <- (byte_of_Z_of_byte b).
  now rewrite H.
Qed.

Lemma byte_of_Z_mod (x : Z) : byte_of_Z (x mod 256) = byte_of_Z x.
Proof.
  unfold byte_of_Z. rewrite !land_255_mod, Z.mod_mod by lia. reflexivity.
Qed.

Lemma Z_of_byte_of_Z (x : Z) : Z_of_byte (byte_of_Z x) = x mod 256.
Proof.
  unfold byte_of_Z. rewrite land_255_mod.
  assert (Hr : 0 <= x mod 256 < 256) by (apply Z.mod_pos_bound; lia).
  destruct (Byte.of_N (Z.to_N (x mod 256))) as [b|] eqn:E.
  - apply Byte.to_of_N in E. unfold Z_of_byte. rewrite E. lia.
  - apply Byte.of_N_None_iff in E. lia.
Qed.

Lemma byte_eqb_eq (a b : byte) : byte_eqb a b = true <-> a = b.
Proof.
  unfold byte_eqb. split.
  - apply Byte.byte_dec_bl.
  - apply Byte.byte_dec_lb.
Qed.

Lemma byte_eqb_refl (a : byte) : byte_eqb a a = true.
Proof. now apply byte_eqb_eq. Qed.

Lemma byte_eqb_neq (a b : byte) : byte_eqb a b = false <-> a <> b.
Proof.
  rewrite <- byte_eqb_eq. destruct (byte_eqb a b); split; congruence.
Qed.

(** Placing [hi] above the [k] low bits of [lo]. *)
Lemma lor_shiftl (hi lo k : Z) :
  0 <= k -> 0 <= lo < 2 ^ k -> Z.lor (Z.shiftl hi k) lo = hi * 2 ^ k + lo.
Proof.
  intros Hk Hlo.
  pose proof (Z.add_lor_land (Z.shiftl hi k) lo) as H.
  assert (E : Z.land (Z.shiftl hi k) lo = 0).
  { apply Z.bits_inj'. intros n Hn.
    rewrite Z.land_spec, Z.bits_0.
    destruct (Z.ltb_spec n k).
    - rewrite Z.shiftl_spec_low by lia. reflexivity.
    - rewrite <- (Z.mod_small lo (2 ^ k)) by lia.
      rewrite Z.mod_pow2_bits_high by lia. apply andb_false_r. }
  rewrite E, Z.shiftl_mul_pow2 in H by lia.
  rewrite Z.shiftl_mul_pow2 by lia. lia.
Qed.

End ByteFacts.

(** ** Sizes of digests *)

Section Sizes.

Lemma Sum256_length (msg : bytes) : length (SHA256.Sum256 msg) = 32%nat.
Proof. reflexivity. Qed.

Lemma hmac_sha256_length (key msg : bytes) :
  length (HMAC.hmac_sha256 key msg) = 32%nat.
Proof. apply Sum256_length. Qed.

End Sizes.

(** ** Constant-time comparison *)

Section ConstantTime.

Lemma small_bits (x n : Z) : 0 <= n -> 0 <= x < 2 ^ n <-> (0 <= x /\ forall i, n <= i -> Z.testbit x i = false).
Proof.
  intros Hn. split.
  - intros Hx. split; [lia|]. intros i Hi.
    rewrite <- (Z.mod_small x (2 ^ n)) by lia.
    apply Z.mod_pow2_bits_high. lia.
  - intros [H0 Hb]. split; [lia|].
    destruct (Z.eq_dec x 0) as [->|Hx]; [apply Z.pow_pos_nonneg; lia|].
    apply Z.log2_lt_pow2; [lia|].
    destruct (Z.lt_ge_cases (Z.log2 x) n) as [|Hge]; [assumption|].
    specialize (Hb _ Hge). rewrite Z.bit_log2 in Hb by lia. discriminate.
Qed.

Lemma lxor_small (a b n : Z) :
  0 <= n -> 0 <= a < 2 ^ n -> 0 <= b < 2 ^ n -> 0 <= Z.lxor a b < 2 ^ n.
Proof.
  intros Hn Ha Hb.
  apply small_bits in Ha; [|lia]. apply small_bits in Hb; [|lia].
  apply small_bits; [lia|]. split.
  - apply Z.lxor_nonneg. lia.
  - intros i Hi. rewrite Z.lxor_spec.
    rewrite (proj2 Ha i Hi), (proj2 Hb i Hi). reflexivity.
Qed.

Lemma lor_small (a b n : Z) :
  0 <= n -> 0 <= a < 2 ^ n -> 0 <= b < 2 ^ n -> 0 <= Z.lor a b < 2 ^ n.
Proof.
  intros Hn Ha Hb.
  apply small_bits in Ha; [|lia]. apply small_bits in Hb; [|lia].
  apply small_bits; [lia|]. split.
  - apply Z.lor_nonneg. lia.
  - intros i Hi. rewrite Z.lor_spec.
    rewrite (proj2 Ha i Hi), (proj2 Hb i Hi). reflexivity.
Qed.

Lemma xor_fold_range (x y : bytes) (v : Z) :
  0 <= v < 256 -> 0 <= Subtle.xor_fold x y v < 256.
Proof.
  revert y v. induction x as [|a x IH]; intros [|b y] v Hv; simpl; try assumption.
  apply IH. change 256 with (2 ^ 8). apply lor_small; [lia|exact Hv|].
  apply lxor_small; [lia| |]; apply Z_of_byte_range.
Qed.

Lemma xor_fold_zero (x y : bytes) (v : Z) :
  length x = length y ->
  (Subtle.xor_fold x y v = 0 <-> v = 0 /\ x = y).
Proof.
  revert y v. induction x as [|a x IH]; intros [|b y] v Hlen; simpl in *;
    try discriminate.
  - intuition.
  - injection Hlen as Hlen. rewrite (IH y _ Hlen).
    rewrite Z.lor_eq_0_iff, Z.lxor_eq_0_iff. split.
    + intros [[Hv Hab] Hxy]. apply Z_of_byte_inj in Hab. subst. auto.
    + intros [Hv Heq]. injection Heq as -> ->. auto.
Qed.

Lemma ConstantTimeByteEq_zero (v : Z) :
  0 <= v < 256 -> (Subtle.ConstantTimeByteEq v 0 = 1 <-> v = 0).
Proof.
  intros Hv. unfold Subtle.ConstantTimeByteEq. rewrite Z.lxor_0_r.
  change 0xFFFFFFFF with (Z.ones 32). rewrite Z.land_ones by lia.
  rewrite Z.shiftr_div_pow2 by lia.
  split.
  - intros H. destruct (Z.eq_dec v 0) as [|Hne]; [assumption|].
    rewrite Z.mod_small in H by lia. rewrite Z.div_small in H by lia. discriminate.
  - intros ->. reflexivity.
Qed.

(** [hmac.Equal] decides equality of byte sequences. *)
Lemma Equal_iff (x y : bytes) : HMACEqual.Equal x y = true <-> x = y.
Proof.
  unfold HMACEqual.Equal, Subtle.ConstantTimeCompare.
  destruct (Nat.eqb (length x) (length y)) eqn:E; cbn [negb].
  - apply Nat.eqb_eq in E. rewrite Z.eqb_eq.
    rewrite ConstantTimeByteEq_zero by (apply xor_fold_range; lia).
    rewrite xor_fold_zero by assumption. intuition.
  - apply Nat.eqb_neq in E. split; [discriminate|]. intros ->. congruence.
Qed.

Lemma Equal_refl (x : bytes) : HMACEqual.Equal x x = true.
Proof. now apply Equal_iff. Qed.

Lemma Equal_false_iff (x y : bytes) : HMACEqual.Equal x y = false <-> x <> y.
Proof.
  rewrite <- Equal_iff. destruct (HMACEqual.Equal x y); split; congruence.
Qed.

End ConstantTime.

(** ** The secret and the signature *)

Section Signing.

Import Errors World Brief Spec.

Lemma be64_big_endian (x : Z) : SHA256.be64 x = big_endian_64 x.
Proof.
  unfold SHA256.be64, big_endian_64. cbn [map].
  rewrite !Z.shiftr_div_pow2 by lia.
  change (256 ^ 0) with 1. rewrite Z.div_1_r. reflexivity.
Qed.

Lemma onceDo_initSecret (m : Mint) (w : world) :
  secretAvailable m w ->
  onceDo initSecret m w = Returns tt (mintAfter m w) (worldAfter m w).
Proof.
  intros H. unfold onceDo, initSecret, mintAfter, worldAfter,
    bind, getSecret, setSecret, randRead, rand_Read, ret, panic.
  destruct m as [s o]; cbn [once secret] in *.
  destruct o; [reflexivity|].
  destruct s as [k|]; [reflexivity|].
  destruct H as [H|[H|H]]; cbn in H; try discriminate; try congruence.
  destruct (Nat.leb_spec 256 (length (entropy w))) as [Hl|Hl]; [reflexivity|lia].
Qed.

Lemma onceDo_initSecret_panics (m : Mint) (w : world) :
  ~ secretAvailable m w ->
  exists v, onceDo initSecret m w = Panics v.
Proof.
  intros H. unfold secretAvailable in H.
  unfold onceDo, initSecret, bind, getSecret, setSecret, randRead, rand_Read, ret, panic.
  destruct m as [s o]; cbn [once secret] in *.
  destruct o; [tauto|].
  destruct s as [k|]; [exfalso; apply H; right; left; discriminate|].
  destruct (Nat.leb_spec 256 (length (entropy w))) as [Hl|Hl]; [tauto|].
  eexists. reflexivity.
Qed.

Lemma secretAvailable_dec (m : Mint) (w : world) :
  secretAvailable m w \/ ~ secretAvailable m w.
Proof.
  unfold secretAvailable. destruct m as [[k|] [|]]; cbn [once secret];
    try (left; auto; right; left; discriminate).
  destruct (Nat.leb_spec 256 (length (entropy w))) as [Hl|Hl].
  - left. auto.
  - right. intros [H|[H|H]]; try discriminate; try congruence; lia.
Qed.

(** [createSignature] returns the MAC under the mint's secret, having run
    the once and logged the key. *)
Lemma createSignature_returns (m : Mint) (w : world) (data : bytes) (e : Time.Time) :
  secretAvailable m w ->
  createSignature data e m w =
  Returns (Some (MAC (secretOf (mintAfter m w)) data e), None)
          (mintAfter m w)
          (logKey (secretOf (mintAfter m w)) (worldAfter m w)).
Proof.
  intros H. unfold createSignature, bind at 1.
  rewrite (onceDo_initSecret _ _ H).
  unfold bind, getSecret, hmacNew, hmac_New, hash_Write, hash_Sum, ret, MAC,
    secretOf, logKey, Binary.PutUint64, Binary.uint64, bytes_of.
  cbn [entropy macKeys hkey written app]. rewrite be64_big_endian.
  destruct (secret (mintAfter m w)); reflexivity.
Qed.

Lemma createSignature_panics (m : Mint) (w : world) (data : bytes) (e : Time.Time) :
  ~ secretAvailable m w ->
  exists v, createSignature data e m w = Panics v.
Proof.
  intros H. destruct (onceDo_initSecret_panics _ _ H) as [v Hv].
  exists v. unfold createSignature, bind at 1. rewrite Hv. reflexivity.
Qed.

Lemma Sign_returns (m : Mint) (w : world) (data : bytes) (e : Time.Time) :
  secretAvailable m w ->
  Sign data e m w =
  Returns (mkToken data e (MAC (secretOf (mintAfter m w)) data e), None)
          (mintAfter m w)
          (logKey (secretOf (mintAfter m w)) (worldAfter m w)).
Proof.
  intros H. unfold Sign, bind. rewrite (createSignature_returns _ _ _ _ H).
  reflexivity.
Qed.

Lemma Sign_panics (m : Mint) (w : world) (data : bytes) (e : Time.Time) :
  ~ secretAvailable m w -> exists v, Sign data e m w = Panics v.
Proof.
  intros H. destruct (createSignature_panics _ _ data e H) as [v Hv].
  exists v. unfold Sign, bind. rewrite Hv. reflexivity.
Qed.

Lemma Verify_expired (m : Mint) (w : world) (now : Time.Time) (b : Token) :
  Time.After now (Expiry b) = true ->
  Verify now b m w = Returns (b, Some (Sentinel ErrVerifyExpiry)) m w.
Proof. intros H. unfold Verify. rewrite H. reflexivity. Qed.

Lemma Verify_unexpired (m : Mint) (w : world) (now : Time.Time) (b : Token) :
  Time.After now (Expiry b) = false ->
  secretAvailable m w ->
  Verify now b m w =
  Returns (b, if HMACEqual.Equal (Signature b)
                   (MAC (secretOf (mintAfter m w)) (Data b) (Expiry b))
              then None else Some (Sentinel ErrVerifySignature))
          (mintAfter m w)
          (logKey (secretOf (mintAfter m w)) (worldAfter m w)).
Proof.
  intros Ht H. unfold Verify. rewrite Ht. unfold bind.
  rewrite (createSignature_returns _ _ _ _ H). cbn [bytes_of].
  destruct (HMACEqual.Equal _ _); reflexivity.
Qed.

Lemma Verify_unexpired_panics (m : Mint) (w : world) (now : Time.Time) (b : Token) :
  Time.After now (Expiry b) = false ->
  ~ secretAvailable m w ->
  exists v, Verify now b m w = Panics v.
Proof.
  intros Ht H. destruct (createSignature_panics _ _ (Data b) (Expiry b) H) as [v Hv].
  exists v. unfold Verify. rewrite Ht. unfold bind. rewrite Hv. reflexivity.
Qed.

Lemma mintAfter_available (m : Mint) (w : world) (k : bytes) :
  secretAvailable (mintAfter m w) (logKey k (worldAfter m w)).
Proof.
  left. unfold mintAfter. destruct (once m) eqn:E; [assumption|].
  destruct (secret m); reflexivity.
Qed.

Lemma mintAfter_idem (m : Mint) (w w' : world) :
  mintAfter (mintAfter m w) w' = mintAfter m w.
Proof.
  unfold mintAfter at 1.
  replace (once (mintAfter m w)) with true; [reflexivity|].
  unfold mintAfter. destruct (once m) eqn:E; [congruence|].
  destruct (secret m); reflexivity.
Qed.

End Signing.

(** ** Signatures, expiry and verification *)

Section VerifyClaims.

Import Errors World Brief Spec.

(** C1.  For a mint whose secret is set or can be generated, with [k] the
    secret in force once the call has run the once: [Sign] returns the
    token of its arguments whose signature is the 32-byte
    HMAC-SHA-256 of the data followed by the big-endian 64-bit Unix
    seconds of the expiry under [k]; and [Verify] of an unexpired token
    succeeds exactly when the token's signature equals that MAC of the
    token's data and expiry, and reports an invalid signature exactly
    when it differs. *)
Theorem signature_is_hmac_of_data_and_expiry (m : Mint) (w : world) :
  secretAvailable m w ->
  let m' := mintAfter m w in
  let k := secretOf m' in
  let w' := logKey k (worldAfter m w) in
  (forall data expires,
      Sign data expires m w
      = Returns (mkToken data expires (MAC k data expires), None) m' w'
      /\ length (MAC k data expires) = 32%nat)
  /\ (forall now b,
      Time.After now (Expiry b) = false ->
      (Verify now b m w = Returns (b, None) m' w'
       <-> Signature b = MAC k (Data b) (Expiry b))
      /\ (Verify now b m w = Returns (b, Some (Sentinel ErrVerifySignature)) m' w'
          <-> Signature b <> MAC k (Data b) (Expiry b))).
Proof.
  intros H m' k w'. split.
  - intros data expires. split.
    + apply Sign_returns, H.
    + apply hmac_sha256_length.
  - intros now b Ht. rewrite (Verify_unexpired _ _ _ _ Ht H).
    fold m' k w'.
    destruct (HMACEqual.Equal (Signature b) (MAC k (Data b) (Expiry b))) eqn:E.
    + apply Equal_iff in E. split; split; intros H'; try congruence; try reflexivity.
    + apply Equal_false_iff in E. split; split; intros H'; try congruence; try reflexivity.
Qed.

(** C2.  When the current time is strictly after the token's expiry,
    [Verify] returns the token with the expired error and leaves the mint
    and the world as they were: the once has not run and no key was
    handed to [hmac.New], whatever the signature.  When the current time
    is not after the expiry, no error [Verify] returns is the expired
    error. *)
Theorem expiry_checked_before_signature
        (m : Mint) (w : world) (now : Time.Time) (b : Token) :
  (Time.After now (Expiry b) = true ->
   Verify now b m w = Returns (b, Some (Sentinel ErrVerifyExpiry)) m w)
  /\ (Time.After now (Expiry b) = false ->
      forall t e m' w',
        Verify now b m w = Returns (t, Some e) m' w' ->
        Is e ErrVerifyExpiry = false).
Proof.
  split.
  - apply Verify_expired.
  - intros Ht t e m' w' Hv.
    destruct (secretAvailable_dec m w) as [H|H].
    + rewrite (Verify_unexpired _ _ _ _ Ht H) in Hv.
      destruct (HMACEqual.Equal _ _); inversion Hv; reflexivity.
    + destruct (Verify_unexpired_panics _ _ _ _ Ht H) as [v Hp]. congruence.
Qed.

Lemma Add_same_second (e : Time.Time) (d : Z) :
  - 1000000000 < d < 1000000000 ->
  0 <= Time.nsec e + d < 1000000000 ->
  Time.Unix (Time.Add e d) = Time.Unix e.
Proof.
  intros Hd Hn. unfold Time.Add.
  assert (Hq : Z.quot d 1000000000 = 0) by (apply Z.quot_small_iff; lia).
  assert (Hr : Z.rem d 1000000000 = d) by (apply Z.rem_small_iff; lia).
  rewrite Hq, Hr.
  destruct (Z.geb_spec (Time.nsec e + d) 1000000000); [lia|].
  destruct (Z.ltb_spec (Time.nsec e + d) 0); [lia|].
  unfold Time.Unix. cbn. lia.
Qed.

Lemma MAC_same_second (k data : bytes) (e1 e2 : Time.Time) :
  Time.Unix e1 = Time.Unix e2 -> MAC k data e1 = MAC k data e2.
Proof. intros H. unfold MAC. now rewrite H. Qed.

Lemma createSignature_same_second (m : Mint) (w : world) (data : bytes)
      (e1 e2 : Time.Time) :
  Time.Unix e1 = Time.Unix e2 ->
  createSignature data e1 m w = createSignature data e2 m w.
Proof.
  intros H. unfold createSignature. now rewrite H.
Qed.

(** C9.  Only the Unix seconds of the expiry enter the signature: for two
    expiries with the same Unix seconds [Sign] behaves alike and gives the
    same signature, a change of the expiry by less than a second that
    stays within the second keeps the Unix seconds, and a token that
    verifies still verifies with its expiry replaced by one of the same
    second, as long as the current time is not after it. *)
Theorem signature_covers_whole_seconds_only
        (m : Mint) (w : world) (e1 e2 : Time.Time) :
  Time.Unix e1 = Time.Unix e2 ->
  (forall data,
      signatureOf (Sign data e1 m w) = signatureOf (Sign data e2 m w)
      /\ (forall v, Sign data e1 m w = Panics v <-> Sign data e2 m w = Panics v))
  /\ (forall now b m' w',
      Expiry b = e1 ->
      Time.After now e2 = false ->
      Verify now b m w = Returns (b, None) m' w' ->
      Verify now (withExpiry b e2) m w = Returns (withExpiry b e2, None) m' w')
  /\ (forall d,
      - 1000000000 < d < 1000000000 ->
      0 <= Time.nsec e1 + d < 1000000000 ->
      Time.Unix (Time.Add e1 d) = Time.Unix e1).
Proof.
  intros HU. split; [|split; [|apply Add_same_second]].
  - intros data. unfold Sign, bind.
    rewrite (createSignature_same_second m w data _ _ HU).
    destruct (createSignature data e2 m w) as [[sig [err|]] m1 w1|v]; cbn.
    + split; [reflexivity|]. split; discriminate.
    + split; [reflexivity|]. split; discriminate.
    + split; [reflexivity|]. tauto.
  - intros now b m' w' He Ht Hv.
    destruct (Time.After now (Expiry b)) eqn:Hexp.
    { rewrite (Verify_expired _ _ _ _ Hexp) in Hv. discriminate. }
    destruct (secretAvailable_dec m w) as [H|H].
    + rewrite (Verify_unexpired _ _ _ _ Hexp H) in Hv.
      rewrite (Verify_unexpired m w now (withExpiry b e2)) by assumption.
      cbn [withExpiry Data Expiry Signature].
      rewrite <- (MAC_same_second _ _ e1 e2 HU), <- He.
      destruct (HMACEqual.Equal _ _); inversion Hv; subst; reflexivity.
    + destruct (Verify_unexpired_panics _ _ _ _ Hexp H) as [v Hp]. congruence.
Qed.

Lemma big_endian_64_inj (x y : Z) :
  0 <= x < 2 ^ 64 -> 0 <= y < 2 ^ 64 ->
  big_endian_64 x = big_endian_64 y -> x = y.
Proof.
  intros Hx Hy H. unfold big_endian_64 in H. cbn [map] in H.
  injection H as H7 H6 H5 H4 H3 H2 H1 H0.
  apply (f_equal Z_of_byte) in H0, H1, H2, H3, H4, H5, H6, H7.
  rewrite !Z_of_byte_of_Z in *.
  change (2 ^ 64) with 18446744073709551616 in *.
  change (256 ^ 0) with 1 in *. change (256 ^ 1) with 256 in *.
  change (256 ^ 2) with 65536 in *. change (256 ^ 3) with 16777216 in *.
  change (256 ^ 4) with 4294967296 in *. change (256 ^ 5) with 1099511627776 in *.
  change (256 ^ 6) with 281474976710656 in *.
  change (256 ^ 7) with 72057594037927936 in *.
  Z.to_euclidean_division_equations. lia.
Qed.

(** C6, as amended.  Let a token verify, and replace its expiry, the
    signature left as it is, with the current time not after the new
    expiry.  [Verify] then reports an invalid signature exactly when the
    MAC of the data and the new expiry differs from the signature.  A
    change that keeps the Unix seconds keeps the MAC, and the token still
    verifies; a change of the Unix seconds (as 64-bit values) changes the
    message the MAC is computed over. *)
Theorem altered_expiry_detected_by_mac
        (m : Mint) (w : world) (now : Time.Time) (b : Token) (e' : Time.Time)
        (m' : Mint) (w' : world) :
  Verify now b m w = Returns (b, None) m' w' ->
  Time.After now e' = false ->
  let k := secretOf m' in
  Signature b = MAC k (Data b) (Expiry b)
  /\ (Verify now (withExpiry b e') m w
      = Returns (withExpiry b e', Some (Sentinel ErrVerifySignature)) m' w'
      <-> MAC k (Data b) e' <> Signature b)
  /\ (Time.Unix e' = Time.Unix (Expiry b) ->
      Verify now (withExpiry b e') m w = Returns (withExpiry b e', None) m' w')
  /\ (Time.Unix e' mod 2 ^ 64 <> Time.Unix (Expiry b) mod 2 ^ 64 ->
      Data b ++ big_endian_64 (Time.Unix e' mod 2 ^ 64)
      <> Data b ++ big_endian_64 (Time.Unix (Expiry b) mod 2 ^ 64)).
Proof.
  intros Hv Ht k.
  destruct (Time.After now (Expiry b)) eqn:Hexp.
  { rewrite (Verify_expired _ _ _ _ Hexp) in Hv. discriminate. }
  destruct (secretAvailable_dec m w) as [H|H].
  2:{ destruct (Verify_unexpired_panics _ _ _ _ Hexp H) as [v Hp]. congruence. }
  rewrite (Verify_unexpired _ _ _ _ Hexp H) in Hv.
  destruct (HMACEqual.Equal (Signature b) _) eqn:E; [|discriminate].
  apply Equal_iff in E.
  injection Hv as Hm Hw. subst k. rewrite <- Hm.
  split; [exact E|].
  rewrite (Verify_unexpired m w now (withExpiry b e')) by assumption.
  cbn [withExpiry Data Expiry Signature]. rewrite Hw.
  split; [|split].
  - destruct (HMACEqual.Equal (Signature b) (MAC _ (Data b) e')) eqn:E'.
    + apply Equal_iff in E'. split; [discriminate|congruence].
    + apply Equal_false_iff in E'. split; [congruence|]. intros _. rewrite Hm. reflexivity.
  - intros HU. rewrite (MAC_same_second _ _ e' (Expiry b) HU), <- E.
    rewrite Equal_refl, Hm. reflexivity.
  - intros HU Heq. apply app_inv_head in Heq.
    apply big_endian_64_inj in Heq; [congruence| |]; apply Z.mod_pos_bound; lia.
Qed.

Lemma After_asym (t u : Time.Time) :
  Time.After t u = true -> Time.After u t = false.
Proof.
  unfold Time.After. rewrite !Z.gtb_ltb.
  destruct (Z.ltb_spec (Time.unix u) (Time.unix t)),
           (Z.ltb_spec (Time.unix t) (Time.unix u)),
           (Z.eqb_spec (Time.unix t) (Time.unix u)),
           (Z.eqb_spec (Time.unix u) (Time.unix t)),
           (Z.ltb_spec (Time.nsec u) (Time.nsec t)),
           (Z.ltb_spec (Time.nsec t) (Time.nsec u));
    cbn; intros; try reflexivity; try discriminate; lia.
Qed.

(** C4, as amended.  For a mint whose secret is set or can be generated,
    every payload and every expiry strictly after the time of
    verification: [Sign] returns a token without error, and [Verify] of
    that token by the mint as [Sign] left it returns the same token
    without error, its data being the payload. *)
Theorem sign_then_verify_succeeds
        (m : Mint) (w : world) (data : bytes) (expires now : Time.Time) :
  secretAvailable m w ->
  Time.After expires now = true ->
  exists tok m1 w1 w2,
    Sign data expires m w = Returns (tok, None) m1 w1
    /\ Verify now tok m1 w1 = Returns (tok, None) m1 w2
    /\ Data tok = data.
Proof.
  intros H Hfut.
  pose proof (After_asym _ _ Hfut) as Hnot.
  eexists _, _, _, _. split; [apply Sign_returns, H|]. split; [|reflexivity].
  rewrite Verify_unexpired.
  - cbn [Signature Data Expiry]. rewrite mintAfter_idem.
    rewrite Equal_refl. reflexivity.
  - exact Hnot.
  - apply mintAfter_available.
Qed.

End VerifyClaims.

(** ** The life of the secret *)

Section SecretLifetime.

Import Errors World Brief Spec.

Lemma createSignature_inv (data : bytes) (e : Time.Time) (m : Mint) (w : world)
      r (m' : Mint) (w' : world) :
  createSignature data e m w = Returns r m' w' ->
  secretAvailable m w
  /\ m' = mintAfter m w
  /\ w' = logKey (secretOf m') (worldAfter m w).
Proof.
  intros Hc. destruct (secretAvailable_dec m w) as [H|H].
  - rewrite (createSignature_returns _ _ _ _ H) in Hc.
    injection Hc as _ <- <-. auto.
  - destruct (createSignature_panics _ _ data e H) as [v Hv]. congruence.
Qed.

Lemma rand_Read_suffix (n : nat) (w : world) :
  macKeys (snd (rand_Read n w)) = macKeys w
  /\ exists pre, entropy w = pre ++ entropy (snd (rand_Read n w)).
Proof.
  unfold rand_Read. destruct (Nat.leb n (length (entropy w))); cbn.
  - split; [reflexivity|]. exists (firstn n (entropy w)).
    symmetry. apply firstn_skipn.
  - split; [reflexivity|]. exists (entropy w). now rewrite app_nil_r.
Qed.

(** What a call that returns has done: either no MAC was computed and the
    mint is as it was, or the once has run from some world [w1] that the
    call reached by reading random data, and one key was logged. *)
Lemma perform_inv (c : call) (m : Mint) (w : world) r (m' : Mint) (w' : world) :
  perform c m w = Returns r m' w' ->
  (exists pre, entropy w = pre ++ entropy w')
  /\ ((m' = m /\ macKeys w' = macKeys w)
      \/ (exists w1,
             (exists pre, entropy w = pre ++ entropy w1)
             /\ macKeys w1 = macKeys w
             /\ secretAvailable m w1
             /\ m' = mintAfter m w1
             /\ w' = logKey (secretOf m') (worldAfter m w1))).
Proof.
  assert (Hsig : forall data e m w m' w',
    (exists x, createSignature data e m w = Returns x m' w') ->
    (exists pre, entropy w = pre ++ entropy w')
    /\ ((m' = m /\ macKeys w' = macKeys w)
      \/ (exists w1,
             (exists pre, entropy w = pre ++ entropy w1)
             /\ macKeys w1 = macKeys w
             /\ secretAvailable m w1
             /\ m' = mintAfter m w1
             /\ w' = logKey (secretOf m') (worldAfter m w1)))).
  { clear. intros data e m w m' w' [x Hx].
    apply createSignature_inv in Hx. destruct Hx as (Ha & Hm & Hw). split.
    - subst w'. cbn [logKey entropy]. unfold worldAfter.
      destruct (once m); [exists []; reflexivity|].
      destruct (secret m); [exists []; reflexivity|].
      exists (firstn 256 (entropy w)). symmetry. apply firstn_skipn.
    - right. exists w. split; [exists []; reflexivity|]. auto. }
  assert (HSign : forall data e m w r m' w',
    Sign data e m w = Returns r m' w' ->
    exists x, createSignature data e m w = Returns x m' w').
  { clear. intros data e m w r m' w' Hs. unfold Sign, bind in Hs.
    destruct (createSignature data e m w) as [[sig [err|]] m1 w1|v];
      [| |discriminate]; cbn in Hs; inversion Hs; subst; eauto. }
  assert (HVerify : forall now b m w r m' w',
    Verify now b m w = Returns r m' w' ->
    (m' = m /\ w' = w)
    \/ exists x, createSignature (Data b) (Expiry b) m w = Returns x m' w').
  { clear. intros now b m w r m' w' Hv. unfold Verify in Hv.
    destruct (Time.After now (Expiry b)).
    - inversion Hv. auto.
    - right. unfold bind in Hv.
      destruct (createSignature (Data b) (Expiry b) m w) as [[sig [err|]] m1 w1|v];
        [| |discriminate].
      + inversion Hv; subst; eauto.
      + destruct (negb _); inversion Hv; subst; eauto. }
  destruct c as [data e|dataLen e|now b|Local now s]; cbn [perform]; intros Hp.
  - apply HSign in Hp. eapply Hsig; eauto.
  - unfold Generate in Hp. destruct (dataLen <? 0); [discriminate|].
    unfold bind, randRead in Hp.
    pose proof (rand_Read_suffix (Z.to_nat dataLen) w) as [Hk [pre Hpre]].
    destruct (rand_Read (Z.to_nat dataLen) w) as [[data|err] w1]; cbn [snd] in *.
    + apply HSign in Hp. destruct (Hsig _ _ _ _ _ _ Hp) as [[pre' Hpre'] Hcase].
      split.
      * exists (pre ++ pre'). rewrite Hpre, Hpre'. now rewrite app_assoc.
      * destruct Hcase as [[-> Hmk]|(w2 & [pre2 Hpre2] & Hmk & Ha & Hm & Hw)].
        -- left. split; [reflexivity|congruence].
        -- right. exists w2. split.
           ++ exists (pre ++ pre2). rewrite Hpre, Hpre2. now rewrite app_assoc.
           ++ split; [congruence|]. auto.
    + inversion Hp; subst. split; [eauto|]. left. auto.
  - apply HVerify in Hp. destruct Hp as [[-> ->]|Hp].
    + split; [exists []; reflexivity|]. left. auto.
    + eapply Hsig; eauto.
  - unfold VerifyString in Hp. destruct (FromString Local s) as [b [err|]].
    + inversion Hp; subst. split; [exists []; reflexivity|]. left. auto.
    + apply HVerify in Hp. destruct Hp as [[-> ->]|Hp].
      * split; [exists []; reflexivity|]. left. auto.
      * eapply Hsig; eauto.
Qed.

Lemma mintAfter_once (m : Mint) (w : world) : once (mintAfter m w) = true.
Proof.
  unfold mintAfter. destruct (once m) eqn:E; [assumption|].
  destruct (secret m); reflexivity.
Qed.

Lemma mintAfter_done (m : Mint) (w : world) : once m = true -> mintAfter m w = m.
Proof. intros H. unfold mintAfter. now rewrite H. Qed.

Lemma mintAfter_keeps (m : Mint) (w : world) (s : bytes) :
  secret m = Some s -> secret (mintAfter m w) = Some s.
Proof.
  intros H. unfold mintAfter. destruct (once m); [assumption|].
  rewrite H. reflexivity.
Qed.

Lemma mintAfter_fresh (m : Mint) (w : world) :
  secret m = None -> once m = false -> secretAvailable m w ->
  mintAfter m w = mkMint (Some (firstn 256 (entropy w))) true
  /\ length (firstn 256 (entropy w)) = 256%nat.
Proof.
  intros Hs Ho Ha. unfold mintAfter. rewrite Ho, Hs. split; [reflexivity|].
  destruct Ha as [Ha|[Ha|Ha]]; try congruence.
  apply firstn_length_le. exact Ha.
Qed.

(** The invariant of a run. *)
Lemma run_inv (cs : list call) :
  forall (m : Mint) (w : world) rs (m' : Mint) (w' : world),
    run cs m w = Returns rs m' w' ->
    exists n : nat,
      macKeys w' = macKeys w ++ repeat (secretOf m') n
      /\ (once m = true -> m' = m)
      /\ (forall s, secret m = Some s -> secret m' = Some s)
      /\ (n = 0%nat -> m' = m)
      /\ (n <> 0%nat -> once m' = true)
      /\ (exists pre, entropy w = pre ++ entropy w')
      /\ (secret m = None -> once m = false -> n <> 0%nat ->
          exists s pre post,
            m' = mkMint (Some s) true /\ length s = 256%nat
            /\ entropy w = pre ++ s ++ post).
Proof.
  induction cs as [|c cs IH]; intros m w rs m' w' Hr.
  - cbn in Hr. inversion Hr; subst. exists 0%nat. cbn [repeat].
    rewrite app_nil_r. repeat split; auto; try congruence.
    exists []. reflexivity.
  - cbn [run] in Hr. unfold bind in Hr.
    destruct (perform c m w) as [r m1 w1|v] eqn:Hp; [|discriminate].
    destruct (run cs m1 w1) as [rs1 m2 w2|v] eqn:Hrun; [|discriminate].
    inversion Hr; subst; clear Hr.
    apply perform_inv in Hp. destruct Hp as [[pre1 Hpre1] Hcase].
    destruct (IH _ _ _ _ _ Hrun) as (n & Hk & Honce & Hkeep & Hn0 & Hn1 & [pre2 Hpre2] & Hfresh).
    assert (Hpre : exists pre, entropy w = pre ++ entropy w').
    { exists (pre1 ++ pre2). rewrite Hpre1, Hpre2. now rewrite app_assoc. }
    destruct Hcase as [[-> Hmk]|(w0 & [pre0 Hpre0] & Hmk & Ha & Hm & Hw)].
    + (* the first call computed no MAC *)
      exists n. rewrite Hk, Hmk. repeat split; auto.
      intros Hs Ho Hn. destruct (Hfresh Hs Ho Hn) as (s & pre & post & E1 & E2 & E3).
      exists s, (pre1 ++ pre), post. repeat split; auto.
      rewrite Hpre1, E3. now rewrite app_assoc.
    + (* the first call ran the once and logged a key *)
      assert (Hdone : once m1 = true) by (subst m1; apply mintAfter_once).
      assert (Hsame : m' = m1) by auto.
      exists (S n). rewrite Hk. subst w1. cbn [logKey macKeys].
      rewrite Hsame. unfold worldAfter.
      assert (Hmk' : macKeys (if once m then w0 else
                       match secret m with
                       | Some _ => w0
                       | None => mkWorld (skipn 256 (entropy w0)) (macKeys w0)
                       end) = macKeys w).
      { destruct (once m); [assumption|]. destruct (secret m); assumption. }
      rewrite Hmk'. rewrite <- app_assoc. cbn [app repeat].
      repeat split; auto.
      * intros Ho. subst m1. apply mintAfter_done, Ho.
      * intros s Hs. subst m1. apply mintAfter_keeps, Hs.
      * discriminate.
      * intros Hs Ho _. subst m1.
        destruct (mintAfter_fresh _ _ Hs Ho Ha) as [E1 E2].
        exists (firstn 256 (entropy w0)), pre0, (skipn 256 (entropy w0)).
        repeat split; auto. rewrite Hpre0. now rewrite firstn_skipn.
Qed.

Lemma run_app (cs1 cs2 : list call) (m : Mint) (w : world) :
  run (cs1 ++ cs2) m w
  = match run cs1 m w with
    | Returns rs1 m1 w1 =>
        match run cs2 m1 w1 with
        | Returns rs2 m2 w2 => Returns (rs1 ++ rs2) m2 w2
        | Panics v => Panics v
        end
    | Panics v => Panics v
    end.
Proof.
  revert m w. induction cs1 as [|c cs1 IH]; intros m w.
  - cbn. destruct (run cs2 m w); reflexivity.
  - cbn [app run]. unfold bind.
    destruct (perform c m w) as [r m1 w1|v]; [|reflexivity].
    rewrite IH. destruct (run cs1 m1 w1) as [rs1 m2 w2|v]; [|reflexivity].
    unfold ret. cbv beta iota.
    destruct (run cs2 m2 w2); reflexivity.
Qed.

(** C7.  Over any sequence of [Sign], [Generate], [Verify] and
    [VerifyString] calls on one mint that runs to its end: every key
    handed to [hmac.New] is the secret the mint holds at the end; a secret
    the mint had at the start, or at any point of the sequence, is the
    one it has at the end; and for a mint created without a secret
    either no call computed a signature and the mint is untouched, or the
    mint holds a secret of 256 bytes that are consecutive bytes of the
    random source. *)
Theorem secret_established_once_and_fixed
        (cs : list call) (m : Mint) (w : world) rs (m' : Mint) (w' : world) :
  run cs m w = Returns rs m' w' ->
  (exists n : nat, macKeys w' = macKeys w ++ repeat (secretOf m') n
     /\ (m = zeroMint ->
         (n = 0%nat /\ m' = zeroMint)
         \/ (exists s pre post,
                m' = mkMint (Some s) true /\ length s = 256%nat
                /\ entropy w = pre ++ s ++ post)))
  /\ (forall s, secret m = Some s -> secret m' = Some s)
  /\ (forall cs1 cs2 rs1 m1 w1 s,
         cs = cs1 ++ cs2 ->
         run cs1 m w = Returns rs1 m1 w1 ->
         secret m1 = Some s -> secret m' = Some s).
Proof.
  intros Hr.
  destruct (run_inv _ _ _ _ _ _ Hr) as (n & Hk & Honce & Hkeep & Hn0 & Hn1 & Hpre & Hfresh).
  split; [|split].
  - exists n. split; [exact Hk|]. intros ->.
    destruct (Nat.eq_dec n 0) as [E|E].
    + left. auto.
    + right. apply Hfresh; auto.
  - exact Hkeep.
  - intros cs1 cs2 rs1 m1 w1 s -> H1 Hs.
    rewrite run_app, H1 in Hr.
    destruct (run cs2 m1 w1) as [rs2 m2 w2|v] eqn:H2; [|discriminate].
    inversion Hr; subst.
    destruct (run_inv _ _ _ _ _ _ H2) as (_ & _ & _ & Hkeep2 & _). auto.
Qed.

(** C10.  [NewMint(nil)] is the zero-value mint: its first signing
    operation takes the first 256 bytes the random source gives as the
    secret (and panics if the source fails).  [NewMint] of a non-nil
    secret, empty or not, signs with exactly that secret without reading
    the random source, and over any sequence of calls keeps it and hands
    no other key to [hmac.New]. *)
Theorem NewMint_nil_is_lazy_and_explicit_secret_is_kept :
  NewMint None = zeroMint
  /\ (forall (w : world) data e,
         (256 <= length (entropy w))%nat ->
         let s := firstn 256 (entropy w) in
         length s = 256%nat
         /\ Sign data e (NewMint None) w
            = Returns (mkToken data e (MAC s data e), None)
                      (mkMint (Some s) true)
                      (mkWorld (skipn 256 (entropy w)) (macKeys w ++ [s])))
  /\ (forall (w : world) data e,
         (length (entropy w) < 256)%nat ->
         exists v, Sign data e (NewMint None) w = Panics v)
  /\ (forall (k : bytes) (w : world) data e,
         Sign data e (NewMint (Some k)) w
         = Returns (mkToken data e (MAC k data e), None)
                   (mkMint (Some k) true)
                   (mkWorld (entropy w) (macKeys w ++ [k])))
  /\ (forall (k : bytes) (cs : list call) (w : world) rs m' w',
         run cs (NewMint (Some k)) w = Returns rs m' w' ->
         secret m' = Some k
         /\ exists n : nat, macKeys w' = macKeys w ++ repeat k n).
Proof.
  split; [reflexivity|]. split; [|split; [|split]].
  - intros w data e Hlen s. split; [apply firstn_length_le, Hlen|].
    rewrite Sign_returns by (right; right; exact Hlen). reflexivity.
  - intros w data e Hlen. apply Sign_panics.
    intros [H|[H|H]]; cbn in H; try discriminate; try congruence. lia.
  - intros k w data e.
    rewrite Sign_returns by (right; left; discriminate). reflexivity.
  - intros k cs w rs m' w' Hr.
    destruct (run_inv _ _ _ _ _ _ Hr) as (n & Hk & _ & Hkeep & _).
    assert (Hs : secret m' = Some k) by (apply Hkeep; reflexivity).
    split; [exact Hs|]. exists n. rewrite Hk. unfold secretOf. rewrite Hs.
    reflexivity.
Qed.

End SecretLifetime.

(** ** Checking a finite range by computation *)

Section Ranges.

Import Spec.

Lemma all_from_spec (P : Z -> bool) (n : nat) (i : Z) :
  all_from n i P = true ->
  forall x, i <= x < i + Z.of_nat n -> P x = true.
Proof.
  revert i. induction n as [|n IH]; intros i H x Hx.
  - cbn in Hx. lia.
  - cbn [all_from] in H. apply andb_true_iff in H. destruct H as [Hi Hrest].
    destruct (Z.eq_dec x i) as [->|Hne]; [assumption|].
    apply (IH (i + 1) Hrest). lia.
Qed.

Lemma bytes_eqb_eq (a b : bytes) : bytes_eqb a b = true -> a = b.
Proof.
  unfold bytes_eqb. destruct (list_eq_dec Byte.byte_eq_dec a b); congruence.
Qed.

Lemma div_bounds (a b : Z) : 0 < b -> b * (a / b) <= a < b * (a / b) + b.
Proof.
  intros Hb. split.
  - apply Z.mul_div_le. lia.
  - pose proof (Z.mul_succ_div_gt a b Hb). lia.
Qed.

End Ranges.

(** Names the quotient [a / b] as [q], keeping its bounds. *)
Ltac name_div a b q :=
  let H := fresh "Hdiv" in
  pose proof (div_bounds a b ltac:(lia)) as H;
  let E := fresh "E" in
  remember (a / b) as q eqn:E; clear E.

(** ** base64 *)

Section Base64Facts.

Import Spec.

Lemma decodeMap_encode (i : Z) :
  0 <= i < 64 -> Base64.decodeMap (Base64.encode i) = i.
Proof.
  intros Hi. apply Z.eqb_eq.
  apply (all_from_spec (fun i => Base64.decodeMap (Base64.encode i) =? i) 64 0);
    [vm_compute; reflexivity|lia].
Qed.

Lemma encode_alphabet (i : Z) :
  0 <= i < 64 -> isAlphabet (Base64.encode i) = true.
Proof.
  intros Hi.
  apply (all_from_spec (fun i => isAlphabet (Base64.encode i)) 64 0);
    [vm_compute; reflexivity|lia].
Qed.

Lemma isAlphabet_decodeMap (c : byte) :
  isAlphabet c = negb (Base64.decodeMap c =? 0xFF)
  /\ (isAlphabet c = true -> 0 <= Base64.decodeMap c < 64
                              /\ Base64.encode (Base64.decodeMap c) = c
                              /\ Base64.is_newline c = false
                              /\ c <> "."%byte).
Proof.
  destruct c; vm_compute; (split; [reflexivity|]);
    intros H; try discriminate H; repeat split; congruence.
Qed.

Lemma sextet_div (x k : Z) : 0 <= k ->
  Z.land (Z.shiftr x k) 0x3F = (x / 2 ^ k) mod 64.
Proof.
  intros Hk. change 0x3F with (Z.ones 6). rewrite Z.land_ones by lia.
  rewrite Z.shiftr_div_pow2 by lia. reflexivity.
Qed.

Lemma lor_mul (hi lo k : Z) :
  0 <= k -> 0 <= lo < 2 ^ k -> Z.lor (hi * 2 ^ k) lo = hi * 2 ^ k + lo.
Proof.
  intros Hk Hlo. rewrite <- (lor_shiftl hi lo k) by assumption.
  rewrite Z.shiftl_mul_pow2 by lia. reflexivity.
Qed.

Lemma byte_of_Z_eq (x : Z) (b : byte) : x mod 256 = Z_of_byte b -> byte_of_Z x = b.
Proof.
  intros H. rewrite <- byte_of_Z_mod, H. apply byte_of_Z_of_byte.
Qed.

(** The 24-bit value of three bytes. *)
Lemma pack3 (a b c : Z) :
  0 <= a < 256 -> 0 <= b < 256 -> 0 <= c < 256 ->
  Z.lor (Z.lor (Z.shiftl a 16) (Z.shiftl b 8)) c = a * 65536 + b * 256 + c.
Proof.
  intros Ha Hb Hc.
  rewrite (lor_shiftl a (Z.shiftl b 8) 16);
    rewrite ?Z.shiftl_mul_pow2 by lia; change (2 ^ 8) with 256;
    change (2 ^ 16) with 65536; try lia.
  replace (a * 65536 + b * 256) with ((a * 256 + b) * 2 ^ 8) by lia.
  rewrite lor_mul by (change (2 ^ 8) with 256; lia). lia.
Qed.

(** The 24-bit value of four six-bit values. *)
Lemma pack4 (s0 s1 s2 s3 : Z) :
  0 <= s0 < 64 -> 0 <= s1 < 64 -> 0 <= s2 < 64 -> 0 <= s3 < 64 ->
  Z.lor (Z.lor (Z.lor (Z.shiftl s0 18) (Z.shiftl s1 12)) (Z.shiftl s2 6)) s3
  = s0 * 262144 + s1 * 4096 + s2 * 64 + s3.
Proof.
  intros H0 H1 H2 H3.
  rewrite (lor_shiftl s0 (Z.shiftl s1 12) 18);
    rewrite ?Z.shiftl_mul_pow2 by lia;
    change (2 ^ 18) with 262144; change (2 ^ 12) with 4096;
    change (2 ^ 6) with 64; try lia.
  replace (s0 * 262144 + s1 * 4096) with ((s0 * 64 + s1) * 2 ^ 12) by lia.
  rewrite lor_mul by (change (2 ^ 12) with 4096; lia).
  replace ((s0 * 64 + s1) * 2 ^ 12 + s2 * 64)
    with (((s0 * 64 + s1) * 64 + s2) * 2 ^ 6) by lia.
  rewrite lor_mul by (change (2 ^ 6) with 64; lia). lia.
Qed.

Ltac quantum_bytes :=
  unfold Base64.quantum; cbn [nth length firstn Nat.sub];
  rewrite pack4 by (try apply Z.mod_pos_bound; lia);
  rewrite !Z.shiftr_div_pow2 by lia;
  change (2 ^ 16) with 65536; change (2 ^ 8) with 256;
  repeat (f_equal; try (apply byte_of_Z_eq; Z.to_euclidean_division_equations; lia)).

(** The six-bit values of three bytes, of two and of one give the bytes
    back. *)
Lemma quantum3 (a b c : byte) :
  let v := Z_of_byte a * 65536 + Z_of_byte b * 256 + Z_of_byte c in
  Base64.quantum [ (v / 262144) mod 64; (v / 4096) mod 64; (v / 64) mod 64; v mod 64 ]
  = [a; b; c].
Proof.
  intros v. subst v.
  pose proof (Z_of_byte_range a). pose proof (Z_of_byte_range b).
  pose proof (Z_of_byte_range c).
  quantum_bytes.
Qed.

Lemma quantum2 (a b : byte) :
  let v := Z_of_byte a * 65536 + Z_of_byte b * 256 in
  Base64.quantum [ (v / 262144) mod 64; (v / 4096) mod 64; (v / 64) mod 64 ]
  = [a; b].
Proof.
  intros v. subst v.
  pose proof (Z_of_byte_range a). pose proof (Z_of_byte_range b).
  quantum_bytes.
Qed.

Lemma quantum1 (a : byte) :
  let v := Z_of_byte a * 65536 in
  Base64.quantum [ (v / 262144) mod 64; (v / 4096) mod 64 ] = [a].
Proof.
  intros v. subst v.
  pose proof (Z_of_byte_range a).
  quantum_bytes.
Qed.

End Base64Facts.

Section Base64RoundTrip.

Import Spec.

Lemma list_ind3 (P : bytes -> Prop) :
  P [] -> (forall a, P [a]) -> (forall a b, P [a; b]) ->
  (forall a b c l, P l -> P (a :: b :: c :: l)) ->
  forall l, P l.
Proof.
  intros H0 H1 H2 H3.
  fix IH 1. intros [|a [|b [|c l]]];
    [exact H0|apply H1|apply H2|apply H3, IH].
Qed.

Lemma EncodeToString_3 (a b c : byte) (rest : bytes) :
  let v := Z_of_byte a * 65536 + Z_of_byte b * 256 + Z_of_byte c in
  Base64.EncodeToString (a :: b :: c :: rest)
  = Base64.encode ((v / 262144) mod 64) :: Base64.encode ((v / 4096) mod 64)
    :: Base64.encode ((v / 64) mod 64) :: Base64.encode (v mod 64)
    :: Base64.EncodeToString rest.
Proof.
  intros v. cbn [Base64.EncodeToString].
  pose proof (Z_of_byte_range a). pose proof (Z_of_byte_range b).
  pose proof (Z_of_byte_range c).
  rewrite pack3 by assumption. fold v.
  rewrite !sextet_div by lia.
  change 0x3F with (Z.ones 6). rewrite Z.land_ones by lia.
  reflexivity.
Qed.

Lemma EncodeToString_2 (a b : byte) :
  let v := Z_of_byte a * 65536 + Z_of_byte b * 256 in
  Base64.EncodeToString [a; b]
  = [ Base64.encode ((v / 262144) mod 64); Base64.encode ((v / 4096) mod 64);
      Base64.encode ((v / 64) mod 64) ].
Proof.
  intros v. cbn [Base64.EncodeToString].
  pose proof (Z_of_byte_range a). pose proof (Z_of_byte_range b).
  rewrite (lor_shiftl (Z_of_byte a) (Z.shiftl (Z_of_byte b) 8) 16);
    rewrite ?Z.shiftl_mul_pow2 by lia; change (2 ^ 8) with 256;
    change (2 ^ 16) with 65536; try lia.
  fold v. rewrite !sextet_div by lia. reflexivity.
Qed.

Lemma EncodeToString_1 (a : byte) :
  let v := Z_of_byte a * 65536 in
  Base64.EncodeToString [a]
  = [ Base64.encode ((v / 262144) mod 64); Base64.encode ((v / 4096) mod 64) ].
Proof.
  intros v. cbn [Base64.EncodeToString].
  rewrite Z.shiftl_mul_pow2 by lia. change (2 ^ 16) with 65536.
  fold v. rewrite !sextet_div by lia. reflexivity.
Qed.

Lemma mod64_range (x : Z) : 0 <= x mod 64 < 64.
Proof. apply Z.mod_pos_bound. lia. Qed.

(** The decoder on a byte of the alphabet. *)
Lemma decode_alphabet (c : byte) (rest : bytes) (dbuf : list Z) :
  isAlphabet c = true ->
  Base64.decode (c :: rest) dbuf
  = if Nat.eqb (length (dbuf ++ [Base64.decodeMap c])) 4
    then option_map (app (Base64.quantum (dbuf ++ [Base64.decodeMap c])))
                    (Base64.decode rest [])
    else Base64.decode rest (dbuf ++ [Base64.decodeMap c]).
Proof.
  intros H. cbn [Base64.decode].
  destruct (isAlphabet_decodeMap c) as [E _]. rewrite H in E.
  rewrite <- E. reflexivity.
Qed.

Lemma decode_encode (i : Z) (rest : bytes) (dbuf : list Z) :
  0 <= i < 64 ->
  Base64.decode (Base64.encode i :: rest) dbuf
  = if Nat.eqb (length (dbuf ++ [i])) 4
    then option_map (app (Base64.quantum (dbuf ++ [i]))) (Base64.decode rest [])
    else Base64.decode rest (dbuf ++ [i]).
Proof.
  intros Hi. rewrite decode_alphabet by (apply encode_alphabet, Hi).
  rewrite decodeMap_encode by assumption. reflexivity.
Qed.

(** Decoding an encoding gives the bytes back. *)
Lemma DecodeString_EncodeToString (src : bytes) :
  Base64.DecodeString (Base64.EncodeToString src) = Some src.
Proof.
  unfold Base64.DecodeString.
  induction src as [|a|a b|a b c l IH] using list_ind3.
  - reflexivity.
  - rewrite EncodeToString_1. cbv zeta.
    rewrite !decode_encode by apply mod64_range. cbn [app length Nat.eqb].
    cbn [Base64.decode]. now rewrite quantum1.
  - rewrite EncodeToString_2. cbv zeta.
    rewrite !decode_encode by apply mod64_range. cbn [app length Nat.eqb].
    cbn [Base64.decode]. now rewrite quantum2.
  - rewrite EncodeToString_3. cbv zeta.
    rewrite !decode_encode by apply mod64_range. cbn [app length Nat.eqb].
    rewrite IH, quantum3. reflexivity.
Qed.

(** An encoding consists of bytes of the alphabet. *)
Lemma EncodeToString_alphabet (src : bytes) :
  Forall (fun c => isAlphabet c = true) (Base64.EncodeToString src).
Proof.
  induction src as [|a|a b|a b c l IH] using list_ind3.
  - constructor.
  - rewrite EncodeToString_1. cbv zeta.
    repeat constructor; apply encode_alphabet, mod64_range.
  - rewrite EncodeToString_2. cbv zeta.
    repeat constructor; apply encode_alphabet, mod64_range.
  - rewrite EncodeToString_3. cbv zeta.
    repeat (constructor; [apply encode_alphabet, mod64_range|]). exact IH.
Qed.

(** An encoding has four bytes for every three of the source, and two or
    three for a final one or two: no padding. *)
Lemma EncodeToString_length (src : bytes) :
  length (Base64.EncodeToString src) = ((4 * length src + 2) / 3)%nat.
Proof.
  induction src as [|a|a b|a b c l IH] using list_ind3.
  - reflexivity.
  - reflexivity.
  - reflexivity.
  - rewrite EncodeToString_3. cbv zeta. cbn [length]. rewrite IH.
    replace (4 * S (S (S (length l))) + 2)%nat
      with ((4 * length l + 2) + 4 * 3)%nat by lia.
    rewrite Nat.div_add by lia. lia.
Qed.

Lemma alphabet_not_sep (s : bytes) :
  Forall (fun c => isAlphabet c = true) s -> ~ In "."%byte s.
Proof.
  intros H Hin. rewrite Forall_forall in H. specialize (H _ Hin).
  discriminate H.
Qed.

(** What the decoder accepts: bytes of the alphabet and line breaks, the
    number of bytes of the alphabet not being 1 modulo 4. *)
Lemma decode_accepts (s : bytes) :
  forall dbuf : list Z,
    (length dbuf < 4)%nat ->
    (Base64.decode s dbuf <> None
     <-> Forall (fun c => isAlphabet c = true \/ Base64.is_newline c = true) s
         /\ ((length dbuf + length (filter isAlphabet s)) mod 4 <> 1)%nat).
Proof.
  induction s as [|c s IH]; intros dbuf Hlen.
  - cbn [Base64.decode filter length]. rewrite Nat.add_0_r.
    destruct dbuf as [|x [|y [|z [|u dbuf]]]]; cbn [length] in *; try lia;
      cbn; split; try (intros _; split; [constructor|discriminate]);
      try congruence; intros [_ H]; congruence.
  - destruct (isAlphabet c) eqn:Ec.
    + rewrite decode_alphabet by assumption.
      cbn [filter]. rewrite Ec. cbn [length].
      rewrite length_app. cbn [length].
      destruct (Nat.eqb_spec (length dbuf + 1) 4) as [E4|E4].
      * destruct (Base64.decode s []) eqn:Ed.
        -- cbn [option_map].
           assert (Hd : Base64.decode s [] <> None) by congruence.
           apply (IH [] ltac:(cbn; lia)) in Hd. destruct Hd as [Hf Hm].
           cbn [length] in Hm. split; [|discriminate]. intros _. split.
           ++ constructor; auto.
           ++ replace (length dbuf + S (length (filter isAlphabet s)))%nat
                with (length (filter isAlphabet s) + 1 * 4)%nat by lia.
              rewrite Nat.Div0.mod_add. exact Hm.
        -- cbn [option_map]. split; [intros Hn; exfalso; now apply Hn|]. intros [Hf Hm].
           exfalso. inversion Hf; subst.
           assert (Hd : Base64.decode s [] <> None).
           { apply (IH [] ltac:(cbn; lia)). split; [assumption|].
             cbn [length].
             replace (length dbuf + S (length (filter isAlphabet s)))%nat
               with (length (filter isAlphabet s) + 1 * 4)%nat in Hm by lia.
             rewrite Nat.Div0.mod_add in Hm. exact Hm. }
           congruence.
      * rewrite (IH (dbuf ++ [Base64.decodeMap c]))
          by (rewrite length_app; cbn [length]; lia).
        rewrite length_app. cbn [length].
        replace (length dbuf + 1 + length (filter isAlphabet s))%nat
          with (length dbuf + S (length (filter isAlphabet s)))%nat by lia.
        split; intros [Hf Hm]; split; auto.
        inversion Hf; assumption.
    + cbn [Base64.decode filter]. rewrite Ec.
      destruct (isAlphabet_decodeMap c) as [E _]. rewrite Ec in E.
      rewrite <- E.
      destruct (Base64.is_newline c) eqn:En.
      * rewrite (IH dbuf Hlen). split; intros [Hf Hm]; split; auto.
        inversion Hf; assumption.
      * split; [intros Hn; exfalso; now apply Hn|]. intros [Hf _]. inversion Hf; subst.
        destruct H1; congruence.
Qed.

Lemma DecodeString_accepts (s : bytes) :
  Base64.DecodeString s <> None
  <-> Forall (fun c => isAlphabet c = true \/ Base64.is_newline c = true) s
      /\ (length (filter isAlphabet s) mod 4 <> 1)%nat.
Proof.
  unfold Base64.DecodeString. rewrite decode_accepts by (cbn; lia). reflexivity.
Qed.

End Base64RoundTrip.

(** ** strings.Split *)

Section SplitFacts.

Lemma Split_nonempty (s : bytes) (sep : byte) : Strings.Split s sep <> [].
Proof.
  induction s as [|c s IH]; cbn; [discriminate|].
  destruct (byte_eqb c sep); [discriminate|].
  destruct (Strings.Split s sep); [contradiction|discriminate].
Qed.

Lemma Split_no_sep (s : bytes) (sep : byte) :
  ~ In sep s -> Strings.Split s sep = [s].
Proof.
  induction s as [|c s IH]; intros H; [reflexivity|].
  cbn [Strings.Split].
  destruct (byte_eqb c sep) eqn:E.
  - apply byte_eqb_eq in E. subst. exfalso. apply H. now left.
  - rewrite IH; [reflexivity|]. intros Hin. apply H. now right.
Qed.

Lemma Split_app (a rest : bytes) (sep : byte) :
  ~ In sep a ->
  Strings.Split (a ++ sep :: rest) sep = a :: Strings.Split rest sep.
Proof.
  induction a as [|c a IH]; intros H.
  - cbn [app Strings.Split]. now rewrite byte_eqb_refl.
  - cbn [app Strings.Split].
    destruct (byte_eqb c sep) eqn:E.
    + apply byte_eqb_eq in E. subst. exfalso. apply H. now left.
    + rewrite IH; [reflexivity|]. intros Hin. apply H. now right.
Qed.

(** The number of pieces is one more than the number of separators. *)
Lemma Split_length (s : bytes) (sep : byte) :
  length (Strings.Split s sep) = S (count_occ Byte.byte_eq_dec s sep).
Proof.
  induction s as [|c s IH]; [reflexivity|].
  cbn [Strings.Split count_occ].
  destruct (Byte.byte_eq_dec c sep) as [->|Hne].
  - rewrite byte_eqb_refl. cbn [length]. now rewrite IH.
  - apply byte_eqb_neq in Hne. rewrite Hne.
    destruct (Strings.Split s sep) as [|p ps] eqn:E.
    + exfalso. now apply (Split_nonempty s sep).
    + cbn [length] in *. exact IH.
Qed.

Lemma Split_three (a b c : bytes) (sep : byte) :
  ~ In sep a -> ~ In sep b -> ~ In sep c ->
  Strings.Split (a ++ [sep] ++ b ++ [sep] ++ c) sep = [a; b; c].
Proof.
  intros Ha Hb Hc. cbn [app].
  rewrite Split_app by assumption.
  rewrite Split_app by assumption.
  rewrite Split_no_sep by assumption. reflexivity.
Qed.

End SplitFacts.

(** ** The calendar *)

Section Calendar.

Import Spec.

Lemma isLeap_mod (y : Z) :
  Time.isLeap y = (y mod 4 =? 0) && (negb (y mod 100 =? 0) || (y mod 400 =? 0)).
Proof.
  unfold Time.isLeap.
  assert (H : forall b, b <> 0 -> (Z.rem y b =? 0) = (y mod b =? 0)).
  { intros b Hb.
    destruct (Z.eqb_spec (Z.rem y b) 0) as [E|E],
             (Z.eqb_spec (y mod b) 0) as [E'|E']; try reflexivity.
    - apply Z.rem_mod_eq_0 in E; [contradiction|assumption].
    - apply Z.rem_mod_eq_0 in E'; [contradiction|assumption]. }
  rewrite !H by lia. reflexivity.
Qed.

(** The year and the day within it: the days up to the year and the day
    within it add up to the day count, and the day is within the year. *)
Lemma absYearDay_spec (abs : Z) :
  let (year, yday) := Time.absYearDay abs in
  Time.daysSinceEpoch year + yday = abs / Time.secondsPerDay
  /\ 0 <= yday < 365 + (if Time.isLeap year then 1 else 0).
Proof.
  unfold Time.absYearDay, Time.daysSinceEpoch, Time.secondsPerDay,
    Time.daysPer400Years, Time.daysPer100Years, Time.daysPer4Years.
  set (d := abs / 86400). clearbody d.
  rewrite isLeap_mod.
  rewrite !Z.shiftr_div_pow2 by lia. change (2 ^ 2) with 4.
  cbv zeta.
  name_div d 146097 n0.
  name_div (d - 146097 * n0) 36524 q1.
  name_div q1 4 s1.
  name_div (d - 146097 * n0 - 36524 * (q1 - s1)) 1461 n2.
  name_div (d - 146097 * n0 - 36524 * (q1 - s1) - 1461 * n2) 365 q3.
  name_div q3 4 s3.
  set (y := 400 * n0 + 100 * (q1 - s1) + 4 * n2 + (q3 - s3)).
  replace (y + 1 - 1) with y by lia.
  assert (Hy : y = 400 * n0 + 100 * (q1 - s1) + 4 * n2 + (q3 - s3)) by reflexivity.
  clearbody y.
  name_div y 400 a0.
  name_div (y - 400 * a0) 100 a1.
  name_div (y - 400 * a0 - 100 * a1) 4 a2.
  assert (a0 = n0 /\ a1 = q1 - s1 /\ a2 = n2) as (-> & -> & ->) by lia.
  split; [lia|].
  rewrite !Z.mod_eq by lia.
  name_div (y + 1) 4 l4. name_div (y + 1) 100 l100. name_div (y + 1) 400 l400.
  destruct (Z.eqb_spec (y + 1 - 4 * l4) 0), (Z.eqb_spec (y + 1 - 100 * l100) 0),
    (Z.eqb_spec (y + 1 - 400 * l400) 0); cbn [negb andb orb]; lia.
Qed.

(** Month and day of the month from the day within the year. *)
Lemma monthDay_spec (leap : bool) (yday : Z) :
  0 <= yday < 365 + (if leap then 1 else 0) ->
  let (month, day) := Time.monthDay leap yday in
  1 <= month <= 12
  /\ 1 <= day <= (if (month =? 2) && leap then 29
                  else Time.daysBefore month - Time.daysBefore (month - 1))
  /\ Time.daysBefore (month - 1) + (if leap && (month >=? 3) then 1 else 0)
     + (day - 1) = yday.
Proof.
  intros Hy.
  assert (H : (let (month, day) := Time.monthDay leap yday in
               (1 <=? month) && (month <=? 12) && (1 <=? day)
               && (day <=? (if (month =? 2) && leap then 29
                            else Time.daysBefore month - Time.daysBefore (month - 1)))
               && (Time.daysBefore (month - 1)
                   + (if leap && (month >=? 3) then 1 else 0) + (day - 1) =? yday))
              = true).
  { destruct leap.
    - apply (all_from_spec
               (fun yday => let (month, day) := Time.monthDay true yday in
                  (1 <=? month) && (month <=? 12) && (1 <=? day)
                  && (day <=? (if (month =? 2) && true then 29
                               else Time.daysBefore month - Time.daysBefore (month - 1)))
                  && (Time.daysBefore (month - 1)
                      + (if true && (month >=? 3) then 1 else 0) + (day - 1) =? yday))
               366 0); [vm_compute; reflexivity|lia].
    - apply (all_from_spec
               (fun yday => let (month, day) := Time.monthDay false yday in
                  (1 <=? month) && (month <=? 12) && (1 <=? day)
                  && (day <=? (if (month =? 2) && false then 29
                               else Time.daysBefore month - Time.daysBefore (month - 1)))
                  && (Time.daysBefore (month - 1)
                      + (if false && (month >=? 3) then 1 else 0) + (day - 1) =? yday))
               365 0); [vm_compute; reflexivity|lia]. }
  destruct (Time.monthDay leap yday) as [month day].
  rewrite !andb_true_iff in H. destruct H as ((((H1 & H2) & H3) & H4) & H5).
  apply Z.leb_le in H1, H2, H3, H4. apply Z.eqb_eq in H5. lia.
Qed.

(** Hour, minute and second within the day. *)
Lemma absClock_spec (abs : Z) :
  let '(hour, min, sec) := Time.absClock abs in
  0 <= hour < 24 /\ 0 <= min < 60 /\ 0 <= sec < 60
  /\ hour * 3600 + min * 60 + sec = abs mod 86400.
Proof.
  unfold Time.absClock, Time.secondsPerDay, Time.secondsPerHour, Time.secondsPerMinute.
  pose proof (Z.mod_pos_bound abs 86400 ltac:(lia)) as Hm.
  set (s := abs mod 86400) in *. clearbody s.
  name_div s 3600 h. name_div (s - h * 3600) 60 mi. lia.
Qed.

(** The calendar date of an absolute time. *)
Lemma absDate_spec (abs : Z) :
  let '(year, month, day) := Time.absDate abs in
  1 <= month <= 12
  /\ 1 <= day <= Time.daysIn month year
  /\ Time.daysSinceEpoch year + Time.daysBefore (month - 1)
     + (if Time.isLeap year && (month >=? 3) then 1 else 0) + (day - 1)
     = abs / 86400.
Proof.
  unfold Time.absDate.
  pose proof (absYearDay_spec abs) as Hy.
  destruct (Time.absYearDay abs) as [year yday]. destruct Hy as [Hd Hr].
  pose proof (monthDay_spec (Time.isLeap year) yday Hr) as Hm.
  destruct (Time.monthDay (Time.isLeap year) yday) as [month day].
  destruct Hm as (H1 & H2 & H3). unfold Time.daysIn.
  change Time.secondsPerDay with 86400 in Hd.
  repeat split; try lia.
Qed.

(** [Date] of the calendar date and clock of an absolute time is the
    instant with that reading. *)
Lemma Date_of_reading (abs : Z) (l : Time.Location) :
  let '(year, month, day) := Time.absDate abs in
  let '(hour, min, sec) := Time.absClock abs in
  Time.Date year month day hour min sec 0 l
  = Time.mkTime (abs - Time.unixToInternal
                 - Time.dateOffset l (abs - Time.unixToInternal)) 0 l.
Proof.
  pose proof (absDate_spec abs) as Hd. pose proof (absClock_spec abs) as Hc.
  destruct (Time.absDate abs) as [[year month] day].
  destruct (Time.absClock abs) as [[hour min] sec].
  destruct Hd as (Hm & Hday & Hdays). destruct Hc as (Hh & Hmi & Hs & Hclock).
  unfold Time.Date, Time.norm.
  rewrite (Z.div_small (month - 1) 12), (Z.mod_small (month - 1) 12) by lia.
  rewrite (Z.div_small 0 1000000000), (Z.mod_small 0 1000000000) by lia.
  rewrite !Z.add_0_r.
  rewrite (Z.div_small sec 60), (Z.mod_small sec 60) by lia. rewrite !Z.add_0_r.
  rewrite (Z.div_small min 60), (Z.mod_small min 60) by lia. rewrite !Z.add_0_r.
  rewrite (Z.div_small hour 24), (Z.mod_small hour 24) by lia.
  rewrite !Z.add_0_r.
  replace (month - 1 + 1) with month by lia.
  unfold Time.secondsPerDay, Time.secondsPerHour, Time.secondsPerMinute.
  assert (E : (if Time.isLeap year && (month >=? 3)
               then Time.daysSinceEpoch year + Time.daysBefore (month - 1) + 1
               else Time.daysSinceEpoch year + Time.daysBefore (month - 1))
              = Time.daysSinceEpoch year + Time.daysBefore (month - 1)
                + (if Time.isLeap year && (month >=? 3) then 1 else 0)).
  { destruct (Time.isLeap year && (month >=? 3)); lia. }
  rewrite E, Hdays.
  replace (abs / 86400 * 86400 + (hour * 3600 + min * 60 + sec)) with abs.
  - reflexivity.
  - rewrite Hclock. pose proof (Z.div_mod abs 86400 ltac:(lia)). lia.
Qed.

(** A location without transitions has one offset. *)
Lemma lookup_fixed (o sec : Z) :
  Time.lookup (Time.FixedZone o) sec = (o, Time.alpha, Time.omega).
Proof. reflexivity. Qed.

Lemma dateOffset_fixed (o sec : Z) : Time.dateOffset (Time.FixedZone o) sec = o.
Proof.
  unfold Time.dateOffset. rewrite lookup_fixed.
  destruct (negb (o =? 0)); [|reflexivity].
  destruct ((sec - o <? Time.alpha) || (sec - o >=? Time.omega)); reflexivity.
Qed.

Lemma unambiguous_fixed (o : Z) (t : Time.Time) :
  unambiguous (Time.FixedZone o) t.
Proof.
  unfold unambiguous, offsetAt. rewrite dateOffset_fixed, lookup_fixed.
  reflexivity.
Qed.

End Calendar.

(** ** Formatting and parsing the timestamp *)

Section Timestamp.

Import Spec.

Lemma Z_of_digit (d : Z) : 0 <= d <= 9 -> Z_of_byte (digit d) = 48 + d.
Proof.
  intros Hd. unfold digit. rewrite Z_of_byte_of_Z.
  change (Z_of_byte "0"%byte) with 48. apply Z.mod_small. lia.
Qed.

Lemma isDigitByte_iff (c : byte) :
  Time.isDigitByte c = true <-> 48 <= Z_of_byte c <= 57.
Proof.
  unfold Time.isDigitByte.
  change (Z_of_byte "0"%byte) with 48. change (Z_of_byte "9"%byte) with 57.
  rewrite andb_true_iff, !Z.leb_le. reflexivity.
Qed.

Lemma digit_isDigit (d : Z) : 0 <= d <= 9 -> Time.isDigitByte (digit d) = true.
Proof. intros Hd. apply isDigitByte_iff. rewrite Z_of_digit by lia. lia. Qed.

Lemma digitVal_digit (d : Z) : 0 <= d <= 9 -> Time.digitVal (digit d) = d.
Proof.
  intros Hd. unfold Time.digitVal. rewrite Z_of_digit by lia.
  change (Z_of_byte "0"%byte) with 48. lia.
Qed.

Lemma isDigitByte_digit (c : byte) :
  Time.isDigitByte c = true ->
  0 <= Time.digitVal c <= 9 /\ digit (Time.digitVal c) = c.
Proof.
  intros H. apply isDigitByte_iff in H. unfold Time.digitVal, digit.
  change (Z_of_byte "0"%byte) with 48. split; [lia|].
  replace (48 + (Z_of_byte c - 48)) with (Z_of_byte c) by lia.
  apply byte_of_Z_of_byte.
Qed.

Lemma isDigitByte_not_special (c : byte) :
  Time.isDigitByte c = true ->
  byte_eqb c "-"%byte = false /\ byte_eqb c "+"%byte = false
  /\ Time.commaOrPeriod c = false /\ c <> "."%byte.
Proof.
  intros H. apply isDigitByte_iff in H.
  assert (Hne : forall b : byte, Z_of_byte b < 48 -> byte_eqb c b = false).
  { intros b Hb. apply byte_eqb_neq. intros ->. lia. }
  unfold Time.commaOrPeriod.
  rewrite !Hne by (vm_compute; reflexivity).
  repeat split. intros ->. vm_compute in H. destruct H as [H _]. now apply H.
Qed.

Lemma digits2_digits (x : Z) :
  Forall (fun c => Time.isDigitByte c = true) (digits2 x).
Proof.
  unfold digits2.
  repeat constructor; apply digit_isDigit;
    match goal with |- 0 <= ?a mod 10 <= 9 =>
      pose proof (Z.mod_pos_bound a 10 ltac:(lia)); lia end.
Qed.

Lemma digits4_digits (x : Z) :
  Forall (fun c => Time.isDigitByte c = true) (digits4 x).
Proof.
  unfold digits4.
  repeat constructor; apply digit_isDigit;
    match goal with |- 0 <= ?a mod 10 <= 9 =>
      pose proof (Z.mod_pos_bound a 10 ltac:(lia)); lia end.
Qed.

(** [appendInt] for the widths and ranges of the layout. *)
Lemma appendInt_2 (x : Z) : 0 <= x < 100 -> Time.appendInt x 2 = digits2 x.
Proof.
  intros Hx. apply bytes_eqb_eq.
  apply (all_from_spec (fun x => bytes_eqb (Time.appendInt x 2) (digits2 x)) 100 0);
    [vm_compute; reflexivity|lia].
Qed.

Lemma appendInt_4 (x : Z) : 0 <= x < 10000 -> Time.appendInt x 4 = digits4 x.
Proof.
  intros Hx. apply bytes_eqb_eq.
  apply (all_from_spec (fun x => bytes_eqb (Time.appendInt x 4) (digits4 x))
                       (Z.to_nat 10000) 0);
    [vm_compute; reflexivity|rewrite Z2Nat.id by lia; lia].
Qed.

(** [Format] with the layout of the package: the fields of the reading
    in the instant's own location, each rendered by [appendInt]. *)
Lemma Format_timeLayout (t : Time.Time) :
  Time.Format t Brief.timeLayout
  = let '((Y, M, D), (h, mi, s)) := wallClock (Time.loc t) t in
    Time.appendInt Y 4 ++ Time.appendInt M 2 ++ Time.appendInt D 2
    ++ Time.appendInt h 2 ++ Time.appendInt mi 2 ++ Time.appendInt s 2.
Proof.
  unfold Time.Format, Brief.timeLayout, wallClock, offsetAt, Time.formatChunk,
    Time.locabs.
  cbn [flat_map].
  destruct (Time.lookup (Time.loc t) (Time.unix t)) as [[o st] en]. cbn [fst].
  destruct (Time.absDate _) as [[Y M] D]. destruct (Time.absClock _) as [[h mi] s].
  now rewrite app_nil_r.
Qed.

Lemma wallClock_ranges (l : Time.Location) (t : Time.Time) :
  let '((Y, M, D), (h, mi, s)) := wallClock l t in
  1 <= M <= 12 /\ 1 <= D <= Time.daysIn M Y /\ D <= 31
  /\ 0 <= h < 24 /\ 0 <= mi < 60 /\ 0 <= s < 60.
Proof.
  unfold wallClock.
  pose proof (absDate_spec (Time.unix t + offsetAt l (Time.unix t) + Time.unixToInternal)) as Hd.
  pose proof (absClock_spec (Time.unix t + offsetAt l (Time.unix t) + Time.unixToInternal)) as Hc.
  destruct (Time.absDate _) as [[Y M] D]. destruct (Time.absClock _) as [[h mi] s].
  destruct Hd as (Hm & Hday & _). destruct Hc as (Hh & Hmi & Hs & _).
  repeat split; try lia.
  assert (Time.daysIn M Y <= 31); [|lia].
  unfold Time.daysIn. destruct ((M =? 2) && Time.isLeap Y); [lia|].
  assert (H : M = 1 \/ M = 2 \/ M = 3 \/ M = 4 \/ M = 5 \/ M = 6 \/ M = 7 \/ M = 8
              \/ M = 9 \/ M = 10 \/ M = 11 \/ M = 12) by lia.
  repeat (destruct H as [->|H]; [vm_compute; discriminate|]).
  subst. vm_compute. discriminate.
Qed.

(** For a year the layout has room for, [Format] gives the 14 digits of
    the reading. *)
Lemma Format_timestamp (t : Time.Time) :
  0 <= yearIn (Time.loc t) t <= 9999 ->
  Time.Format t Brief.timeLayout = timestamp (Time.loc t) t.
Proof.
  intros Hy. rewrite Format_timeLayout. unfold timestamp, yearIn in *.
  pose proof (wallClock_ranges (Time.loc t) t) as Hr.
  destruct (wallClock (Time.loc t) t) as [[[Y M] D] [[h mi] s]].
  cbn [fst] in Hy. destruct Hr as (HM & HD & HD' & Hh & Hmi & Hs).
  rewrite appendInt_4 by lia. rewrite !appendInt_2 by lia. reflexivity.
Qed.

Lemma timestamp_length (l : Time.Location) (t : Time.Time) :
  length (timestamp l t) = 14%nat.
Proof.
  unfold timestamp. destruct (wallClock l t) as [[[Y M] D] [[h mi] s]].
  reflexivity.
Qed.

Lemma timestamp_digits (l : Time.Location) (t : Time.Time) :
  Forall (fun c => Time.isDigitByte c = true) (timestamp l t).
Proof.
  unfold timestamp. destruct (wallClock l t) as [[[Y M] D] [[h mi] s]].
  repeat (apply Forall_app; split);
    first [apply digits4_digits|apply digits2_digits].
Qed.

Lemma digits_no_sep (p : bytes) :
  Forall (fun c => Time.isDigitByte c = true) p -> ~ In "."%byte p.
Proof.
  intros H Hin. rewrite Forall_forall in H. specialize (H _ Hin).
  apply isDigitByte_not_special in H. destruct H as (_ & _ & _ & H). now apply H.
Qed.

(** *** Parsing digits *)

Lemma leadingInt_digit (c : byte) (rest : bytes) (x : Z) :
  Time.isDigitByte c = true -> 0 <= x <= 10 ^ 17 ->
  Time.leadingInt (c :: rest) x = Time.leadingInt rest (x * 10 + Time.digitVal c).
Proof.
  intros Hc Hx. cbn [Time.leadingInt]. rewrite Hc.
  change (2 ^ 63 / 10) with 922337203685477580.
  change (2 ^ 63) with 9223372036854775808.
  change (10 ^ 17) with 100000000000000000 in Hx.
  pose proof (isDigitByte_digit c Hc) as [Hv _].
  destruct (Z.gtb_spec x 922337203685477580); [lia|].
  destruct (Z.gtb_spec (x * 10 + Time.digitVal c) 9223372036854775808); [lia|].
  reflexivity.
Qed.

Lemma atoi_digits (s : bytes) (c : byte) :
  Time.isDigitByte c = true ->
  Time.atoi (c :: s) = match Time.leadingInt (c :: s) 0 with
                       | Some (q, []) => Some q
                       | _ => None
                       end.
Proof.
  intros Hc. unfold Time.atoi.
  destruct (isDigitByte_not_special c Hc) as (H1 & H2 & _).
  rewrite H1, H2. cbn [orb]. reflexivity.
Qed.

Lemma atoi_digits4 (x : Z) : 0 <= x <= 9999 -> Time.atoi (digits4 x) = Some x.
Proof.
  intros Hx. unfold digits4.
  pose proof (Z.mod_pos_bound (x / 1000) 10 ltac:(lia)).
  pose proof (Z.mod_pos_bound (x / 100) 10 ltac:(lia)).
  pose proof (Z.mod_pos_bound (x / 10) 10 ltac:(lia)).
  pose proof (Z.mod_pos_bound x 10 ltac:(lia)).
  rewrite atoi_digits by (apply digit_isDigit; lia).
  change (10 ^ 17) with 100000000000000000.
  rewrite !leadingInt_digit
    by (first [apply digit_isDigit; lia
              | change (10 ^ 17) with 100000000000000000;
                rewrite ?digitVal_digit by lia; lia]).
  rewrite !digitVal_digit by lia. cbn [Time.leadingInt].
  f_equal. Z.to_euclidean_division_equations. lia.
Qed.

Lemma getnum_two (a b : byte) (rest : bytes) (fixed : bool) :
  Time.isDigitByte a = true -> Time.isDigitByte b = true ->
  Time.getnum (a :: b :: rest) fixed
  = Some (Time.digitVal a * 10 + Time.digitVal b, rest).
Proof.
  intros Ha Hb. unfold Time.getnum, Time.isDigit. cbn [nth_error].
  rewrite Ha, Hb. reflexivity.
Qed.

Lemma getnum_digits2 (x : Z) (rest : bytes) (fixed : bool) :
  0 <= x <= 99 -> Time.getnum (digits2 x ++ rest) fixed = Some (x, rest).
Proof.
  intros Hx. unfold digits2. cbn [app].
  pose proof (Z.mod_pos_bound (x / 10) 10 ltac:(lia)).
  pose proof (Z.mod_pos_bound x 10 ltac:(lia)).
  rewrite getnum_two by (apply digit_isDigit; lia).
  rewrite !digitVal_digit by lia.
  f_equal. f_equal. Z.to_euclidean_division_equations. lia.
Qed.

Lemma digitRun_all (ds rest : bytes) :
  Forall (fun c => Time.isDigitByte c = true) ds ->
  (match rest with c :: _ => Time.isDigitByte c = false | [] => True end) ->
  Time.digitRun (ds ++ rest) = length ds.
Proof.
  intros Hd Hr. induction Hd as [|c ds Hc Hds IH]; cbn [app Time.digitRun length].
  - destruct rest as [|c rest]; [reflexivity|]. cbn. now rewrite Hr.
  - rewrite Hc, IH. reflexivity.
Qed.

(** The value of a run of digits, as [leadingInt] accumulates it. *)
Lemma leadingInt_run (ds : bytes) :
  Forall (fun c => Time.isDigitByte c = true) ds ->
  forall x, 0 <= x ->
    (x + 1) * 10 ^ Z.of_nat (length ds) <= 10 ^ 18 ->
    exists v, Time.leadingInt ds x = Some (v, []) /\ 0 <= v.
Proof.
  intros Hd. induction Hd as [|c ds Hc Hds IH]; intros x Hx Hb.
  - exists x. split; [reflexivity|lia].
  - cbn [length] in Hb. rewrite Nat2Z.inj_succ, Z.pow_succ_r in Hb by lia.
    pose proof (isDigitByte_digit c Hc) as [Hv _].
    assert (Hp : 1 <= 10 ^ Z.of_nat (length ds)).
    { pose proof (Z.pow_pos_nonneg 10 (Z.of_nat (length ds)) ltac:(lia) ltac:(lia)). lia. }
    set (P := 10 ^ Z.of_nat (length ds)) in *.
    change (10 ^ 18) with 1000000000000000000 in *.
    assert (Hx17 : x <= 10 ^ 17).
    { change (10 ^ 17) with 100000000000000000. nia. }
    rewrite leadingInt_digit by (try assumption; lia).
    apply IH; [lia|]. fold P. change (10 ^ 18) with 1000000000000000000. nia.
Qed.

End Timestamp.

Section ParseAccepts.

Import Spec.

Lemma daysIn_le_31 (M Y : Z) : 1 <= M <= 12 -> Time.daysIn M Y <= 31.
Proof.
  intros HM. unfold Time.daysIn. destruct ((M =? 2) && Time.isLeap Y); [lia|].
  assert (H : M = 1 \/ M = 2 \/ M = 3 \/ M = 4 \/ M = 5 \/ M = 6 \/ M = 7 \/ M = 8
              \/ M = 9 \/ M = 10 \/ M = 11 \/ M = 12) by lia.
  repeat (destruct H as [->|H]; [vm_compute; discriminate|]).
  subst. vm_compute. discriminate.
Qed.

Lemma Forall_firstn {A} (P : A -> Prop) (n : nat) (l : list A) :
  Forall P l -> Forall P (firstn n l).
Proof.
  intros H. revert n. induction H as [|x l Hx Hl IH]; intros [|n]; cbn;
    constructor; auto.
Qed.

Lemma parseChunk_year (f : Time.fields) (Y : Z) (rest : bytes) :
  0 <= Y <= 9999 ->
  Time.parseChunk Time.stdLongYear f (digits4 Y ++ rest)
  = Some (Time.mkFields Y (Time.f_month f) (Time.f_day f) (Time.f_hour f)
                        (Time.f_min f) (Time.f_sec f) (Time.f_nsec f), rest).
Proof.
  intros HY. cbn [Time.parseChunk].
  pose proof (atoi_digits4 Y HY) as Ha.
  pose proof (digits4_digits Y) as Hd.
  unfold digits4 in *. cbn [app length Nat.ltb Nat.leb firstn skipn].
  unfold Time.isDigit. cbn [nth_error].
  inversion Hd as [|? ? H0 _]. rewrite H0. cbn [negb orb].
  rewrite Ha. reflexivity.
Qed.

Lemma atoi_run (ds : bytes) :
  ds <> [] -> (length ds <= 9)%nat ->
  Forall (fun c => Time.isDigitByte c = true) ds ->
  exists v, Time.atoi ds = Some v /\ 0 <= v.
Proof.
  intros Hne Hlen Hd. destruct ds as [|c ds]; [congruence|].
  inversion Hd as [|? ? Hc Hds]; subst.
  rewrite atoi_digits by assumption.
  destruct (leadingInt_run (c :: ds) Hd 0 ltac:(lia)) as (v & Hv & Hv0).
  - rewrite Z.add_0_l, Z.mul_1_l. apply Z.pow_le_mono_r; lia.
  - exists v. rewrite Hv. auto.
Qed.

(** The seconds chunk on two digits and a fraction. *)
Lemma parseChunk_second (f : Time.fields) (s : Z) (frac : bytes) :
  0 <= s <= 59 -> fractionOK frac ->
  exists ns,
    Time.parseChunk Time.stdZeroSecond f (digits2 s ++ frac)
    = Some (Time.mkFields (Time.f_year f) (Time.f_month f) (Time.f_day f)
                          (Time.f_hour f) (Time.f_min f) s ns, [])
    /\ (frac = [] -> ns = Time.f_nsec f).
Proof.
  intros Hs Hf. cbn [Time.parseChunk].
  rewrite getnum_digits2 by lia.
  destruct (Z.ltb_spec s 0); [lia|]. destruct (Z.leb_spec 60 s); [lia|].
  cbn [orb].
  destruct Hf as [->|(c & ds & -> & Hc & Hne & Hd)].
  - exists (Time.f_nsec f). cbn. auto.
  - destruct ds as [|d ds]; [congruence|].
    inversion Hd as [|? ? Hd0 Hds]; subst.
    unfold Time.isDigit. cbn [length Nat.leb nth_error]. rewrite Hd0, Hc.
    cbn [andb skipn].
    pose proof (digitRun_all (d :: ds) [] Hd I) as Hrun.
    rewrite app_nil_r in Hrun. rewrite Hrun.
    unfold Time.parseNanoseconds. rewrite Hc. cbn [negb skipn].
    set (n := if Nat.ltb 10 (S (length (d :: ds))) then 10%nat
              else S (length (d :: ds))).
    assert (Hn : (1 <= n - 1 <= 9)%nat).
    { subst n. cbn [length].
      destruct (Nat.ltb_spec 10 (S (S (length ds)))); lia. }
    destruct (atoi_run (firstn (n - 1) (d :: ds))) as (v & Hv & Hv0).
    + destruct (n - 1)%nat; [lia|]. cbn [firstn]. discriminate.
    + rewrite length_firstn. lia.
    + apply Forall_firstn. assumption.
    + rewrite Hv. destruct (Z.ltb_spec v 0); [lia|].
      eexists. split.
      * rewrite skipn_all. reflexivity.
      * discriminate.
Qed.

Lemma parseChunk_month (f : Time.fields) (M : Z) (rest : bytes) :
  1 <= M <= 12 ->
  Time.parseChunk Time.stdZeroMonth f (digits2 M ++ rest)
  = Some (Time.mkFields (Time.f_year f) M (Time.f_day f) (Time.f_hour f)
                        (Time.f_min f) (Time.f_sec f) (Time.f_nsec f), rest).
Proof.
  intros HM. cbn [Time.parseChunk]. rewrite getnum_digits2 by lia.
  destruct (Z.leb_spec M 0); [lia|]. destruct (Z.ltb_spec 12 M); [lia|].
  reflexivity.
Qed.

Lemma parseChunk_day (f : Time.fields) (D : Z) (rest : bytes) :
  0 <= D <= 99 ->
  Time.parseChunk Time.stdZeroDay f (digits2 D ++ rest)
  = Some (Time.mkFields (Time.f_year f) (Time.f_month f) D (Time.f_hour f)
                        (Time.f_min f) (Time.f_sec f) (Time.f_nsec f), rest).
Proof.
  intros HD. cbn [Time.parseChunk]. rewrite getnum_digits2 by lia. reflexivity.
Qed.

Lemma parseChunk_hour (f : Time.fields) (h : Z) (rest : bytes) :
  0 <= h <= 23 ->
  Time.parseChunk Time.stdHour f (digits2 h ++ rest)
  = Some (Time.mkFields (Time.f_year f) (Time.f_month f) (Time.f_day f) h
                        (Time.f_min f) (Time.f_sec f) (Time.f_nsec f), rest).
Proof.
  intros Hh. cbn [Time.parseChunk]. rewrite getnum_digits2 by lia.
  destruct (Z.ltb_spec h 0); [lia|]. destruct (Z.leb_spec 24 h); [lia|].
  reflexivity.
Qed.

Lemma parseChunk_minute (f : Time.fields) (mi : Z) (rest : bytes) :
  0 <= mi <= 59 ->
  Time.parseChunk Time.stdZeroMinute f (digits2 mi ++ rest)
  = Some (Time.mkFields (Time.f_year f) (Time.f_month f) (Time.f_day f)
                        (Time.f_hour f) mi (Time.f_sec f) (Time.f_nsec f), rest).
Proof.
  intros Hmi. cbn [Time.parseChunk]. rewrite getnum_digits2 by lia.
  destruct (Z.ltb_spec mi 0); [lia|]. destruct (Z.leb_spec 60 mi); [lia|].
  reflexivity.
Qed.

(** The parser accepts fourteen digits that form a real date and time,
    with or without a fraction, and gives the instant [Date] makes of
    them. *)
Lemma ParseInLocation_accepts (Y M D h mi s : Z) (frac : bytes) (l : Time.Location) :
  0 <= Y <= 9999 -> 1 <= M <= 12 -> 1 <= D <= Time.daysIn M Y ->
  0 <= h <= 23 -> 0 <= mi <= 59 -> 0 <= s <= 59 -> fractionOK frac ->
  exists ns,
    Time.ParseInLocation Brief.timeLayout
      (digits4 Y ++ digits2 M ++ digits2 D ++ digits2 h ++ digits2 mi
       ++ digits2 s ++ frac) l
    = Some (Time.Date Y M D h mi s ns l)
    /\ (frac = [] -> ns = 0).
Proof.
  intros HY HM HD Hh Hmi Hs Hf.
  pose proof (daysIn_le_31 M Y HM) as H31.
  unfold Time.ParseInLocation, Brief.timeLayout. cbn [Time.parseChunks].
  rewrite parseChunk_year by assumption. cbv beta iota.
  rewrite parseChunk_month by assumption. cbv beta iota.
  rewrite parseChunk_day by lia. cbv beta iota.
  rewrite parseChunk_hour by assumption. cbv beta iota.
  rewrite parseChunk_minute by assumption. cbv beta iota.
  cbn [Time.f_year Time.f_month Time.f_day Time.f_hour
       Time.f_min Time.f_sec Time.f_nsec].
  destruct (parseChunk_second (Time.mkFields Y M D h mi 0 0) s frac Hs Hf)
    as (ns & Hp & Hns).
  rewrite Hp. cbv beta iota.
  cbn [Time.f_year Time.f_month Time.f_day Time.f_hour
       Time.f_min Time.f_sec Time.f_nsec].
  destruct (Z.ltb_spec D 1); [lia|]. destruct (Z.gtb_spec D (Time.daysIn M Y)); [lia|].
  cbn [orb]. exists ns. split; [reflexivity|exact Hns].
Qed.

End ParseAccepts.

Section ParseRejects.

Import Spec.

Lemma two_digits (a b : byte) :
  Time.isDigitByte a = true -> Time.isDigitByte b = true ->
  [a; b] = digits2 (Time.digitVal a * 10 + Time.digitVal b)
  /\ 0 <= Time.digitVal a * 10 + Time.digitVal b <= 99.
Proof.
  intros Ha Hb.
  destruct (isDigitByte_digit a Ha) as [Ra Ea].
  destruct (isDigitByte_digit b Hb) as [Rb Eb].
  split; [|lia]. unfold digits2.
  replace ((Time.digitVal a * 10 + Time.digitVal b) / 10 mod 10)
    with (Time.digitVal a) by (Z.to_euclidean_division_equations; lia).
  replace ((Time.digitVal a * 10 + Time.digitVal b) mod 10)
    with (Time.digitVal b) by (Z.to_euclidean_division_equations; lia).
  now rewrite Ea, Eb.
Qed.

Lemma getnum_inv (v : bytes) (fixed : bool) (x : Z) (v' : bytes) :
  Time.getnum v fixed = Some (x, v') ->
  (exists a b, v = a :: b :: v' /\ Time.isDigitByte a = true
               /\ Time.isDigitByte b = true
               /\ x = Time.digitVal a * 10 + Time.digitVal b)
  \/ (fixed = false
      /\ exists a, v = a :: v' /\ Time.isDigitByte a = true
                   /\ Time.isDigit v 1 = false).
Proof.
  unfold Time.getnum. destruct v as [|a rest]; [discriminate|].
  destruct (Time.isDigitByte a) eqn:Ha; cbn [negb]; [|discriminate].
  destruct (Time.isDigit (a :: rest) 1) eqn:H1; cbn [negb].
  - destruct rest as [|b rest']; [discriminate|].
    intros H. inversion H; subst. left. exists a, b.
    unfold Time.isDigit in H1. cbn [nth_error] in H1. auto.
  - destruct fixed; [discriminate|]. intros H. inversion H; subst.
    right. split; [reflexivity|]. exists a. auto.
Qed.

Lemma getnum_fixed_inv (v : bytes) (x : Z) (v' : bytes) :
  Time.getnum v true = Some (x, v') ->
  exists y, v = digits2 y ++ v' /\ 0 <= y <= 99 /\ x = y.
Proof.
  intros H. apply getnum_inv in H.
  destruct H as [(a & b & -> & Ha & Hb & ->)|[H _]]; [|discriminate].
  destruct (two_digits a b Ha Hb) as [E R].
  eexists. split; [|split; [exact R|reflexivity]].
  rewrite <- E. reflexivity.
Qed.

Lemma four_digits (a b c d : byte) :
  Time.isDigitByte a = true -> Time.isDigitByte b = true ->
  Time.isDigitByte c = true -> Time.isDigitByte d = true ->
  let y := ((Time.digitVal a * 10 + Time.digitVal b) * 10 + Time.digitVal c) * 10
           + Time.digitVal d in
  [a; b; c; d] = digits4 y /\ 0 <= y <= 9999.
Proof.
  intros Ha Hb Hc Hd y. subst y.
  destruct (isDigitByte_digit a Ha) as [Ra Ea].
  destruct (isDigitByte_digit b Hb) as [Rb Eb].
  destruct (isDigitByte_digit c Hc) as [Rc Ec].
  destruct (isDigitByte_digit d Hd) as [Rd Ed].
  split; [|lia]. unfold digits4.
  set (y := ((Time.digitVal a * 10 + Time.digitVal b) * 10 + Time.digitVal c) * 10
            + Time.digitVal d).
  replace (y / 1000 mod 10) with (Time.digitVal a)
    by (subst y; Z.to_euclidean_division_equations; lia).
  replace (y / 100 mod 10) with (Time.digitVal b)
    by (subst y; Z.to_euclidean_division_equations; lia).
  replace (y / 10 mod 10) with (Time.digitVal c)
    by (subst y; Z.to_euclidean_division_equations; lia).
  replace (y mod 10) with (Time.digitVal d)
    by (subst y; Z.to_euclidean_division_equations; lia).
  now rewrite Ea, Eb, Ec, Ed.
Qed.

Lemma leadingInt_nondigit (c : byte) (rest : bytes) (x : Z) :
  Time.isDigitByte c = false ->
  Time.leadingInt (c :: rest) x = Some (x, c :: rest).
Proof. intros H. cbn [Time.leadingInt]. now rewrite H. Qed.

Lemma parseChunk_year_inv (f f' : Time.fields) (v v' : bytes) :
  Time.parseChunk Time.stdLongYear f v = Some (f', v') ->
  exists Y, v = digits4 Y ++ v' /\ 0 <= Y <= 9999
            /\ f' = Time.mkFields Y (Time.f_month f) (Time.f_day f) (Time.f_hour f)
                                  (Time.f_min f) (Time.f_sec f) (Time.f_nsec f).
Proof.
  cbn [Time.parseChunk].
  destruct v as [|a [|b [|c [|d rest]]]];
    cbn [length Nat.ltb Nat.leb orb]; try discriminate.
  unfold Time.isDigit. cbn [nth_error firstn skipn].
  destruct (Time.isDigitByte a) eqn:Ha; cbn [negb]; [|discriminate].
  rewrite atoi_digits by assumption.
  assert (H17 : 0 <= 0 <= 10 ^ 17) by (change (10 ^ 17) with 100000000000000000; lia).
  rewrite leadingInt_digit by assumption.
  pose proof (isDigitByte_digit a Ha) as [Ra _].
  destruct (Time.isDigitByte b) eqn:Hb;
    [|rewrite leadingInt_nondigit by assumption; discriminate].
  pose proof (isDigitByte_digit b Hb) as [Rb _].
  rewrite leadingInt_digit
    by (try assumption; change (10 ^ 17) with 100000000000000000; lia).
  destruct (Time.isDigitByte c) eqn:Hc;
    [|rewrite leadingInt_nondigit by assumption; discriminate].
  pose proof (isDigitByte_digit c Hc) as [Rc _].
  rewrite leadingInt_digit
    by (try assumption; change (10 ^ 17) with 100000000000000000; lia).
  destruct (Time.isDigitByte d) eqn:Hd;
    [|rewrite leadingInt_nondigit by assumption; discriminate].
  pose proof (isDigitByte_digit d Hd) as [Rd _].
  rewrite leadingInt_digit
    by (try assumption; change (10 ^ 17) with 100000000000000000; lia).
  cbn [Time.leadingInt]. intros H. inversion H; subst; clear H.
  destruct (four_digits a b c d Ha Hb Hc Hd) as [E R].
  rewrite ?Z.mul_0_l, ?Z.add_0_l in *.
  eexists. split; [|split; [exact R|reflexivity]].
  rewrite <- E. reflexivity.
Qed.

Lemma digitRun_skipn (l : bytes) :
  skipn (Time.digitRun l) l = [] -> Forall (fun c => Time.isDigitByte c = true) l.
Proof.
  induction l as [|c l IH]; [constructor|].
  cbn [Time.digitRun]. destruct (Time.isDigitByte c) eqn:Hc.
  - cbn [skipn]. intros H. constructor; auto.
  - cbn [skipn]. discriminate.
Qed.

Lemma parseChunk_second_inv (f f' : Time.fields) (v : bytes) :
  Time.parseChunk Time.stdZeroSecond f v = Some (f', []) ->
  exists s frac, v = digits2 s ++ frac /\ 0 <= s <= 59 /\ fractionOK frac
                 /\ Time.f_year f' = Time.f_year f
                 /\ Time.f_month f' = Time.f_month f
                 /\ Time.f_day f' = Time.f_day f.
Proof.
  cbn [Time.parseChunk].
  destruct (Time.getnum v true) as [[sec value]|] eqn:Hg; [|discriminate].
  apply getnum_fixed_inv in Hg. destruct Hg as (y & -> & Hy & ->).
  destruct (Z.ltb_spec y 0) as [Hy0|Hy0]; [discriminate|].
  destruct (Z.leb_spec 60 y) as [Hy60|Hy60]; [discriminate|]. cbn [orb].
  destruct (Nat.leb 2 (length value) && Time.isDigit value 1
            && match value with c :: _ => Time.commaOrPeriod c | [] => false end)
    eqn:Hcond.
  - destruct (Time.parseNanoseconds _ _); [|discriminate].
    intros Hsome. inversion Hsome as [[Hf Hrest]]. clear Hsome.
    rewrite !andb_true_iff in Hcond. destruct Hcond as [[Hlen Hdig] Hc].
    destruct value as [|c [|d ds]]; cbn [length Nat.leb] in Hlen; try discriminate.
    cbn [skipn] in Hrest.
    apply digitRun_skipn in Hrest.
    exists y, (c :: d :: ds). split; [reflexivity|]. split; [lia|].
    subst f'. cbn. split; [|auto].
    right. exists c, (d :: ds). repeat split; auto. discriminate.
  - intros Hsome. inversion Hsome; subst.
    exists y, []. split; [reflexivity|]. split; [lia|]. cbn.
    split; [left; reflexivity|auto].
Qed.

(** What the parser accepts, for the layout of the package. *)
Lemma ParseInLocation_accepts_iff (p : bytes) (l : Time.Location) :
  Time.ParseInLocation Brief.timeLayout p l <> None <-> timestampOK p.
Proof.
  split.
  - unfold Time.ParseInLocation, Brief.timeLayout. cbn [Time.parseChunks].
    destruct (Time.parseChunk Time.stdLongYear _ p) as [[f1 v1]|] eqn:H1;
      [|intros Hnn; now contradiction Hnn].
    apply parseChunk_year_inv in H1. destruct H1 as (Y & -> & HY & ->).
    cbn [Time.f_year Time.f_month Time.f_day Time.f_hour
         Time.f_min Time.f_sec Time.f_nsec].
    destruct (Time.parseChunk Time.stdZeroMonth _ v1) as [[f2 v2]|] eqn:H2;
      [|intros Hnn; now contradiction Hnn].
    cbn [Time.parseChunk] in H2.
    destruct (Time.getnum v1 true) as [[M v2']|] eqn:G2; [|discriminate].
    apply getnum_fixed_inv in G2. destruct G2 as (M' & -> & _ & ->).
    destruct (Z.leb_spec M' 0); [discriminate|].
    destruct (Z.ltb_spec 12 M'); [discriminate|]. cbn [orb] in H2.
    inversion H2; subst f2 v2; clear H2.
    destruct (Time.parseChunk Time.stdZeroDay _ v2') as [[f3 v3]|] eqn:H3;
      [|intros Hnn; now contradiction Hnn].
    cbn [Time.parseChunk] in H3.
    destruct (Time.getnum v2' true) as [[D v3']|] eqn:G3; [|discriminate].
    apply getnum_fixed_inv in G3. destruct G3 as (D' & -> & _ & ->).
    inversion H3; subst f3 v3; clear H3.
    destruct (Time.parseChunk Time.stdHour _ v3') as [[f4 v4]|] eqn:H4;
      [|intros Hnn; now contradiction Hnn].
    cbn [Time.parseChunk] in H4.
    destruct (Time.getnum v3' false) as [[h v4']|] eqn:G4; [|discriminate].
    destruct (Z.ltb_spec h 0); [discriminate|].
    destruct (Z.leb_spec 24 h); [discriminate|]. cbn [orb] in H4.
    inversion H4; subst f4 v4; clear H4.
    destruct (Time.parseChunk Time.stdZeroMinute _ v4') as [[f5 v5]|] eqn:H5;
      [|intros Hnn; now contradiction Hnn].
    cbn [Time.parseChunk] in H5.
    destruct (Time.getnum v4' true) as [[mi v5']|] eqn:G5; [|discriminate].
    apply getnum_fixed_inv in G5. destruct G5 as (mi' & -> & _ & ->).
    destruct (Z.ltb_spec mi' 0); [discriminate|].
    destruct (Z.leb_spec 60 mi'); [discriminate|]. cbn [orb] in H5.
    inversion H5; subst f5 v5; clear H5.
    (* the hour has two digits: a single digit is followed by no digit,
       but the minute starts with one *)
    apply getnum_inv in G4.
    destruct G4 as [(a & b & -> & Ha & Hb & ->)|(_ & a & -> & Ha & Hnd)].
    2:{ exfalso. unfold Time.isDigit in Hnd. unfold digits2 in Hnd.
        cbn [app nth_error] in Hnd.
        rewrite digit_isDigit in Hnd; [discriminate|].
        pose proof (Z.mod_pos_bound (mi' / 10) 10 ltac:(lia)). lia. }
    destruct (two_digits a b Ha Hb) as [Eh Rh].
    destruct (Time.parseChunk Time.stdZeroSecond _ v5') as [[f6 v6]|] eqn:H6;
      [|intros Hnn; now contradiction Hnn].
    destruct v6 as [|c v6]; [|intros Hnn; now contradiction Hnn].
    apply parseChunk_second_inv in H6.
    destruct H6 as (s & frac & -> & Hs & Hfrac & -> & -> & ->).
    cbn [Time.f_year Time.f_month Time.f_day Time.f_hour
         Time.f_min Time.f_sec Time.f_nsec].
    destruct (Z.ltb_spec D' 1); [intros Hnn; now contradiction Hnn|].
    destruct (Z.gtb_spec D' (Time.daysIn M' Y)); [intros Hnn; now contradiction Hnn|].
    intros _. exists frac. split; [|exact Hfrac].
    exists Y, M', D', (Time.digitVal a * 10 + Time.digitVal b), mi', s.
    rewrite <- Eh. cbn [app]. repeat split; try lia.
  - intros (frac & (Y & M & D & h & mi & s & -> & HY & HM & HD & Hh & Hmi & Hs) & Hf).
    destruct (ParseInLocation_accepts Y M D h mi s frac l) as (ns & Hp & _);
      try assumption.
    rewrite Hp. discriminate.
Qed.

End ParseRejects.

(** ** Serialization *)

Section Codec.

Import Errors World Brief Spec.

Lemma ParseInLocation_timestamp (l : Time.Location) (t : Time.Time) :
  0 <= yearIn l t <= 9999 ->
  Time.ParseInLocation timeLayout (timestamp l t) l
  = Some (Time.mkTime
            (Time.unix t + offsetAt l (Time.unix t)
             - Time.dateOffset l (Time.unix t + offsetAt l (Time.unix t))) 0 l).
Proof.
  intros Hy. unfold timestamp, yearIn in *.
  pose proof (wallClock_ranges l t) as Hr.
  pose proof (Date_of_reading
                (Time.unix t + offsetAt l (Time.unix t) + Time.unixToInternal) l) as HD.
  unfold wallClock in *.
  destruct (Time.absDate _) as [[Y M] D]. destruct (Time.absClock _) as [[h mi] s].
  cbn [fst] in Hy. destruct Hr as (HM & HDay & _ & Hh & Hmi & Hs).
  destruct (ParseInLocation_accepts Y M D h mi s [] l) as (ns & Hp & Hns);
    try lia; [left; reflexivity|].
  rewrite app_nil_r in Hp. rewrite Hp, (Hns eq_refl), HD.
  replace (Time.unix t + offsetAt l (Time.unix t) + Time.unixToInternal
           - Time.unixToInternal)
    with (Time.unix t + offsetAt l (Time.unix t)) by lia.
  reflexivity.
Qed.

Lemma String_parts (t : Token) :
  0 <= yearIn (Time.loc (Expiry t)) (Expiry t) <= 9999 ->
  String t = Encode (Data t) ++ [sep] ++ timestamp (Time.loc (Expiry t)) (Expiry t)
             ++ [sep] ++ Encode (Signature t)
  /\ Strings.Split (String t) sep
     = [Encode (Data t); timestamp (Time.loc (Expiry t)) (Expiry t);
        Encode (Signature t)].
Proof.
  intros Hy. unfold String. rewrite Format_timestamp by assumption.
  split; [reflexivity|].
  apply Split_three.
  - apply alphabet_not_sep, EncodeToString_alphabet.
  - apply digits_no_sep, timestamp_digits.
  - apply alphabet_not_sep, EncodeToString_alphabet.
Qed.

(** C8, as amended.  For a token whose expiry carries the local location
    and falls in the years 0 to 9999 there, the serialization is the
    encoded data, a period, the timestamp, a period and the encoded
    signature.  The timestamp is the 14 ASCII digits YYYYMMDDHHMMSS of
    the expiry's reading in the local zone, zero-padded, the fields being
    a month, a day of that month, and a time of day.  The encoding uses
    only the URL-safe alphabet, has the length of unpadded base64, and
    decodes to the bytes encoded. *)
Theorem String_is_data_timestamp_signature (Local : Time.Location) (t : Token) :
  Time.loc (Expiry t) = Local ->
  0 <= yearIn Local (Expiry t) <= 9999 ->
  String t = Encode (Data t) ++ bs "." ++ timestamp Local (Expiry t) ++ bs "."
             ++ Encode (Signature t)
  /\ length (timestamp Local (Expiry t)) = 14%nat
  /\ Forall (fun c => Time.isDigitByte c = true) (timestamp Local (Expiry t))
  /\ (let '((Y, M, D), (h, mi, s)) := wallClock Local (Expiry t) in
      timestamp Local (Expiry t)
      = digits4 Y ++ digits2 M ++ digits2 D ++ digits2 h ++ digits2 mi ++ digits2 s
      /\ 1 <= M <= 12 /\ 1 <= D <= Time.daysIn M Y
      /\ 0 <= h < 24 /\ 0 <= mi < 60 /\ 0 <= s < 60)
  /\ (forall d : bytes,
         Forall (fun c => isAlphabet c = true) (Encode d)
         /\ length (Encode d) = ((4 * length d + 2) / 3)%nat
         /\ Base64.DecodeString (Encode d) = Some d).
Proof.
  intros <- Hy. split; [apply String_parts, Hy|].
  split; [apply timestamp_length|]. split; [apply timestamp_digits|]. split.
  - pose proof (wallClock_ranges (Time.loc (Expiry t)) (Expiry t)) as Hr.
    unfold timestamp.
    destruct (wallClock (Time.loc (Expiry t)) (Expiry t)) as [[[Y M] D] [[h mi] s]].
    destruct Hr as (HM & HD & _ & Hh & Hmi & Hs). repeat split; lia.
  - intros d. unfold Encode. split; [apply EncodeToString_alphabet|].
    split; [apply EncodeToString_length|apply DecodeString_EncodeToString].
Qed.

(** C3, as amended.  For a token whose expiry carries the local location,
    falls in the years 0 to 9999 there, and has a reading in the local
    zone that [time.Date] maps back to it: deserializing the
    serialization succeeds and gives the token with the same data and
    signature and with the expiry truncated to whole seconds. *)
Theorem FromString_String_round_trip (Local : Time.Location) (t : Token) :
  Time.loc (Expiry t) = Local ->
  0 <= yearIn Local (Expiry t) <= 9999 ->
  unambiguous Local (Expiry t) ->
  FromString Local (String t)
  = (mkToken (Data t) (Time.TruncateSecond (Expiry t)) (Signature t), None).
Proof.
  intros <- Hy Hu. unfold FromString.
  destruct (String_parts t Hy) as [_ Hs]. rewrite Hs.
  cbn [length Nat.eqb negb nth]. unfold Encode.
  rewrite DecodeString_EncodeToString.
  rewrite ParseInLocation_timestamp by assumption.
  rewrite DecodeString_EncodeToString.
  cbn [Data Expiry Signature]. unfold Time.TruncateSecond.
  unfold unambiguous in Hu. rewrite Hu.
  repeat f_equal. lia.
Qed.

End Codec.

(** ** Deserialization *)

Section Deserialization.

Import Errors World Brief Spec.

Lemma Split_pieces (s : bytes) (c : byte) :
  Forall (fun p => ~ In c p) (Strings.Split s c).
Proof.
  induction s as [|x s IH]; cbn [Strings.Split].
  - repeat constructor. intros [].
  - destruct (byte_eqb x c) eqn:E.
    + constructor; [intros []|exact IH].
    + destruct (Strings.Split s c) as [|p ps]; [repeat constructor|].
      * intros [->|[]]. rewrite byte_eqb_refl in E. discriminate.
      * inversion IH; subst. constructor; [|assumption].
        intros [->|Hin]; [rewrite byte_eqb_refl in E; discriminate|auto].
Qed.

Lemma DecodeString_cases (p : bytes) :
  (Base64.DecodeString p = None /\ ~ base64OK p)
  \/ (exists d, Base64.DecodeString p = Some d /\ base64OK p).
Proof.
  pose proof (DecodeString_accepts p) as H. fold (base64OK p) in H.
  destruct (Base64.DecodeString p) as [d|].
  - right. exists d. split; [reflexivity|]. apply H. discriminate.
  - left. split; [reflexivity|]. intros Hok. apply H in Hok. now apply Hok.
Qed.

Lemma ParseInLocation_cases (p : bytes) (l : Time.Location) :
  (Time.ParseInLocation timeLayout p l = None /\ ~ timestampOK p)
  \/ (exists e, Time.ParseInLocation timeLayout p l = Some e /\ timestampOK p).
Proof.
  pose proof (ParseInLocation_accepts_iff p l) as H.
  destruct (Time.ParseInLocation timeLayout p l) as [e|].
  - right. exists e. split; [reflexivity|]. apply H. discriminate.
  - left. split; [reflexivity|]. intros Hok. apply H in Hok. now apply Hok.
Qed.

(** In a piece without a period, the fraction the parser accepts begins
    with a comma. *)
Lemma expiryFieldOK_iff (p : bytes) :
  ~ In sep p -> (timestampOK p <-> expiryFieldOK p).
Proof.
  intros Hsep. split.
  - intros (frac & Hd & Hf). exists frac. split; [exact Hd|].
    destruct Hf as [->|(c & ds & -> & Hc & Hne & Hds)]; [now left|].
    right. exists ds. split; [|auto].
    unfold Time.commaOrPeriod in Hc. apply orb_true_iff in Hc.
    destruct Hc as [Hc|Hc]; apply byte_eqb_eq in Hc; subst c; [|reflexivity].
    exfalso. apply Hsep.
    destruct Hd as (Y & M & D & h & mi & s & -> & _).
    repeat (apply in_or_app; right). now left.
  - intros (frac & Hd & Hf). exists frac. split; [exact Hd|].
    destruct Hf as [->|(ds & -> & Hne & Hds)]; [now left|].
    right. exists ","%byte, ds. auto.
Qed.

(** C5, as amended.  [FromString] is total, and reports the first
    malformed field in the order of the fields.  With the string split at
    its periods (one piece more than it has periods): a format error
    when the pieces are not three; else a data-decoding error when the
    first piece is not what the decoder accepts, namely bytes of the
    URL-safe alphabet and line breaks with the bytes of the alphabet not
    one more than a multiple of four; else an expiry error when the
    second piece is not fourteen digits forming a real date and time,
    alone or followed by a comma and one or more digits; else a
    signature-decoding error when the third piece is not what the decoder
    accepts; else no error, the fields of the token being what the three
    pieces decode to. *)
Theorem FromString_reports_first_malformed_field
        (Local : Time.Location) (s : bytes) :
  let parts := Strings.Split s sep in
  length parts = S (count_occ Byte.byte_eq_dec s sep)
  /\ ((length parts <> 3%nat
       /\ exists msg,
           FromString Local s
           = (zeroToken, Some (Errorf msg [Sentinel ErrParse; Sentinel ErrFormat])))
      \/ exists p0 p1 p2,
          parts = [p0; p1; p2] /\ ~ In sep p1
          /\ ((~ base64OK p0
               /\ exists msg,
                   FromString Local s
                   = (zeroToken,
                      Some (Errorf msg [Sentinel ErrParse; Sentinel ErrDecoding;
                                        Sentinel ErrFieldData])))
              \/ (base64OK p0 /\ ~ expiryFieldOK p1
                  /\ exists t msg,
                      FromString Local s
                      = (t, Some (Errorf msg [Sentinel ErrParse;
                                              Sentinel ErrFieldExpiry])))
              \/ (base64OK p0 /\ expiryFieldOK p1 /\ ~ base64OK p2
                  /\ exists t msg,
                      FromString Local s
                      = (t, Some (Errorf msg [Sentinel ErrParse; Sentinel ErrDecoding;
                                              Sentinel ErrFieldSignature])))
              \/ (base64OK p0 /\ expiryFieldOK p1 /\ base64OK p2
                  /\ exists t,
                      FromString Local s = (t, None)
                      /\ Base64.DecodeString p0 = Some (Data t)
                      /\ Time.ParseInLocation timeLayout p1 Local = Some (Expiry t)
                      /\ Base64.DecodeString p2 = Some (Signature t)))).
Proof.
  intros parts. split; [apply Split_length|].
  unfold FromString. fold parts.
  pose proof (Split_pieces s sep) as Hpieces. fold parts in Hpieces.
  destruct parts as [|p0 [|p1 [|p2 [|p3 rest]]]];
    cbn [length Nat.eqb negb];
    try (left; split; [discriminate|eexists; reflexivity]).
  right. exists p0, p1, p2. split; [reflexivity|].
  assert (Hsep : ~ In sep p1)
    by (inversion Hpieces as [|? ? _ H1]; inversion H1; assumption).
  split; [exact Hsep|].
  cbn [nth].
  destruct (DecodeString_cases p0) as [[E0 N0]|(d0 & E0 & O0)]; rewrite E0.
  { left. split; [assumption|]. eexists. reflexivity. }
  right.
  destruct (ParseInLocation_cases p1 Local) as [[E1 N1]|(e1 & E1 & O1)];
    rewrite (expiryFieldOK_iff p1 Hsep) in *; rewrite E1.
  { left. split; [assumption|]. split; [assumption|]. eexists _, _. reflexivity. }
  right.
  destruct (DecodeString_cases p2) as [[E2 N2]|(d2 & E2 & O2)]; rewrite E2.
  { left. repeat (split; [assumption|]). eexists _, _. reflexivity. }
  right. repeat (split; [assumption|]). eexists. split; [reflexivity|].
  cbn [Data Expiry Signature]. auto.
Qed.

End Deserialization.

(** ** The properties at concrete values *)

Section Examples.

Import Errors World Brief Spec.

Lemma exampleMint_available : secretAvailable exampleMint exampleWorld.
Proof. right. left. discriminate. Qed.

(** C1 at the example mint: signing "abc" gives the example token. *)
Lemma signature_is_hmac_witness :
  secretAvailable exampleMint exampleWorld
  /\ Sign (bs "abc") exampleExpiry exampleMint exampleWorld
     = Returns (exampleToken, None) exampleMintUsed exampleWorldUsed
  /\ length (Signature exampleToken) = 32%nat
  /\ (Verify exampleEarlier exampleToken exampleMint exampleWorld
      = Returns (exampleToken, None) exampleMintUsed exampleWorldUsed
      <-> Signature exampleToken = MAC (bs "k") (bs "abc") exampleExpiry).
Proof.
  assert (H : secretAvailable exampleMint exampleWorld)
    by (right; left; discriminate).
  split; [exact H|].
  destruct (signature_is_hmac_of_data_and_expiry exampleMint exampleWorld H)
    as [HS HV].
  split; [exact (proj1 (HS (bs "abc") exampleExpiry))|].
  split; [exact (proj2 (HS (bs "abc") exampleExpiry))|].
  exact (proj1 (HV exampleEarlier exampleToken eq_refl)).
Defined.

(** C2 at the example token: after its expiry the answer is the expired
    error and nothing has happened, whether the signature is right or
    not; before it, the error for a wrong signature is not the expired
    error. *)
Lemma expiry_checked_first_witness :
  (Time.After exampleLater (Expiry exampleToken) = true
   /\ Verify exampleLater exampleToken exampleMint exampleWorld
      = Returns (exampleToken, Some (Sentinel ErrVerifyExpiry))
                exampleMint exampleWorld
   /\ Verify exampleLater (mkToken (bs "abc") exampleExpiry (bs "forged"))
             exampleMint exampleWorld
      = Returns (mkToken (bs "abc") exampleExpiry (bs "forged"),
                 Some (Sentinel ErrVerifyExpiry))
                exampleMint exampleWorld)
  /\ (Time.After exampleEarlier (Expiry exampleToken) = false
      /\ forall t e m' w',
          Verify exampleEarlier exampleToken exampleMint exampleWorld
          = Returns (t, Some e) m' w' ->
          Is e ErrVerifyExpiry = false).
Proof.
  split.
  - split; [reflexivity|]. split.
    + exact (proj1 (expiry_checked_before_signature
                      exampleMint exampleWorld exampleLater exampleToken) eq_refl).
    + exact (proj1 (expiry_checked_before_signature
                      exampleMint exampleWorld exampleLater
                      (mkToken (bs "abc") exampleExpiry (bs "forged"))) eq_refl).
  - split; [reflexivity|].
    exact (proj2 (expiry_checked_before_signature
                    exampleMint exampleWorld exampleEarlier exampleToken) eq_refl).
Defined.

(** C9 at the example expiry and the same second 999999999 nanoseconds
    later. *)
Lemma whole_seconds_only_witness :
  Time.Unix exampleExpiry = Time.Unix (Time.Add exampleExpiry 999999999)
  /\ signatureOf (Sign (bs "abc") exampleExpiry exampleMint exampleWorld)
     = signatureOf (Sign (bs "abc") (Time.Add exampleExpiry 999999999)
                         exampleMint exampleWorld).
Proof.
  split; [reflexivity|].
  exact (proj1 (proj1 (signature_covers_whole_seconds_only
                         exampleMint exampleWorld exampleExpiry
                         (Time.Add exampleExpiry 999999999) eq_refl)
                      (bs "abc"))).
Defined.

(** C6 fails: the example token verifies a second before its expiry; with
    its expiry moved on by one nanosecond, a nonzero amount, it verifies
    just the same, and the invalid-signature error is not returned. *)
Lemma expiry_moved_within_second_still_verifies :
  Verify exampleEarlier exampleToken exampleMint exampleWorld
  = Returns (exampleToken, None) exampleMintUsed exampleWorldUsed
  /\ Time.Add (Expiry exampleToken) 1 = Time.mkTime 1700000000 1 Time.UTC
  /\ Time.After exampleEarlier (Time.Add (Expiry exampleToken) 1) = false
  /\ Verify exampleEarlier
            (withExpiry exampleToken (Time.Add (Expiry exampleToken) 1))
            exampleMint exampleWorld
     = Returns (withExpiry exampleToken (Time.Add (Expiry exampleToken) 1), None)
               exampleMintUsed exampleWorldUsed.
Proof.
  assert (H : Verify exampleEarlier exampleToken exampleMint exampleWorld
              = Returns (exampleToken, None) exampleMintUsed exampleWorldUsed).
  { rewrite Verify_unexpired by (try reflexivity; apply exampleMint_available).
    cbn [Signature exampleToken]. rewrite Equal_refl. reflexivity. }
  split; [exact H|]. split; [reflexivity|]. split; [reflexivity|].
  rewrite Verify_unexpired by (try reflexivity; apply exampleMint_available).
  cbn [Signature exampleToken withExpiry Data Expiry].
  rewrite (MAC_same_second _ _ (Time.Add exampleExpiry 1) exampleExpiry eq_refl).
  rewrite Equal_refl. reflexivity.
Qed.

(** C6 as amended, at the example token with its expiry moved on by one
    second. *)
Lemma altered_expiry_witness :
  Verify exampleEarlier exampleToken exampleMint exampleWorld
  = Returns (exampleToken, None) exampleMintUsed exampleWorldUsed
  /\ Time.After exampleEarlier (Time.Add exampleExpiry 1000000000) = false
  /\ (Verify exampleEarlier
             (withExpiry exampleToken (Time.Add exampleExpiry 1000000000))
             exampleMint exampleWorld
      = Returns (withExpiry exampleToken (Time.Add exampleExpiry 1000000000),
                 Some (Sentinel ErrVerifySignature))
                exampleMintUsed exampleWorldUsed
      <-> MAC (bs "k") (bs "abc") (Time.Add exampleExpiry 1000000000)
          <> Signature exampleToken).
Proof.
  assert (H : Verify exampleEarlier exampleToken exampleMint exampleWorld
              = Returns (exampleToken, None) exampleMintUsed exampleWorldUsed).
  { rewrite Verify_unexpired by (try reflexivity; apply exampleMint_available).
    cbn [Signature exampleToken]. rewrite Equal_refl. reflexivity. }
  split; [exact H|]. split; [reflexivity|].
  exact (proj1 (proj2 (altered_expiry_detected_by_mac
                         exampleMint exampleWorld exampleEarlier exampleToken
                         (Time.Add exampleExpiry 1000000000)
                         exampleMintUsed exampleWorldUsed H eq_refl))).
Defined.

(** The MACs of the example data for the example expiry and for one second
    later do differ, so that change is detected. *)
Lemma altered_expiry_example_detected :
  Verify exampleEarlier
         (withExpiry exampleToken (Time.Add exampleExpiry 1000000000))
         exampleMint exampleWorld
  = Returns (withExpiry exampleToken (Time.Add exampleExpiry 1000000000),
             Some (Sentinel ErrVerifySignature))
            exampleMintUsed exampleWorldUsed.
Proof. vm_compute. reflexivity. Qed.

(** C4 fails: a mint without a secret whose random source has nothing to
    give panics in [Sign]. *)
Lemma Sign_panics_without_entropy :
  Time.After exampleExpiry exampleEarlier = true
  /\ Sign (bs "abc") exampleExpiry zeroMint exampleWorld
     = Panics (Errorf (bs "rand.Read(Mint.secret): EOF") [Sentinel EOF]).
Proof. split; reflexivity. Qed.

(** C4 as amended, at the example mint. *)
Lemma sign_then_verify_witness :
  secretAvailable exampleMint exampleWorld
  /\ Time.After exampleExpiry exampleEarlier = true
  /\ exists tok m1 w1 w2,
      Sign (bs "abc") exampleExpiry exampleMint exampleWorld
      = Returns (tok, None) m1 w1
      /\ Verify exampleEarlier tok m1 w1 = Returns (tok, None) m1 w2
      /\ Data tok = bs "abc".
Proof.
  split; [right; left; discriminate|]. split; [reflexivity|].
  apply (sign_then_verify_succeeds exampleMint exampleWorld (bs "abc")
           exampleExpiry exampleEarlier).
  - right. left. discriminate.
  - reflexivity.
Defined.

(** C7 over a signing and a verification on a mint without a secret: both
    used the 256 bytes the random source gave first. *)
Lemma secret_fixed_witness :
  run [CallSign (bs "abc") exampleExpiry; CallVerify exampleEarlier exampleToken]
      zeroMint exampleEntropy
  = Returns [ (mkToken (bs "abc") exampleExpiry
                       (MAC (repeat "A"%byte 256) (bs "abc") exampleExpiry), None);
              (exampleToken, Some (Sentinel ErrVerifySignature)) ]
            (mkMint (Some (repeat "A"%byte 256)) true)
            (mkWorld (repeat "A"%byte 44)
                     [repeat "A"%byte 256; repeat "A"%byte 256])
  /\ exists n : nat,
      [repeat "A"%byte 256; repeat "A"%byte 256]
      = [] ++ repeat (repeat "A"%byte 256) n.
Proof.
  assert (H : run [CallSign (bs "abc") exampleExpiry;
                   CallVerify exampleEarlier exampleToken]
                  zeroMint exampleEntropy
              = Returns [ (mkToken (bs "abc") exampleExpiry
                             (MAC (repeat "A"%byte 256) (bs "abc") exampleExpiry),
                           None);
                          (exampleToken, Some (Sentinel ErrVerifySignature)) ]
                        (mkMint (Some (repeat "A"%byte 256)) true)
                        (mkWorld (repeat "A"%byte 44)
                                 [repeat "A"%byte 256; repeat "A"%byte 256])).
  { vm_compute. reflexivity. }
  split; [exact H|].
  destruct (proj1 (secret_established_once_and_fixed _ _ _ _ _ _ H)) as (n & Hn & _).
  exists n. exact Hn.
Defined.

(** C10 at a non-nil empty secret: it is the key, and the random source is
    not read. *)
Lemma NewMint_empty_secret_witness :
  Sign (bs "abc") exampleExpiry (NewMint (Some [])) exampleEntropy
  = Returns (mkToken (bs "abc") exampleExpiry (MAC [] (bs "abc") exampleExpiry), None)
            (mkMint (Some []) true)
            (mkWorld (repeat "A"%byte 300) [[]])
  /\ (256 <= length (entropy exampleEntropy))%nat
  /\ Sign (bs "abc") exampleExpiry (NewMint None) exampleEntropy
     = Returns (mkToken (bs "abc") exampleExpiry
                        (MAC (firstn 256 (entropy exampleEntropy)) (bs "abc")
                             exampleExpiry), None)
               (mkMint (Some (firstn 256 (entropy exampleEntropy))) true)
               (mkWorld (skipn 256 (entropy exampleEntropy))
                        (macKeys exampleEntropy ++ [firstn 256 (entropy exampleEntropy)])).
Proof.
  destruct NewMint_nil_is_lazy_and_explicit_secret_is_kept
    as (_ & Hlazy & _ & Hkept & _).
  split; [exact (Hkept [] exampleEntropy (bs "abc") exampleExpiry)|].
  assert (Hlen : (256 <= length (entropy exampleEntropy))%nat).
  { vm_compute. repeat constructor. }
  split; [exact Hlen|].
  exact (proj2 (Hlazy exampleEntropy (bs "abc") exampleExpiry Hlen)).
Defined.

End Examples.

Section CodecExamples.

Import Errors World Brief Spec.

(** C8 fails: an expiry in the year 10000 is rendered with 15 digits; and
    an expiry presented in UTC is rendered with its UTC reading, not the
    reading of a local zone one hour east. *)
Lemma String_timestamp_not_local_14_digits :
  String exampleTokenFarFuture = bs "YWJj.100000101000000.c2ln"
  /\ String exampleToken
     = Encode (Data exampleToken) ++ bs "." ++ bs "20231114221320" ++ bs "."
       ++ Encode (Signature exampleToken)
  /\ timestamp oneHourEast (Expiry exampleToken) = bs "20231114231320".
Proof.
  split; [vm_compute; reflexivity|]. split; [|vm_compute; reflexivity].
  unfold String. f_equal.
Qed.

(** C8 as amended, at the example token with its expiry in the local
    zone one hour east. *)
Lemma String_layout_witness :
  Time.loc (Expiry exampleTokenEast) = oneHourEast
  /\ 0 <= yearIn oneHourEast (Expiry exampleTokenEast) <= 9999
  /\ String exampleTokenEast
     = Encode (Data exampleTokenEast) ++ bs "."
       ++ timestamp oneHourEast (Expiry exampleTokenEast) ++ bs "."
       ++ Encode (Signature exampleTokenEast)
  /\ timestamp oneHourEast (Expiry exampleTokenEast) = bs "20231114231320"
  /\ String exampleTokenEast = bs "YWJj.20231114231320.c2ln".
Proof.
  assert (Hy : 0 <= yearIn oneHourEast (Expiry exampleTokenEast) <= 9999)
    by (vm_compute; split; discriminate).
  split; [reflexivity|]. split; [exact Hy|].
  split; [exact (proj1 (String_is_data_timestamp_signature
                          oneHourEast exampleTokenEast eq_refl Hy))|].
  split; vm_compute; reflexivity.
Defined.

(** C3 fails: the example token, a token the example mint verifies, has
    its expiry presented in UTC; serialized and deserialized where the
    local zone is one hour east, its expiry comes back an hour earlier.
    Within one local zone, an expiry whose reading occurs twice comes
    back as the later of the two instants, and an expiry in the year
    10000 does not come back at all. *)
Lemma round_trip_shifts_expiry_across_zones :
  (Time.Unix (Expiry exampleToken) = 1700000000
   /\ exists sig,
       FromString oneHourEast (String exampleToken)
       = (mkToken (bs "abc") (Time.mkTime 1699996400 0 oneHourEast) sig, None)
       /\ sig = Signature exampleToken)
  /\ (Time.loc (Expiry exampleTokenSetBack) = clocksSetBack
      /\ Time.Unix (Expiry exampleTokenSetBack) = 1698540600
      /\ FromString clocksSetBack (String exampleTokenSetBack)
         = (mkToken (bs "abc") (Time.mkTime 1698544200 0 clocksSetBack) (bs "sig"),
            None))
  /\ (exists t msg,
         FromString Time.UTC (String exampleTokenFarFuture)
         = (t, Some (Errorf msg [Sentinel ErrParse; Sentinel ErrFieldExpiry]))).
Proof.
  split; [|split].
  - split; [reflexivity|]. eexists. split; vm_compute; reflexivity.
  - repeat split; vm_compute; reflexivity.
  - eexists _, _. vm_compute. reflexivity.
Qed.

(** C3 as amended, at the example token with its expiry in the local
    zone. *)
Lemma round_trip_witness :
  Time.loc (Expiry exampleTokenEast) = oneHourEast
  /\ 0 <= yearIn oneHourEast (Expiry exampleTokenEast) <= 9999
  /\ unambiguous oneHourEast (Expiry exampleTokenEast)
  /\ FromString oneHourEast (String exampleTokenEast)
     = (mkToken (Data exampleTokenEast)
                (Time.TruncateSecond (Expiry exampleTokenEast))
                (Signature exampleTokenEast), None).
Proof.
  assert (Hy : 0 <= yearIn oneHourEast (Expiry exampleTokenEast) <= 9999)
    by (vm_compute; split; discriminate).
  assert (Hu : unambiguous oneHourEast (Expiry exampleTokenEast))
    by (vm_compute; reflexivity).
  split; [reflexivity|]. split; [exact Hy|]. split; [exact Hu|].
  exact (FromString_String_round_trip oneHourEast exampleTokenEast eq_refl Hy Hu).
Defined.

(** C5 fails: a second piece of 16 bytes, fourteen digits and a fraction,
    is accepted; and so is a first piece that holds a line feed, a byte
    outside the base64 alphabet. *)
Lemma FromString_accepts_fraction_and_line_feed :
  Strings.Split (bs "YWJj.20231114221320,5.YWJj") sep
  = [bs "YWJj"; bs "20231114221320,5"; bs "YWJj"]
  /\ length (bs "20231114221320,5") = 16%nat
  /\ FromString Time.UTC (bs "YWJj.20231114221320,5.YWJj")
     = (mkToken (bs "abc") (Time.mkTime 1700000000 500000000 Time.UTC) (bs "abc"),
        None)
  /\ Strings.Split (bs "YW" ++ [x0a] ++ bs "Jj.20231114221320.YWJj") sep
     = [bs "YW" ++ [x0a] ++ bs "Jj"; bs "20231114221320"; bs "YWJj"]
  /\ isAlphabet x0a = false
  /\ FromString Time.UTC (bs "YW" ++ [x0a] ++ bs "Jj.20231114221320.YWJj")
     = (mkToken (bs "abc") (Time.mkTime 1700000000 0 Time.UTC) (bs "abc"), None).
Proof. repeat split; vm_compute; reflexivity. Qed.

(** The four kinds of error at four strings. *)
Lemma FromString_error_examples :
  (exists t msg,
      FromString Time.UTC (bs "YWJj.20231114221320") = (t, Some (Errorf msg [Sentinel ErrParse; Sentinel ErrFormat])))
  /\ (exists t msg,
         FromString Time.UTC (bs "YWJj=.20231114221320.YWJj")
         = (t, Some (Errorf msg [Sentinel ErrParse; Sentinel ErrDecoding;
                                 Sentinel ErrFieldData])))
  /\ (exists t msg,
         FromString Time.UTC (bs "YWJj.20230229221320.YWJj")
         = (t, Some (Errorf msg [Sentinel ErrParse; Sentinel ErrFieldExpiry])))
  /\ (exists t msg,
         FromString Time.UTC (bs "YWJj.20231114221320.Y")
         = (t, Some (Errorf msg [Sentinel ErrParse; Sentinel ErrDecoding;
                                 Sentinel ErrFieldSignature]))).
Proof. repeat split; eexists _, _; vm_compute; reflexivity. Qed.

End CodecExamples.

(** * Further properties of the package *)

(** ** Generate, and the errors of Sign and Verify *)

Section MintExtras.

Import Errors World Brief Spec.

Lemma Sign_inv (data : bytes) (e : Time.Time) (m : Mint) (w : world)
      (tok : Token) (err : option error) (m' : Mint) (w' : world) :
  Sign data e m w = Returns (tok, err) m' w' ->
  secretAvailable m w /\ err = None
  /\ tok = mkToken data e (MAC (secretOf (mintAfter m w)) data e)
  /\ m' = mintAfter m w
  /\ w' = logKey (secretOf (mintAfter m w)) (worldAfter m w).
Proof.
  intros H. destruct (secretAvailable_dec m w) as [Ha|Ha].
  - rewrite (Sign_returns m w data e Ha) in H. inversion H; subst. auto.
  - destruct (Sign_panics m w data e Ha) as [v Hv]. congruence.
Qed.

Lemma secretOf_mintAfter_set (m : Mint) (w : world) (k : bytes) :
  secret m = Some k -> secretOf (mintAfter m w) = k.
Proof.
  intros H. unfold secretOf. rewrite (mintAfter_keeps m w k H). reflexivity.
Qed.

Lemma worldAfter_set (m : Mint) (w : world) :
  once m = true \/ secret m <> None -> worldAfter m w = w.
Proof.
  intros H. unfold worldAfter. destruct (once m); [reflexivity|].
  destruct (secret m); [reflexivity|]. destruct H; congruence.
Qed.



Lemma minted_signature (c : call) (m1 : Mint) (w1 : world) (tok : Token)
      (m2 : Mint) (w2 : world) :
  mints c = true ->
  perform c m1 w1 = Returns (tok, None) m2 w2 ->
  once m2 = true /\ Signature tok = MAC (secretOf m2) (Data tok) (Expiry tok).
Proof.
  intros Hc Hp.
  destruct c as [data e|dataLen e|now' b|Local now' s]; try discriminate Hc;
    cbn [perform] in Hp.
  - apply Sign_inv in Hp. destruct Hp as (_ & _ & -> & -> & _).
    split; [apply mintAfter_once|reflexivity].
  - unfold Generate in Hp. destruct (dataLen <? 0); [discriminate|].
    unfold bind, randRead in Hp.
    destruct (rand_Read (Z.to_nat dataLen) w1) as [[data|err] w1'];
      [|discriminate].
    apply Sign_inv in Hp. destruct Hp as (_ & _ & -> & -> & _).
    split; [apply mintAfter_once|reflexivity].
Qed.

Lemma Verify_used_mint (m : Mint) (w : world) (now : Time.Time) (b : Token) :
  once m = true ->
  Time.After now (Expiry b) = false ->
  Signature b = MAC (secretOf m) (Data b) (Expiry b) ->
  Verify now b m w = Returns (b, None) m (logKey (secretOf m) w).
Proof.
  intros Ho Ht Hs.
  rewrite Verify_unexpired by (try assumption; left; exact Ho).
  rewrite (mintAfter_done m w Ho), (worldAfter_set m w (or_introl Ho)).
  rewrite Hs, Equal_refl. reflexivity.
Qed.

(** X3.  A token that [Sign] or [Generate] returned without error verifies
    on the same mint after any further calls, at any time not after its
    expiry. *)
Theorem minted_token_verifies_later
        (c : call) (m1 : Mint) (w1 : world) (tok : Token) (m2 : Mint) (w2 : world)
        (cs : list call) rs (m3 : Mint) (w3 : world) (now : Time.Time) :
  mints c = true ->
  perform c m1 w1 = Returns (tok, None) m2 w2 ->
  run cs m2 w2 = Returns rs m3 w3 ->
  Time.After now (Expiry tok) = false ->
  Verify now tok m3 w3 = Returns (tok, None) m3 (logKey (secretOf m3) w3).
Proof.
  intros Hc Hp Hr Ht.
  destruct (minted_signature c m1 w1 tok m2 w2 Hc Hp) as [Ho Hs].
  destruct (run_inv cs m2 w2 rs m3 w3 Hr) as (n & _ & Hsame & _).
  specialize (Hsame Ho). subst m3.
  now apply Verify_used_mint.
Qed.

(** X4.  Mints that hold the same secret sign alike, whatever else their
    state and their worlds, and each verifies what the other signed. *)
Theorem mints_with_the_same_secret_agree
        (k : bytes) (m1 m2 : Mint) (w1 w2 : world)
        (data : bytes) (e now : Time.Time) :
  secret m1 = Some k -> secret m2 = Some k ->
  signatureOf (Sign data e m1 w1) = Some (MAC k data e)
  /\ signatureOf (Sign data e m2 w2) = Some (MAC k data e)
  /\ (Time.After now e = false ->
      Verify now (mkToken data e (MAC k data e)) m2 w2
      = Returns (mkToken data e (MAC k data e), None)
                (mkMint (Some k) true) (logKey k w2)).
Proof.
  intros H1 H2.
  assert (A1 : secretAvailable m1 w1) by (right; left; congruence).
  assert (A2 : secretAvailable m2 w2) by (right; left; congruence).
  split; [|split].
  - rewrite (Sign_returns m1 w1 data e A1). cbn [signatureOf Signature].
    now rewrite (secretOf_mintAfter_set m1 w1 k H1).
  - rewrite (Sign_returns m2 w2 data e A2). cbn [signatureOf Signature].
    now rewrite (secretOf_mintAfter_set m2 w2 k H2).
  - intros Ht. rewrite Verify_unexpired by assumption.
    cbn [Data Expiry Signature].
    rewrite (secretOf_mintAfter_set m2 w2 k H2), Equal_refl.
    rewrite worldAfter_set by (right; congruence).
    f_equal. unfold mintAfter. destruct m2 as [s o]. cbn in *. subst s.
    destruct o; reflexivity.
Qed.

(** X5.  [Sign] never returns an error: it returns a token and nil, or it
    panics, and it panics exactly when the secret has to be generated and
    the random source cannot give it.  [Verify] returns the token it was
    given, with nil, the expired error or the invalid-signature error and
    no other. *)
Theorem Sign_and_Verify_never_wrap_an_error
        (data : bytes) (e now : Time.Time) (b : Token) (m : Mint) (w : world) :
  (forall tok err m' w',
      Sign data e m w = Returns (tok, err) m' w' -> err = None)
  /\ ((exists v, Sign data e m w = Panics v) <-> ~ secretAvailable m w)
  /\ (forall t err m' w',
      Verify now b m w = Returns (t, err) m' w' ->
      t = b
      /\ (err = None \/ err = Some (Sentinel ErrVerifyExpiry)
          \/ err = Some (Sentinel ErrVerifySignature))).
Proof.
  split; [|split].
  - intros tok err m' w' H. apply Sign_inv in H. tauto.
  - split.
    + intros [v Hv] Ha. rewrite (Sign_returns m w data e Ha) in Hv. discriminate.
    + apply Sign_panics.
  - intros t err m' w' H.
    destruct (Time.After now (Expiry b)) eqn:Ht.
    + rewrite (Verify_expired m w now b Ht) in H. inversion H; subst. auto.
    + destruct (secretAvailable_dec m w) as [Ha|Ha].
      * rewrite (Verify_unexpired m w now b Ht Ha) in H.
        destruct (HMACEqual.Equal _ _); inversion H; subst; auto.
      * destruct (Verify_unexpired_panics m w now b Ht Ha) as [v Hv]. congruence.
Qed.



End MintExtras.

(** ** The message of the MAC, and the instant of expiry *)

Section MacExtras.

Import Errors World Brief Spec.

Lemma MAC_macInput (k data : bytes) (e : Time.Time) :
  MAC k data e = HMAC.hmac_sha256 k (macInput data e).
Proof.
  unfold MAC, macInput, Binary.PutUint64, Binary.uint64.
  now rewrite be64_big_endian.
Qed.

Lemma app_inj_length {A : Type} (l1 l2 s1 s2 : list A) :
  length s1 = length s2 -> l1 ++ s1 = l2 ++ s2 -> l1 = l2 /\ s1 = s2.
Proof.
  intros Hs. revert l2. induction l1 as [|x l1 IH]; intros [|y l2] H; cbn in H.
  - auto.
  - apply (f_equal (@length A)) in H. cbn in H. rewrite length_app in H. lia.
  - apply (f_equal (@length A)) in H. cbn in H. rewrite length_app in H. lia.
  - injection H as -> H. destruct (IH l2 H) as [-> ->]. auto.
Qed.

Lemma uint64_inj (x y : Z) :
  int64 x -> int64 y -> Binary.uint64 x = Binary.uint64 y -> x = y.
Proof.
  unfold int64, Binary.uint64.
  change (2 ^ 63) with 9223372036854775808.
  change (2 ^ 64) with 18446744073709551616.
  intros Hx Hy H. Z.to_euclidean_division_equations. lia.
Qed.

(** X7.  What [createSignature] authenticates is the data followed by the
    eight bytes of the expiry's Unix seconds, and that message determines
    both: two messages are equal only for the same data and the same
    second, so that a change of either changes what the MAC is taken
    of. *)
Theorem mac_input_determines_data_and_second
        (data1 data2 : bytes) (e1 e2 : Time.Time) (m : Mint) (w : world) :
  int64 (Time.Unix e1) -> int64 (Time.Unix e2) ->
  secretAvailable m w ->
  signatureOf (Sign data1 e1 m w)
  = Some (HMAC.hmac_sha256 (secretOf (mintAfter m w)) (macInput data1 e1))
  /\ (macInput data1 e1 = macInput data2 e2 <->
      data1 = data2 /\ Time.Unix e1 = Time.Unix e2).
Proof.
  intros H1 H2 Ha. split.
  - rewrite (Sign_returns m w data1 e1 Ha). cbn [signatureOf Signature].
    now rewrite MAC_macInput.
  - split.
    + unfold macInput, Binary.PutUint64. rewrite !be64_big_endian. intros H.
      apply app_inj_length in H; [|reflexivity]. destruct H as [Hd Hb].
      split; [exact Hd|]. apply uint64_inj; try assumption.
      apply big_endian_64_inj; try assumption;
        unfold Binary.uint64; apply Z.mod_pos_bound; reflexivity.
    + intros [-> Hu]. unfold macInput. now rewrite Hu.
Qed.

(** X8.  The expiry is the last instant at which a token is valid: a token
    with the right signature verifies at the very instant of its expiry
    and is expired one nanosecond later, before the signature is looked
    at and whatever the locations of the two times. *)
Theorem token_is_valid_up_to_its_expiry_inclusive
        (b : Token) (l : Time.Location) (m : Mint) (w : world) :
  0 <= Time.nsec (Expiry b) < 1000000000 ->
  secretAvailable m w ->
  Signature b = MAC (secretOf (mintAfter m w)) (Data b) (Expiry b) ->
  Verify (Time.mkTime (Time.unix (Expiry b)) (Time.nsec (Expiry b)) l) b m w
  = Returns (b, None) (mintAfter m w)
            (logKey (secretOf (mintAfter m w)) (worldAfter m w))
  /\ Verify (Time.Add (Time.mkTime (Time.unix (Expiry b)) (Time.nsec (Expiry b)) l) 1)
            b m w
     = Returns (b, Some (Sentinel ErrVerifyExpiry)) m w.
Proof.
  intros Hn Ha Hs. split.
  - rewrite Verify_unexpired; [now rewrite Hs, Equal_refl| |exact Ha].
    unfold Time.After. cbn [Time.unix Time.nsec].
    rewrite Z.gtb_ltb, Z.ltb_irrefl, Z.eqb_refl, Z.gtb_ltb, Z.ltb_irrefl.
    reflexivity.
  - apply Verify_expired. unfold Time.Add, Time.After.
    cbn [Time.unix Time.nsec Time.loc].
    change (Z.quot 1 1000000000) with 0. change (Z.rem 1 1000000000) with 1.
    rewrite Z.geb_leb.
    destruct (Z.leb_spec 1000000000 (Time.nsec (Expiry b) + 1)) as [Hge|Hlt];
      cbn [Time.unix Time.nsec].
    + replace (Time.unix (Expiry b) + (0 + 1) >? Time.unix (Expiry b)) with true;
        [reflexivity|]. symmetry. rewrite Z.gtb_ltb. apply Z.ltb_lt. lia.
    + destruct (Z.ltb_spec (Time.nsec (Expiry b) + 1) 0) as [Hneg|_]; [lia|].
      cbn [Time.unix Time.nsec]. rewrite Z.add_0_r, Z.eqb_refl.
      replace (Time.nsec (Expiry b) + 1 >? Time.nsec (Expiry b)) with true;
        [apply orb_true_r|]. symmetry. rewrite Z.gtb_ltb. apply Z.ltb_lt. lia.
Qed.

End MacExtras.

(** ** Serialization of any token *)

Section FormatAnyYear.

Import Errors World Brief Spec.

Lemma of_lu_bound (d : Decimal.uint) :
  (DecimalPos.Unsigned.of_lu d < 10 ^ N.of_nat (Decimal.nb_digits d))%N.
Proof.
  induction d as [|d IH|d IH|d IH|d IH|d IH|d IH|d IH|d IH|d IH|d IH];
    cbn [DecimalPos.Unsigned.of_lu Decimal.nb_digits];
    [cbn; lia|..]; rewrite Nnat.Nat2N.inj_succ, N.pow_succ_r'; lia.
Qed.

Lemma uint_bytes_length (u : Decimal.uint) :
  length (Strconv.uint_bytes u) = Decimal.nb_digits u.
Proof. induction u; cbn; congruence. Qed.

Lemma uint_bytes_digits (u : Decimal.uint) :
  Forall (fun c => Time.isDigitByte c = true) (Strconv.uint_bytes u).
Proof. induction u; cbn [Strconv.uint_bytes]; constructor; auto. Qed.

(** A number is less than ten to the number of its decimal digits. *)
Lemma utoa_bound (x : Z) : 0 <= x -> x < 10 ^ Z.of_nat (length (Strconv.utoa x)).
Proof.
  intros Hx. unfold Strconv.utoa. rewrite uint_bytes_length.
  pose proof (DecimalN.Unsigned.of_to (Z.to_N x)) as H.
  unfold N.of_uint in H. rewrite DecimalPos.Unsigned.of_uint_alt in H.
  pose proof (of_lu_bound (Decimal.rev (N.to_uint (Z.to_N x)))) as Hb.
  rewrite H, DecimalFacts.nb_digits_rev in Hb.
  apply N2Z.inj_lt in Hb. rewrite N2Z.inj_pow, Z2N.id, nat_N_Z in Hb by exact Hx.
  exact Hb.
Qed.

Lemma appendInt_long (x : Z) (w : nat) :
  10000 <= x -> (5 <= length (Time.appendInt x w))%nat.
Proof.
  intros Hx. unfold Time.appendInt.
  destruct (Z.ltb_spec x 0) as [Hneg|_]; [lia|].
  rewrite Z.abs_eq by lia. rewrite !length_app.
  pose proof (utoa_bound x ltac:(lia)) as Hb.
  assert (H : ~ (length (Strconv.utoa x) <= 4)%nat); [|lia].
  intros Hle.
  assert (Hp : 10 ^ Z.of_nat (length (Strconv.utoa x)) <= 10 ^ 4)
    by (apply Z.pow_le_mono_r; lia).
  change (10 ^ 4) with 10000 in Hp. lia.
Qed.

Lemma appendInt_nonneg (x : Z) (w : nat) :
  0 <= x -> Forall (fun c => Time.isDigitByte c = true) (Time.appendInt x w).
Proof.
  intros Hx. unfold Time.appendInt.
  destruct (Z.ltb_spec x 0) as [Hneg|_]; [lia|].
  cbn [app]. apply Forall_app. split; [|apply uint_bytes_digits].
  induction (w - length (Strconv.utoa (Z.abs x)))%nat; cbn [repeat];
    constructor; auto.
Qed.

Lemma appendInt_neg (x : Z) (w : nat) :
  x < 0 ->
  exists r, Time.appendInt x w = "-"%byte :: r
            /\ Forall (fun c => Time.isDigitByte c = true) r.
Proof.
  intros Hx. unfold Time.appendInt.
  destruct (Z.ltb_spec x 0) as [_|Hge]; [|lia].
  eexists. split; [reflexivity|].
  apply Forall_app. split; [|apply uint_bytes_digits].
  induction (w - length (Strconv.utoa (Z.abs x)))%nat; cbn [repeat];
    constructor; auto.
Qed.

(** The formatted expiry in any year: the year in at least four digits,
    after a minus sign if it is negative, then ten digits. *)
Lemma Format_any_year (t : Time.Time) :
  exists tail,
    Time.Format t timeLayout = Time.appendInt (yearIn (Time.loc t) t) 4 ++ tail
    /\ length tail = 10%nat
    /\ Forall (fun c => Time.isDigitByte c = true) tail.
Proof.
  rewrite Format_timeLayout. unfold yearIn.
  pose proof (wallClock_ranges (Time.loc t) t) as Hr.
  destruct (wallClock (Time.loc t) t) as [[[Y M] D] [[h mi] s]].
  destruct Hr as (HM & HD & HD' & Hh & Hmi & Hs). cbn [fst].
  rewrite !appendInt_2 by lia. eexists. split; [reflexivity|].
  split; [reflexivity|].
  repeat (apply Forall_app; split); apply digits2_digits.
Qed.

Lemma Format_no_sep (t : Time.Time) : ~ In sep (Time.Format t timeLayout).
Proof.
  destruct (Format_any_year t) as (tail & -> & _ & Ht).
  intros Hin. apply in_app_or in Hin. destruct Hin as [Hin|Hin].
  - destruct (Z.lt_ge_cases (yearIn (Time.loc t) t) 0) as [Hneg|Hge].
    + destruct (appendInt_neg _ 4 Hneg) as (r & Hr & Hd). rewrite Hr in Hin.
      destruct Hin as [Hin|Hin]; [discriminate Hin|].
      exact (digits_no_sep r Hd Hin).
    + exact (digits_no_sep _ (appendInt_nonneg _ 4 Hge) Hin).
  - exact (digits_no_sep tail Ht Hin).
Qed.

(** The serialization of any token splits at its periods into the three
    fields. *)
Lemma String_Split (t : Token) :
  Strings.Split (String t) sep
  = [Encode (Data t); Time.Format (Expiry t) timeLayout; Encode (Signature t)].
Proof.
  unfold String. apply Split_three.
  - apply alphabet_not_sep, EncodeToString_alphabet.
  - apply Format_no_sep.
  - apply alphabet_not_sep, EncodeToString_alphabet.
Qed.

(** A year outside 0..9999 is not formatted as what the parser accepts. *)
Lemma Format_year_rejected (t : Time.Time) :
  ~ 0 <= yearIn (Time.loc t) t <= 9999 ->
  ~ timestampOK (Time.Format t timeLayout).
Proof.
  intros Hy (frac & (Y & M & D & h & mi & s & Hp & _) & Hf).
  destruct (Format_any_year t) as (tail & HF & Hl & Ht). rewrite HF in Hp.
  destruct (Z.lt_ge_cases (yearIn (Time.loc t) t) 0) as [Hneg|Hge].
  - destruct (appendInt_neg _ 4 Hneg) as (r & Hr & _). rewrite Hr in Hp.
    unfold digits4 in Hp. cbn [app] in Hp. injection Hp as Hc _.
    pose proof (digits4_digits Y) as Hd. unfold digits4 in Hd.
    inversion Hd as [|? ? Hd0 _]. rewrite <- Hc in Hd0. discriminate Hd0.
  - assert (Hbig : 10000 <= yearIn (Time.loc t) t) by lia.
    pose proof (appendInt_long _ 4 Hbig) as Hlen.
    pose proof (appendInt_nonneg _ 4 Hge) as Hdig.
    assert (Hall : Forall (fun c => Time.isDigitByte c = true)
                          (Time.appendInt (yearIn (Time.loc t) t) 4 ++ tail))
      by (apply Forall_app; auto).
    rewrite Hp in Hall.
    assert (Hfl : (1 <= length frac)%nat).
    { apply (f_equal (@length byte)) in Hp. rewrite !length_app in Hp.
      cbn [digits4 digits2 length] in Hp. lia. }
    destruct Hf as [->|(c & ds & -> & Hc & _)]; [cbn in Hfl; lia|].
    rewrite !Forall_app in Hall.
    destruct Hall as (_ & _ & _ & _ & _ & _ & Hfr).
    inversion Hfr as [|? ? Hc' _]. apply isDigitByte_not_special in Hc'.
    destruct Hc' as (_ & _ & Hc' & _). congruence.
Qed.

End FormatAnyYear.

(** ** Serialization and verification together *)

Section CodecExtras.

Import Errors World Brief Spec.

Lemma ParseInLocation_timestamp_in (l Local : Time.Location) (t : Time.Time) :
  0 <= yearIn l t <= 9999 ->
  Time.ParseInLocation timeLayout (timestamp l t) Local
  = Some (Time.mkTime
            (Time.unix t + offsetAt l (Time.unix t)
             - Time.dateOffset Local (Time.unix t + offsetAt l (Time.unix t)))
            0 Local).
Proof.
  intros Hy. unfold timestamp, yearIn in *.
  pose proof (wallClock_ranges l t) as Hr.
  pose proof (Date_of_reading
                (Time.unix t + offsetAt l (Time.unix t) + Time.unixToInternal)
                Local) as HD.
  unfold wallClock in *.
  destruct (Time.absDate _) as [[Y M] D]. destruct (Time.absClock _) as [[h mi] s].
  cbn [fst] in Hy. destruct Hr as (HM & HDay & _ & Hh & Hmi & Hs).
  destruct (ParseInLocation_accepts Y M D h mi s [] Local) as (ns & Hp & Hns);
    try lia; [left; reflexivity|].
  rewrite app_nil_r in Hp. rewrite Hp, (Hns eq_refl), HD.
  replace (Time.unix t + offsetAt l (Time.unix t) + Time.unixToInternal
           - Time.unixToInternal)
    with (Time.unix t + offsetAt l (Time.unix t)) by lia.
  reflexivity.
Qed.

Lemma FromString_String_in (Local : Time.Location) (t : Token) :
  0 <= yearIn (Time.loc (Expiry t)) (Expiry t) <= 9999 ->
  FromString Local (String t)
  = (mkToken (Data t) (reparsed Local (Expiry t)) (Signature t), None).
Proof.
  intros Hy. unfold FromString. rewrite String_Split.
  cbn [length Nat.eqb negb nth]. unfold Encode.
  rewrite DecodeString_EncodeToString.
  rewrite Format_timestamp, ParseInLocation_timestamp_in by assumption.
  rewrite DecodeString_EncodeToString. reflexivity.
Qed.

Lemma reparsed_own_zone (e : Time.Time) :
  unambiguous (Time.loc e) e -> reparsed (Time.loc e) e = Time.TruncateSecond e.
Proof.
  unfold unambiguous, reparsed, Time.TruncateSecond. cbv zeta. intros ->.
  f_equal. lia.
Qed.

(** X9.  Deserializing the serialization of any token, in any local zone.
    The three fields are always found, and data and signature always
    decode.  If the year of the expiry, read in the expiry's own
    location, is one of 0..9999, the result is the token with its data
    and signature and, as expiry, the whole second whose reading in the
    local zone is the reading the expiry has in its own location.
    Otherwise the result is the expiry error, with the data already
    set. *)
Theorem FromString_of_String_any_token (Local : Time.Location) (t : Token) :
  (0 <= yearIn (Time.loc (Expiry t)) (Expiry t) <= 9999 ->
   FromString Local (String t)
   = (mkToken (Data t) (reparsed Local (Expiry t)) (Signature t), None))
  /\ (~ 0 <= yearIn (Time.loc (Expiry t)) (Expiry t) <= 9999 ->
      exists msg,
        FromString Local (String t)
        = (mkToken (Data t) (Expiry zeroToken) (Signature zeroToken),
           Some (Errorf msg [Sentinel ErrParse; Sentinel ErrFieldExpiry]))).
Proof.
  split; [apply FromString_String_in|].
  intros Hy. unfold FromString. rewrite String_Split.
  cbn [length Nat.eqb negb nth]. unfold Encode.
  rewrite DecodeString_EncodeToString.
  destruct (ParseInLocation_cases (Time.Format (Expiry t) timeLayout) Local)
    as [[-> _]|(e & _ & Hok)].
  - eexists. reflexivity.
  - exfalso. exact (Format_year_rejected (Expiry t) Hy Hok).
Qed.

(** X10.  Verifying the serialization of a token is verifying the token
    with the expiry the serialization gives back: for an expiry in the
    years 0..9999, [VerifyString] on [String t] does what [Verify] does
    on [t] with that expiry, for any mint and at any time. *)
Theorem VerifyString_of_String_is_Verify
        (Local : Time.Location) (now : Time.Time) (t : Token) (m : Mint) (w : world) :
  0 <= yearIn (Time.loc (Expiry t)) (Expiry t) <= 9999 ->
  VerifyString Local now (String t) m w
  = Verify now (withExpiry t (reparsed Local (Expiry t))) m w.
Proof.
  intros Hy. unfold VerifyString. now rewrite FromString_String_in.
Qed.

Lemma MAC_TruncateSecond (k data : bytes) (e : Time.Time) :
  MAC k data (Time.TruncateSecond e) = MAC k data e.
Proof. reflexivity. Qed.

(** X11.  A token that [Sign] or [Generate] returned without error, its
    expiry in the local zone, in the years 0..9999 and not at a reading
    that occurs twice: after any further calls on the mint, its
    serialization verifies at any time not after the whole second of its
    expiry, and the token returned has that second as expiry. *)
Theorem minted_token_verifies_as_string
        (Local : Time.Location) (c : call) (m1 : Mint) (w1 : world) (tok : Token)
        (m2 : Mint) (w2 : world) (cs : list call) rs (m3 : Mint) (w3 : world)
        (now : Time.Time) :
  mints c = true ->
  perform c m1 w1 = Returns (tok, None) m2 w2 ->
  run cs m2 w2 = Returns rs m3 w3 ->
  Time.loc (Expiry tok) = Local ->
  0 <= yearIn Local (Expiry tok) <= 9999 ->
  unambiguous Local (Expiry tok) ->
  Time.After now (Time.TruncateSecond (Expiry tok)) = false ->
  VerifyString Local now (String tok) m3 w3
  = Returns (withExpiry tok (Time.TruncateSecond (Expiry tok)), None)
            m3 (logKey (secretOf m3) w3).
Proof.
  intros Hc Hp Hr <- Hy Hu Ht.
  destruct (minted_signature c m1 w1 tok m2 w2 Hc Hp) as [Ho Hs].
  destruct (run_inv cs m2 w2 rs m3 w3 Hr) as (n & _ & Hsame & _).
  specialize (Hsame Ho). subst m3.
  unfold VerifyString. rewrite FromString_String_in by assumption.
  rewrite reparsed_own_zone by assumption.
  apply Verify_used_mint; [exact Ho|exact Ht|].
  unfold withExpiry. cbn [Data Expiry Signature].
  rewrite MAC_TruncateSecond. exact Hs.
Qed.

(** X12.  Serialization shortens the life of a token to the start of the
    second of its expiry.  At a time in that second, after its start and
    not after the expiry, the token itself is not expired, but its
    serialization is reported expired, whatever its signature, without
    the mint being touched. *)
Theorem serialization_expires_at_start_of_second
        (Local : Time.Location) (now : Time.Time) (t : Token) (m : Mint) (w : world) :
  Time.loc (Expiry t) = Local ->
  0 <= yearIn Local (Expiry t) <= 9999 ->
  unambiguous Local (Expiry t) ->
  Time.unix now = Time.unix (Expiry t) ->
  0 < Time.nsec now <= Time.nsec (Expiry t) ->
  Time.After now (Expiry t) = false
  /\ VerifyString Local now (String t) m w
     = Returns (withExpiry t (Time.TruncateSecond (Expiry t)),
                Some (Sentinel ErrVerifyExpiry)) m w.
Proof.
  intros <- Hy Hu Hsec Hns. split.
  - unfold Time.After. rewrite Hsec, Z.gtb_ltb, Z.ltb_irrefl, Z.eqb_refl.
    cbn [orb andb]. rewrite Z.gtb_ltb. apply Z.ltb_ge. lia.
  - unfold VerifyString. rewrite FromString_String_in by assumption.
    rewrite reparsed_own_zone by assumption.
    apply Verify_expired. unfold Time.After, withExpiry, Time.TruncateSecond.
    cbn [Expiry Time.unix Time.nsec].
    rewrite Hsec, Z.gtb_ltb, Z.ltb_irrefl, Z.eqb_refl.
    cbn [orb andb]. rewrite Z.gtb_ltb. apply Z.ltb_lt. lia.
Qed.

End CodecExtras.

(** ** Errors of VerifyString, and the serialization as a function *)

Section StringExtras.

Import Errors World Brief Spec.

Lemma FromString_error_Is (Local : Time.Location) (s : bytes) (t : Token) (err : error) :
  FromString Local s = (t, Some err) ->
  Is err ErrParse = true /\ Is err ErrVerifyExpiry = false
  /\ Is err ErrVerifySignature = false.
Proof.
  unfold FromString.
  destruct (negb _); [intros H; inversion H; repeat split|].
  destruct (Base64.DecodeString _); [|intros H; inversion H; repeat split].
  destruct (Time.ParseInLocation _ _ _); [|intros H; inversion H; repeat split].
  destruct (Base64.DecodeString _); [discriminate|].
  intros H; inversion H; repeat split.
Qed.

(** X13.  The error of [VerifyString] tells a string that does not parse
    from a token that does not verify.  An error wrapping the parse error
    is the error of [FromString]: it wraps neither verification error,
    and the mint was not touched.  Any other error is the expired error
    or the invalid-signature error, on a string that parsed.  And no
    error means that the string parses to the token returned, that the
    time is not after its expiry, and that its signature is the MAC of
    its data and expiry under the mint's secret. *)
Theorem VerifyString_tells_parse_errors_from_verdicts
        (Local : Time.Location) (now : Time.Time) (s : bytes) (m : Mint) (w : world)
        (t : Token) (res : option error) (m' : Mint) (w' : world) :
  VerifyString Local now s m w = Returns (t, res) m' w' ->
  match res with
  | Some err =>
      if Is err ErrParse
      then FromString Local s = (t, Some err)
           /\ Is err ErrVerifyExpiry = false /\ Is err ErrVerifySignature = false
           /\ m' = m /\ w' = w
      else FromString Local s = (t, None)
           /\ (err = Sentinel ErrVerifyExpiry \/ err = Sentinel ErrVerifySignature)
  | None =>
      FromString Local s = (t, None)
      /\ Time.After now (Expiry t) = false
      /\ Signature t = MAC (secretOf m') (Data t) (Expiry t)
  end.
Proof.
  unfold VerifyString. destruct (FromString Local s) as [b [err|]] eqn:HF.
  - unfold ret. intros H. inversion H; subst.
    destruct (FromString_error_Is Local s t err HF) as (-> & H1 & H2). auto.
  - intros H. destruct (Time.After now (Expiry b)) eqn:Ht.
    + rewrite (Verify_expired m w now b Ht) in H. inversion H; subst.
      cbn [Is sentinel_eqb]. auto.
    + destruct (secretAvailable_dec m w) as [Ha|Ha].
      * rewrite (Verify_unexpired m w now b Ht Ha) in H.
        destruct (HMACEqual.Equal _ _) eqn:E; inversion H; subst.
        -- apply Equal_iff in E. auto.
        -- cbn [Is sentinel_eqb]. auto.
      * destruct (Verify_unexpired_panics m w now b Ht Ha) as [v Hv]. congruence.
Qed.

Lemma Format_accepted_year (t : Time.Time) :
  timestampOK (Time.Format t timeLayout) -> 0 <= yearIn (Time.loc t) t <= 9999.
Proof.
  intros Hok.
  destruct (Z_le_dec 0 (yearIn (Time.loc t) t)) as [H0|H0];
    [destruct (Z_le_dec (yearIn (Time.loc t) t) 9999) as [H1|H1]; [lia|]|];
    exfalso; apply (Format_year_rejected t); try exact Hok; lia.
Qed.

(** X14.  The serialization determines the token up to the fraction of
    the expiry's second: tokens with the same serialization have the same
    data and the same signature, and if their expiries are in the same
    location, the one in the years 0..9999, neither at a reading that
    occurs twice, the same Unix second of expiry. *)
Theorem String_determines_the_token (t1 t2 : Token) :
  String t1 = String t2 ->
  Data t1 = Data t2 /\ Signature t1 = Signature t2
  /\ (Time.loc (Expiry t1) = Time.loc (Expiry t2) ->
      0 <= yearIn (Time.loc (Expiry t1)) (Expiry t1) <= 9999 ->
      unambiguous (Time.loc (Expiry t1)) (Expiry t1) ->
      unambiguous (Time.loc (Expiry t2)) (Expiry t2) ->
      Time.Unix (Expiry t1) = Time.Unix (Expiry t2)).
Proof.
  intros H. pose proof (f_equal (fun s => Strings.Split s sep) H) as Hs.
  cbv beta in Hs. rewrite !String_Split in Hs.
  pose proof (f_equal (fun l => nth 0 l []) Hs) as Hd.
  pose proof (f_equal (fun l => nth 1 l []) Hs) as Hf.
  pose proof (f_equal (fun l => nth 2 l []) Hs) as Hg.
  cbn [nth] in Hd, Hf, Hg. clear Hs. unfold Encode in *.
  apply (f_equal Base64.DecodeString) in Hd, Hg.
  rewrite !DecodeString_EncodeToString in Hd, Hg.
  injection Hd as Hd. injection Hg as Hg.
  split; [exact Hd|]. split; [exact Hg|].
  intros Hl Hy Hu1 Hu2.
  assert (Hy2 : 0 <= yearIn (Time.loc (Expiry t2)) (Expiry t2) <= 9999).
  { apply Format_accepted_year. rewrite <- Hf, Format_timestamp by exact Hy.
    apply (ParseInLocation_accepts_iff _ (Time.loc (Expiry t1))).
    rewrite ParseInLocation_timestamp_in by exact Hy. discriminate. }
  pose proof (FromString_String_in (Time.loc (Expiry t1)) t1 Hy) as F1.
  pose proof (FromString_String_in (Time.loc (Expiry t2)) t2 Hy2) as F2.
  rewrite reparsed_own_zone in F1, F2 by assumption.
  rewrite Hl, H, F2 in F1.
  assert (HT : Time.TruncateSecond (Expiry t2) = Time.TruncateSecond (Expiry t1))
    by congruence.
  unfold Time.TruncateSecond in HT. unfold Time.Unix. congruence.
Qed.

(** X15.  The serialization of a token that [Sign] returned, for an
    expiry in the years 0..9999, has as many bytes as the unpadded
    base64 of the data and 59 more: two periods, fourteen digits and the
    43 bytes of a 32-byte signature. *)
Theorem signed_token_String_length
        (data : bytes) (e : Time.Time) (m : Mint) (w : world)
        (tok : Token) (m' : Mint) (w' : world) :
  Sign data e m w = Returns (tok, None) m' w' ->
  0 <= yearIn (Time.loc e) e <= 9999 ->
  length (String tok) = ((4 * length data + 2) / 3 + 59)%nat.
Proof.
  intros HS Hy. apply Sign_inv in HS. destruct HS as (_ & _ & -> & _).
  unfold String. cbn [Data Expiry Signature].
  rewrite Format_timestamp by exact Hy.
  rewrite !length_app, timestamp_length. unfold Encode.
  rewrite !EncodeToString_length. unfold MAC. rewrite hmac_sha256_length.
  cbn [length]. change ((4 * 32 + 2) / 3)%nat with 43%nat. lia.
Qed.

(** X16.  On an error, [FromString] returns the token as far as it was
    filled: the zero token for a format or data error; for an expiry
    error the decoded data and nothing else; for a signature error the
    decoded data and the parsed expiry, and no signature.  [VerifyString]
    hands that token and that error on. *)
Theorem FromString_error_keeps_decoded_fields
        (Local : Time.Location) (s : bytes) (t : Token) (err : error) :
  FromString Local s = (t, Some err) ->
  Signature t = Signature zeroToken
  /\ (Is err ErrFormat = true \/ Is err ErrFieldData = true -> t = zeroToken)
  /\ (Is err ErrFieldExpiry = true ->
      exists p0 p1 p2,
        Strings.Split s sep = [p0; p1; p2]
        /\ Base64.DecodeString p0 = Some (Data t)
        /\ Time.ParseInLocation timeLayout p1 Local = None
        /\ Expiry t = Expiry zeroToken)
  /\ (Is err ErrFieldSignature = true ->
      exists p0 p1 p2,
        Strings.Split s sep = [p0; p1; p2]
        /\ Base64.DecodeString p0 = Some (Data t)
        /\ Time.ParseInLocation timeLayout p1 Local = Some (Expiry t)
        /\ Base64.DecodeString p2 = None)
  /\ (forall now m w, VerifyString Local now s m w = Returns (t, Some err) m w).
Proof.
  intros H.
  assert (HV : forall now m w, VerifyString Local now s m w = Returns (t, Some err) m w)
    by (intros now m w; unfold VerifyString; rewrite H; reflexivity).
  revert H. unfold FromString.
  destruct (Strings.Split s sep) as [|p0 [|p1 [|p2 [|p3 r]]]];
    cbn [length Nat.eqb negb nth];
    try (intros H; inversion H; subst; repeat split; try discriminate; auto;
         exact HV).
  destruct (Base64.DecodeString p0) as [data|] eqn:H0.
  2:{ intros H; inversion H; subst. repeat split; try discriminate; auto. }
  destruct (Time.ParseInLocation timeLayout p1 Local) as [e|] eqn:H1.
  2:{ intros H; inversion H; subst. cbn [Data Expiry Signature].
      repeat split; try discriminate; auto.
      - intros [Hx|Hx]; discriminate Hx.
      - intros _. exists p0, p1, p2. auto. }
  destruct (Base64.DecodeString p2) as [sig|] eqn:H2; [discriminate|].
  intros H; inversion H; subst. cbn [Data Expiry Signature].
  repeat split; try discriminate; auto.
  - intros [Hx|Hx]; discriminate Hx.
  - intros _. exists p0, p1, p2. auto.
Qed.

End StringExtras.

(** ** The further properties at concrete values *)

Section ExtraExamples.

Import Errors World Brief Spec.

Lemma exampleMint_signs :
  Sign (bs "abc") exampleExpiry exampleMint exampleWorld
  = Returns (exampleToken, None) exampleMintUsed exampleWorldUsed.
Proof. rewrite Sign_returns by apply exampleMint_available. reflexivity. Qed.

Lemma exampleMint_signs_east :
  Sign (bs "abc") exampleExpiryEast exampleMint exampleWorld
  = Returns (exampleSignedEast, None) exampleMintUsed exampleWorldUsed.
Proof. rewrite Sign_returns by apply exampleMint_available. reflexivity. Qed.

Lemma zeroMint_unavailable : ~ secretAvailable zeroMint exampleWorld.
Proof. intros [H|[H|H]]; [discriminate H|now apply H|cbn in H; lia]. Qed.



(** X3 at the example token, after a later call of [Verify]. *)
Lemma minted_token_verifies_later_witness :
  Verify exampleEarlier exampleToken exampleMintUsed exampleWorldUsed
  = Returns (exampleToken, None) exampleMintUsed
            (logKey (secretOf exampleMintUsed) exampleWorldUsed).
Proof.
  apply (minted_token_verifies_later
           (CallSign (bs "abc") exampleExpiry) exampleMint exampleWorld
           exampleToken exampleMintUsed exampleWorldUsed
           [CallVerify exampleLater exampleToken]
           [(exampleToken, Some (Sentinel ErrVerifyExpiry))]).
  - reflexivity.
  - exact exampleMint_signs.
  - reflexivity.
  - reflexivity.
Defined.

(** X4 at the example mint, new and used. *)
Lemma same_secret_witness :
  signatureOf (Sign (bs "abc") exampleExpiry exampleMint exampleWorld)
  = signatureOf (Sign (bs "abc") exampleExpiry exampleMintUsed exampleWorldUsed).
Proof.
  destruct (mints_with_the_same_secret_agree
              (bs "k") exampleMint exampleMintUsed exampleWorld exampleWorldUsed
              (bs "abc") exampleExpiry exampleEarlier eq_refl eq_refl)
    as (H1 & H2 & _).
  rewrite H1, H2. reflexivity.
Defined.

(** X5 at a zero mint without entropy: [Sign] panics. *)
Lemma Sign_panics_witness :
  exists v, Sign (bs "abc") exampleExpiry zeroMint exampleWorld = Panics v.
Proof.
  exact (proj2 (proj1 (proj2 (Sign_and_Verify_never_wrap_an_error
                                (bs "abc") exampleExpiry exampleEarlier exampleToken
                                zeroMint exampleWorld)))
               zeroMint_unavailable).
Defined.


(** X7 at the example expiry: two payloads. *)
Lemma mac_input_witness :
  macInput (bs "abc") exampleExpiry <> macInput (bs "abd") exampleExpiry.
Proof.
  assert (Hi : int64 (Time.Unix exampleExpiry))
    by (split; [apply Z.leb_le|apply Z.ltb_lt]; reflexivity).
  intros H.
  apply (proj2 (mac_input_determines_data_and_second
                  (bs "abc") (bs "abd") exampleExpiry exampleExpiry
                  exampleMint exampleWorld Hi Hi exampleMint_available)) in H.
  destruct H as [H _]. discriminate H.
Defined.

(** X8 at the example token, the time in another zone. *)
Lemma expiry_inclusive_witness :
  Verify (Time.mkTime 1700000000 0 oneHourEast) exampleToken exampleMint exampleWorld
  = Returns (exampleToken, None) exampleMintUsed exampleWorldUsed
  /\ Verify (Time.mkTime 1700000000 1 oneHourEast) exampleToken exampleMint exampleWorld
     = Returns (exampleToken, Some (Sentinel ErrVerifyExpiry)) exampleMint exampleWorld.
Proof.
  assert (Hn : 0 <= Time.nsec (Expiry exampleToken) < 1000000000) by (cbn; lia).
  exact (token_is_valid_up_to_its_expiry_inclusive
           exampleToken oneHourEast exampleMint exampleWorld
           Hn exampleMint_available eq_refl).
Defined.

End ExtraExamples.

Section ExtraCodecExamples.

Import Errors World Brief Spec.

Lemma exampleTokenEast_year :
  0 <= yearIn (Time.loc (Expiry exampleTokenEast)) (Expiry exampleTokenEast) <= 9999.
Proof. vm_compute. split; discriminate. Qed.

Lemma exampleTokenFarFuture_year :
  ~ 0 <= yearIn (Time.loc (Expiry exampleTokenFarFuture))
                (Expiry exampleTokenFarFuture) <= 9999.
Proof. vm_compute. intros [_ H]. apply H. reflexivity. Qed.

Lemma exampleExpiryEast_year : 0 <= yearIn oneHourEast exampleExpiryEast <= 9999.
Proof. vm_compute. split; discriminate. Qed.

(** X9 at the example token presented one hour east, read back in UTC,
    and at the token of the year 10000. *)
Lemma FromString_of_String_witness :
  FromString Time.UTC (String exampleTokenEast)
  = (mkToken (bs "abc") (Time.mkTime 1700003600 0 Time.UTC) (bs "sig"), None)
  /\ exists msg,
      FromString Time.UTC (String exampleTokenFarFuture)
      = (mkToken (bs "abc") (Expiry zeroToken) (Signature zeroToken),
         Some (Errorf msg [Sentinel ErrParse; Sentinel ErrFieldExpiry])).
Proof.
  split.
  - exact (proj1 (FromString_of_String_any_token Time.UTC exampleTokenEast)
                 exampleTokenEast_year).
  - exact (proj2 (FromString_of_String_any_token Time.UTC exampleTokenFarFuture)
                 exampleTokenFarFuture_year).
Defined.

(** X10 at the same token and the example mint. *)
Lemma VerifyString_of_String_witness :
  VerifyString Time.UTC exampleEarlier (String exampleTokenEast)
               exampleMint exampleWorld
  = Verify exampleEarlier
           (mkToken (bs "abc") (Time.mkTime 1700003600 0 Time.UTC) (bs "sig"))
           exampleMint exampleWorld.
Proof.
  exact (VerifyString_of_String_is_Verify
           Time.UTC exampleEarlier exampleTokenEast exampleMint exampleWorld
           exampleTokenEast_year).
Defined.

(** X11 at the token the example mint signs, one hour east. *)
Lemma minted_token_verifies_as_string_witness :
  VerifyString oneHourEast exampleEarlier (String exampleSignedEast)
               exampleMintUsed exampleWorldUsed
  = Returns (exampleSignedEast, None) exampleMintUsed
            (logKey (secretOf exampleMintUsed) exampleWorldUsed).
Proof.
  exact (minted_token_verifies_as_string
           oneHourEast (CallSign (bs "abc") exampleExpiryEast)
           exampleMint exampleWorld exampleSignedEast
           exampleMintUsed exampleWorldUsed [] [] exampleMintUsed exampleWorldUsed
           exampleEarlier eq_refl exampleMint_signs_east eq_refl eq_refl
           exampleExpiryEast_year eq_refl eq_refl).
Defined.

(** X12 at a token that expires 5 nanoseconds into a second, 3
    nanoseconds into that second. *)
Lemma serialization_expires_witness :
  Time.After exampleWithinSecond (Expiry exampleTokenSubSecond) = false
  /\ VerifyString oneHourEast exampleWithinSecond (String exampleTokenSubSecond)
                  exampleMint exampleWorld
     = Returns (mkToken (bs "abc") exampleExpiryEast (bs "sig"),
                Some (Sentinel ErrVerifyExpiry)) exampleMint exampleWorld.
Proof.
  assert (Hy : 0 <= yearIn oneHourEast (Expiry exampleTokenSubSecond) <= 9999)
    by (vm_compute; split; discriminate).
  assert (Hn : 0 < Time.nsec exampleWithinSecond
               <= Time.nsec (Expiry exampleTokenSubSecond)) by (cbn; lia).
  exact (serialization_expires_at_start_of_second
           oneHourEast exampleWithinSecond exampleTokenSubSecond
           exampleMint exampleWorld eq_refl Hy eq_refl eq_refl Hn).
Defined.

(** X13 at a string of two parts. *)
Lemma VerifyString_parse_error_witness :
  exists err,
    VerifyString Time.UTC exampleEarlier (bs "YWJj.20231114221320")
                 exampleMint exampleWorld
    = Returns (zeroToken, Some err) exampleMint exampleWorld
    /\ Is err ErrParse = true
    /\ FromString Time.UTC (bs "YWJj.20231114221320") = (zeroToken, Some err).
Proof.
  eexists. split; [reflexivity|]. split; [reflexivity|].
  exact (proj1 (VerifyString_tells_parse_errors_from_verdicts
                  Time.UTC exampleEarlier (bs "YWJj.20231114221320")
                  exampleMint exampleWorld _ _ _ _ eq_refl)).
Defined.

(** X14 at two tokens that differ in the fraction of the second. *)
Lemma String_determines_witness :
  String exampleTokenEast = String exampleTokenSubSecond
  /\ Data exampleTokenEast = Data exampleTokenSubSecond
  /\ Signature exampleTokenEast = Signature exampleTokenSubSecond
  /\ Time.Unix (Expiry exampleTokenEast) = Time.Unix (Expiry exampleTokenSubSecond).
Proof.
  assert (H : String exampleTokenEast = String exampleTokenSubSecond)
    by (vm_compute; reflexivity).
  destruct (String_determines_the_token exampleTokenEast exampleTokenSubSecond H)
    as (H1 & H2 & H3).
  split; [exact H|]. split; [exact H1|]. split; [exact H2|].
  apply H3; [reflexivity|exact exampleTokenEast_year|reflexivity|reflexivity].
Defined.

(** X15 at the example token: 4 bytes of data and 59 more. *)
Lemma String_length_witness : length (String exampleToken) = 63%nat.
Proof.
  assert (Hy : 0 <= yearIn (Time.loc exampleExpiry) exampleExpiry <= 9999)
    by (vm_compute; split; discriminate).
  exact (signed_token_String_length
           (bs "abc") exampleExpiry exampleMint exampleWorld
           exampleToken exampleMintUsed exampleWorldUsed exampleMint_signs Hy).
Defined.

(** X16 at a string whose second field is the 29th of February of a
    year that is not a leap year. *)
Lemma FromString_partial_witness :
  exists t err,
    FromString Time.UTC (bs "YWJj.20230229221320.YWJj") = (t, Some err)
    /\ Is err ErrFieldExpiry = true
    /\ Base64.DecodeString (bs "YWJj") = Some (Data t)
    /\ Expiry t = Expiry zeroToken
    /\ Signature t = Signature zeroToken.
Proof.
  destruct (FromString Time.UTC (bs "YWJj.20230229221320.YWJj"))
    as [t [err|]] eqn:HF; [|vm_compute in HF; discriminate HF].
  destruct (FromString_error_keeps_decoded_fields _ _ _ _ HF) as (Hs & _ & He & _).
  assert (Herr : Is err ErrFieldExpiry = true)
    by (vm_compute in HF; injection HF as _ <-; reflexivity).
  destruct (He Herr) as (p0 & p1 & p2 & Hp & H0 & _ & H1).
  vm_compute in Hp. injection Hp as <- _ _.
  exists t, err. auto.
Defined.

End ExtraCodecExamples.
